(** * levanter.data.text: sentence-aware batch tokenization and token windowing

    A shallow embedding of [src/levanter/data/text.py]:
    - [BatchTokenizer.__call__] and [BatchTokenizer._merge_split_encodings],
    - [concatenate_and_group_texts], [_mask_overlap], [_stack_batch_encodings],
    - [TokenSeqDataset.__iter__] and [BatchEncodingDataset.__iter__],
    - [CausalLmDataset.__init__], [CausalLmDataset.shard] and
      [CausalLmDataset.__iter__].

    Python integers are [Z]; Python [str] is [string], one [ascii] per code
    point (records are restricted to code points below 256); a Python
    exception is a [Raise] result; a [dict] is an association list in
    insertion order (the order in which [items()] iterates). *)

From Stdlib Require Import ZArith List Bool Lia Ascii String.
Import ListNotations.

(** ** The fragment of the Python runtime the module relies on *)

Module Py.

Inductive exn : Type :=
| IndexError
| KeyError
| ValueError
| AssertionError
| AttributeError
| ZeroDivisionError
| TypeError.

Inductive result (A : Type) : Type :=
| Ok (a : A)
| Raise (e : exn).

Arguments Ok {A} a.
Arguments Raise {A} e.

Definition bind {A B : Type} (c : result A) (k : A -> result B) : result B :=
  match c with
  | Ok a => k a
  | Raise e => Raise e
  end.

(** [l[i]] for a non-negative index. *)
Definition getitem {A : Type} (l : list A) (i : nat) : result A :=
  match nth_error l i with
  | Some x => Ok x
  | None => Raise IndexError
  end.

(** [l[-1]]. *)
Fixpoint last_item {A : Type} (l : list A) : result A :=
  match l with
  | [] => Raise IndexError
  | [x] => Ok x
  | _ :: r => last_item r
  end.

(** [a or b] on integers ([None] and [0] are falsy). *)
Definition int_or (a : option Z) (b : Z) : Z :=
  match a with
  | Some x => if (x =? 0)%Z then b else x
  | None => b
  end.

(** [a % b]. *)
Definition mod_ (a b : Z) : result Z :=
  if (b =? 0)%Z then Raise ZeroDivisionError else Ok (a mod b)%Z.

(** [range(0, stop, step)] as the list of its values. *)
Definition range0 (stop step : Z) : result (list Z) :=
  if (step =? 0)%Z then Raise ValueError
  else
    let count :=
      if (0 <? step)%Z then ((stop + step - 1) / step)%Z
      else ((stop + step + 1) / step)%Z in
    Ok (map (fun i => (Z.of_nat i * step)%Z) (seq 0 (Z.to_nat count))).

(** Normalisation of one bound of a slice over a sequence of length [n]. *)
Definition clamp (n : nat) (i : Z) : nat :=
  if (i <? 0)%Z then Z.to_nat (Z.max (i + Z.of_nat n) 0)
  else Nat.min (Z.to_nat i) n.

(** [l[b:e]]. *)
Definition slice {A : Type} (l : list A) (b e : Z) : list A :=
  let lo := clamp (List.length l) b in
  let hi := clamp (List.length l) e in
  firstn (hi - lo) (skipn lo l).

(** [l[b:e] = x] on a numpy array: the scalar is broadcast over the range. *)
Definition fill_slice {A : Type} (l : list A) (b e : Z) (x : A) : list A :=
  let lo := clamp (List.length l) b in
  let hi := clamp (List.length l) e in
  firstn lo l ++ repeat x (hi - lo) ++ skipn (lo + (hi - lo)) l.

(** *** Dictionaries *)

Definition dict (V : Type) : Type := list (string * V).

Fixpoint dict_get {V : Type} (d : dict V) (k : string) : option V :=
  match d with
  | [] => None
  | (k', v) :: r => if String.eqb k' k then Some v else dict_get r k
  end.

(** [d[k] = v]: an existing key keeps its position, a new one goes last. *)
Fixpoint dict_set {V : Type} (d : dict V) (k : string) (v : V) : dict V :=
  match d with
  | [] => [(k, v)]
  | (k', v') :: r =>
      if String.eqb k' k then (k', v) :: r else (k', v') :: dict_set r k v
  end.

(** [{k: f(v) for k, v in d.items()}]. *)
Definition dict_map {V W : Type} (f : V -> W) (d : dict V) : dict W :=
  map (fun kv => (fst kv, f (snd kv))) d.

(** [d[k]]. *)
Definition dict_item {V : Type} (d : dict V) (k : string) : result V :=
  match dict_get d k with
  | Some v => Ok v
  | None => Raise KeyError
  end.

(** [d.k] on a [BatchEncoding]. *)
Definition dict_attr {V : Type} (d : dict V) (k : string) : result V :=
  match dict_get d k with
  | Some v => Ok v
  | None => Raise AttributeError
  end.

(** *** Strings *)

Definition newline : ascii := "010"%char.
Definition dquote : ascii := "034"%char.
Definition squote : ascii := "039"%char.

(** [str.isspace] on one code point below 256; [\s] of [re] is the same
    set on [str] patterns. *)
Definition is_space (c : ascii) : bool :=
  let n := nat_of_ascii c in
  ((9 <=? n) && (n <=? 13) || (28 <=? n) && (n <=? 32)
   || (n =? 133) || (n =? 160))%nat.

Definition snoc (s : string) (c : ascii) : string :=
  (s ++ String c EmptyString)%string.

Definition str_empty (s : string) : bool :=
  match s with
  | EmptyString => true
  | String _ _ => false
  end.

(** [s[-1]]. *)
Fixpoint str_last (s : string) : result ascii :=
  match s with
  | EmptyString => Raise IndexError
  | String c EmptyString => Ok c
  | String _ r => str_last r
  end.

(** [s[:-1]]. *)
Fixpoint str_init (s : string) : string :=
  match s with
  | EmptyString => EmptyString
  | String _ EmptyString => EmptyString
  | String c r => String c (str_init r)
  end.

(** [s.split()]: maximal runs of non-whitespace; [cur] is the run being
    read. *)
Fixpoint split_from (cur s : string) : list string :=
  match s with
  | EmptyString => if str_empty cur then [] else [cur]
  | String c r =>
      if is_space c then
        if str_empty cur then split_from EmptyString r
        else cur :: split_from EmptyString r
      else split_from (snoc cur c) r
  end.

Definition split (s : string) : list string := split_from EmptyString s.

(** [s.replace(old, new)] for a non-empty [old]: occurrences are taken
    left to right and do not overlap; [skip] counts the characters of the
    occurrence just replaced that are still to be passed over. *)
Fixpoint replace_from (old new : string) (skip : nat) (s : string) : string :=
  match s with
  | EmptyString => EmptyString
  | String c r =>
      match skip with
      | S k => replace_from old new k r
      | O =>
          if prefix old s
          then (new ++ replace_from old new (String.length old - 1) r)%string
          else String c (replace_from old new 0 r)
      end
  end.

Definition replace (s old new : string) : string := replace_from old new 0 s.

Definition startswith (s p : string) : bool := prefix p s.

End Py.

Import Py.

Declare Scope py_scope.
Notation "x <- c ;; k" := (Py.bind c (fun x => k))
  (at level 61, c at next level, right associativity) : py_scope.
Notation "' p <- c ;; k" := (Py.bind c (fun x => match x with p => k end))
  (at level 61, p pattern, c at next level, right associativity) : py_scope.
Local Open Scope py_scope.
Local Open Scope string_scope.
Local Open Scope list_scope.
Local Open Scope Z_scope.

(** ** BatchTokenizer *)

(** The value of one field of a [BatchEncoding]: one sequence per input
    string. The merge dispatches on the type of the first sequence; the
    sequences of a field all have that type. [OtherSeqs n] stands for [n]
    sequences that are neither lists nor arrays. *)
Inductive field_value : Type :=
| ListSeqs (v : list (list Z))
| ArraySeqs (v : list (list Z))
| OtherSeqs (n : nat).

Definition BatchEncoding : Type := dict field_value.

(** The interface of the wrapped tokenizer (external): [tokenize] is the
    call on a list of strings, [encode] the [input_ids] of the call on a
    single string. *)
Record PreTrainedTokenizer : Type := {
  tokenize : list string -> BatchEncoding;
  encode : string -> list Z;
  eos_token : string;
  eos_token_id : Z;
  vocab_size : Z
}.

Definition LONG_STRING_WORKAROUND : Z := 100000.
Definition MAX_SENTENCE_LEN : Z := 1024.

(** The [ws] pattern is unused by the code below; the sentence pattern
    [(?<=[.!?])\s+] is embedded by [re_split_sentences]. *)
Definition is_terminator (c : ascii) : bool :=
  ((c =? ".") || (c =? "!") || (c =? "?"))%char.

(** [re.split(r'(?<=[.!?])\s+', d)]: a separator starts at a whitespace
    character that follows a terminator and extends over the whole
    whitespace run. [after_term]: the previous character is a terminator;
    [in_sep]: a separator is being read; [cur]: the piece being read. *)
Fixpoint re_split_from (after_term in_sep : bool) (cur s : string) : list string :=
  match s with
  | EmptyString => [cur]
  | String c r =>
      if is_space c then
        if in_sep then re_split_from false true cur r
        else if after_term then cur :: re_split_from false true EmptyString r
        else re_split_from false false (snoc cur c) r
      else re_split_from (is_terminator c) false (snoc cur c) r
  end.

Definition re_split_sentences (d : string) : list string :=
  re_split_from false false EmptyString d.

Module BatchTokenizer.

Record t : Type := {
  tokenizer : PreTrainedTokenizer;
  _batch_size : Z;
  _need_to_add_eos : bool;
  _workaround_len : Z;
  _vocab_size : Z;
  _eos_token_id : Z;
  _max_sentence_len : Z
}.

(** [__init__]: probes whether the tokenizer appends eos by itself. *)
Definition __init__ (tk : PreTrainedTokenizer) (enforce_eos : bool)
    (batch_size workaround_len max_sentence_len : Z) : result t :=
  should_append_eos <-
    (if enforce_eos then
       x <- last_item (encode tk "hi there") ;;
       Ok (negb (x =? eos_token_id tk))
     else Ok false) ;;
  Ok {| tokenizer := tk;
        _batch_size := batch_size;
        _need_to_add_eos := should_append_eos;
        _workaround_len := workaround_len;
        _vocab_size := vocab_size tk;
        _eos_token_id := eos_token_id tk;
        _max_sentence_len := max_sentence_len |}.

(** The six [replace] calls at the head of the loop body. *)
Definition normalize_quotes (d : string) : string :=
  let dot := "."%char in
  let bang := "!"%char in
  let what := "?"%char in
  let two (a b : ascii) := String a (String b EmptyString) in
  let d := replace d (two dot dquote) (two dquote dot) in
  let d := replace d (two dot squote) (two squote dot) in
  let d := replace d (two what dquote) (two dquote what) in
  let d := replace d (two bang dquote) (two dquote bang) in
  let d := replace d (two what squote) (two squote what) in
  let d := replace d (two bang squote) (two squote bang) in
  d.

(** The condition of the [continue]: [true] when the record is skipped. *)
Definition lacks_terminator (d : string) : result bool :=
  c <- str_last d ;;
  first <-
    (if (c =? newline)%char then
       w <- last_item (split (str_init d)) ;;
       x <- str_last w ;;
       Ok (negb (is_terminator x))
     else Ok false) ;;
  if (first : bool) then Ok true
  else
    w <- last_item (split d) ;;
    x <- str_last w ;;
    Ok (negb (is_terminator x)).

(** The non-empty pieces of the split, each made to start with a space. *)
Definition sentences_of (d : string) : list string :=
  map (fun s => if startswith s " " then s else (" " ++ s)%string)
      (filter (fun s => negb (str_empty s)) (re_split_sentences d)).

Definition word_counts_of (sentences : list string) : list Z :=
  map (fun s => Z.of_nat (List.length (split s))) sentences.

(** The three lists the loop of [__call__] builds. *)
Record units : Type := {
  batch : list string;
  needs_merge : list bool;
  wc : list Z
}.

Definition no_units : units := {| batch := []; needs_merge := []; wc := [] |}.

(** One iteration of the loop over [orig_batch]. The long-sequence
    workaround at its end only prints and is left out. *)
Definition split_record (self : t) (u : units) (d : string) : result units :=
  let d := normalize_quotes d in
  skip <- lacks_terminator d ;;
  if (skip : bool) then Ok u
  else
    let sentences := sentences_of d in
    let word_counts := word_counts_of sentences in
    match sentences with
    | [] => Ok u
    | _ :: _ =>
        let u :=
          {| batch := batch u ++ sentences;
             needs_merge := needs_merge u ++ [false]
                              ++ repeat true (List.length sentences - 1);
             wc := wc u ++ word_counts |} in
        if _need_to_add_eos self then
          Ok {| batch := batch u ++ [eos_token (tokenizer self)];
                needs_merge := needs_merge u ++ [true];
                wc := wc u ++ [1] |}
        else Ok u
    end.

Fixpoint split_records (self : t) (u : units) (orig_batch : list string)
    : result units :=
  match orig_batch with
  | [] => Ok u
  | d :: rest =>
      u <- split_record self u d ;;
      split_records self u rest
  end.

(** State of the inner loop of the merge: [v_out] and [vs_to_merge]. *)
Definition merge_state : Type := (list (list Z) * list (list Z))%type.

(** The prefix step shared by both branches:
    [if wc[i] < max_sentence_len and v[i][0] != eos_token_id]. *)
Definition eligible (w max_sentence_len eos_token_id : Z) (vi : list Z)
    : result bool :=
  if w <? max_sentence_len then
    x <- getitem vi 0 ;;
    Ok (negb (x =? eos_token_id))
  else Ok false.

(** Body of the loop over [range(len(batch))], list-valued field. *)
Definition list_step (needs_merge : list bool) (wc : list Z)
    (v : list (list Z)) (eos_token_id max_sentence_len : Z)
    (st : merge_state) (i : nat) : result merge_state :=
  let '(v_out, vs_to_merge) := st in
  flag <- getitem needs_merge i ;;
  let '(v_out, vs_to_merge) :=
    if negb flag then
      ((if (0 <? List.length vs_to_merge)%nat
        then v_out ++ [List.concat vs_to_merge] else v_out), [])
    else (v_out, vs_to_merge) in
  w <- getitem wc i ;;
  let sentence_len := w + eos_token_id + 1 in
  vi <- getitem v i ;;
  pre <- eligible w max_sentence_len eos_token_id vi ;;
  let vi := if (pre : bool) then sentence_len :: vi else vi in
  Ok (v_out, vs_to_merge ++ [vi]).

(** [np.concatenate]: refuses an empty list of arrays. *)
Definition np_concatenate (arrays : list (list Z)) : result (list Z) :=
  match arrays with
  | [] => Raise ValueError
  | _ :: _ => Ok (List.concat arrays)
  end.

Definition wrap_int64 (x : Z) : Z :=
  (x + 2 ^ 63) mod 2 ^ 64 - 2 ^ 63.

(** [[sentence_len] + a] on an int64 array [a]: the one-element list is
    broadcast and added to every entry. *)
Definition np_add_broadcast (sentence_len : Z) (a : list Z) : list Z :=
  map (fun x => wrap_int64 (sentence_len + x)) a.

(** Body of the loop over [range(len(batch))], array-valued field. *)
Definition array_step (needs_merge : list bool) (wc : list Z)
    (v : list (list Z)) (eos_token_id max_sentence_len : Z)
    (st : merge_state) (i : nat) : result merge_state :=
  let '(v_out, vs_to_merge) := st in
  flag <- getitem needs_merge i ;;
  st <-
    (if negb flag then
       merged <- np_concatenate vs_to_merge ;;
       Ok (v_out ++ [merged], [])
     else Ok (v_out, vs_to_merge)) ;;
  let '(v_out, vs_to_merge) := (st : merge_state) in
  w <- getitem wc i ;;
  let sentence_len := w + eos_token_id + 1 in
  vi <- getitem v i ;;
  pre <- eligible w max_sentence_len eos_token_id vi ;;
  let vi := if (pre : bool) then np_add_broadcast sentence_len vi else vi in
  Ok (v_out, vs_to_merge ++ [vi]).

Fixpoint for_each (step : merge_state -> nat -> result merge_state)
    (st : merge_state) (indices : list nat) : result merge_state :=
  match indices with
  | [] => Ok st
  | i :: rest =>
      st <- step st i ;;
      for_each step st rest
  end.

(** One field of [encoding.items()]: [None] for the [continue]. *)
Definition merge_field (batch : list string) (v : field_value)
    (needs_merge : list bool) (wc : list Z)
    (eos_token_id max_sentence_len : Z) : result (option field_value) :=
  match v with
  | ListSeqs [] | ArraySeqs [] | OtherSeqs O => Ok None
  | ArraySeqs v =>
      if negb (List.length v =? List.length batch)%nat
      then Raise AssertionError
      else
        st <- for_each
                (array_step needs_merge wc v eos_token_id max_sentence_len)
                ([], []) (seq 0 (List.length batch)) ;;
        let '(v_out, vs_to_merge) := (st : merge_state) in
        v_out <-
          (if (0 <? List.length vs_to_merge)%nat then
             merged <- np_concatenate vs_to_merge ;;
             Ok (v_out ++ [merged])
           else Ok v_out) ;;
        Ok (Some (ArraySeqs v_out))
  | ListSeqs v =>
      st <- for_each
              (list_step needs_merge wc v eos_token_id max_sentence_len)
              ([], []) (seq 0 (List.length batch)) ;;
      let '(v_out, vs_to_merge) := (st : merge_state) in
      let v_out :=
        if (0 <? List.length vs_to_merge)%nat
        then v_out ++ [List.concat vs_to_merge] else v_out in
      Ok (Some (ListSeqs v_out))
  | OtherSeqs _ => Raise ValueError
  end.

Fixpoint merge_fields (batch : list string) (items : BatchEncoding)
    (needs_merge : list bool) (wc : list Z)
    (eos_token_id max_sentence_len : Z) (new_encoding : BatchEncoding)
    : result BatchEncoding :=
  match items with
  | [] => Ok new_encoding
  | (k, v) :: rest =>
      r <- merge_field batch v needs_merge wc eos_token_id max_sentence_len ;;
      let new_encoding :=
        match (r : option field_value) with
        | Some v_out => dict_set new_encoding k v_out
        | None => new_encoding
        end in
      merge_fields batch rest needs_merge wc eos_token_id max_sentence_len
        new_encoding
  end.

Definition _merge_split_encodings (batch : list string)
    (encoding : BatchEncoding) (needs_merge : list bool) (wc : list Z)
    (eos_token_id max_sentence_len : Z) : result BatchEncoding :=
  merge_fields batch encoding needs_merge wc eos_token_id max_sentence_len [].

Definition __call__ (self : t) (orig_batch : list string)
    : result BatchEncoding :=
  u <- split_records self no_units orig_batch ;;
  let encoding := tokenize (tokenizer self) (batch u) in
  match needs_merge u with
  | [] => Ok encoding
  | _ :: _ =>
      _merge_split_encodings (batch u) encoding (needs_merge u) (wc u)
        (_eos_token_id self) (_max_sentence_len self)
  end.

End BatchTokenizer.

(** ** Token windows *)

(** What a generator produces: the values it yields, in order, and the
    exception that ends it, if any. *)
Record stream (A : Type) : Type := {
  yielded : list A;
  raised : option exn
}.

Arguments yielded {A} s.
Arguments raised {A} s.

Definition stream_nil {A : Type} : stream A :=
  {| yielded := []; raised := None |}.

Definition stream_raise {A : Type} (e : exn) : stream A :=
  {| yielded := []; raised := Some e |}.

Definition stream_cons {A : Type} (x : A) (s : stream A) : stream A :=
  {| yielded := x :: yielded s; raised := raised s |}.

Definition DEFAULT_IGNORE_INDEX : Z := -100.

(** *** Value level: arrays as the list of their entries *)

(** [_mask_overlap], array branch; its [deepcopy] is what makes it a
    function of the entries (see [Np._mask_overlap] for the store level). *)
Definition _mask_overlap (labels : list Z) (target_len stride sentinel : Z)
    : list Z :=
  fill_slice labels 0 (target_len - stride) sentinel.

(** [l[i] = x] for a non-negative index. *)
Fixpoint setitem {A : Type} (l : list A) (i : nat) (x : A) : result (list A) :=
  match l, i with
  | [], _ => Raise IndexError
  | _ :: r, O => Ok (x :: r)
  | a :: r, S n => r' <- setitem r n x ;; Ok (a :: r')
  end.

(** [_mask_overlap], list branch: the loop over [range(target_len - stride)]
    on the copy. *)
Fixpoint mask_loop (labels : list Z) (sentinel : Z) (indices : list nat)
    : result (list Z) :=
  match indices with
  | [] => Ok labels
  | i :: rest =>
      labels <-
        (if (i <? List.length labels)%nat then setitem labels i sentinel
         else Ok labels) ;;
      mask_loop labels sentinel rest
  end.

Definition _mask_overlap_list (labels : list Z)
    (target_len stride sentinel : Z) : result (list Z) :=
  mask_loop labels sentinel (seq 0 (Z.to_nat (target_len - stride))).

(** Body of the loop over [begin]. *)
Definition window (concatenated : dict (list Z)) (seq_len stride : Z)
    (mask_stride_overlap : bool) (begin : Z) : result (dict (list Z)) :=
  let data := dict_map (fun v => slice v begin (begin + seq_len)) concatenated in
  if mask_stride_overlap && negb (stride =? seq_len) then
    ids <- dict_item data "input_ids" ;;
    let labels :=
      match dict_get data "labels" with
      | Some l => l
      | None => ids
      end in
    let labels :=
      if negb (begin =? 0)
      then _mask_overlap labels seq_len stride DEFAULT_IGNORE_INDEX
      else labels in
    Ok (dict_set data "labels" labels)
  else Ok data.

Fixpoint windows (concatenated : dict (list Z)) (seq_len stride : Z)
    (mask_stride_overlap : bool) (begins : list Z) : stream (dict (list Z)) :=
  match begins with
  | [] => stream_nil
  | begin :: rest =>
      match window concatenated seq_len stride mask_stride_overlap begin with
      | Raise e => stream_raise e
      | Ok data =>
          stream_cons data
            (windows concatenated seq_len stride mask_stride_overlap rest)
      end
  end.

(** The statements before the loop: the total length and the stride in
    force, then the values of [begin]. *)
Definition window_begins (total_length seq_len : Z) (stride : option Z)
    (drop_remainder : bool) : result (Z * list Z) :=
  let stride := int_or stride seq_len in
  total_length <-
    (if drop_remainder then
       m <- mod_ total_length stride ;;
       Ok (if negb (m =? 0)
           then ((total_length - seq_len + stride) / stride) * stride
           else total_length)
     else Ok total_length) ;;
  begins <- range0 (total_length - seq_len + stride) stride ;;
  Ok (stride, begins).

Definition concatenate_and_group_texts (encoding : dict (list (list Z)))
    (seq_len : Z) (stride : option Z)
    (drop_remainder mask_stride_overlap : bool) : stream (dict (list Z)) :=
  let concatenated := dict_map (@List.concat Z) encoding in
  match
    (ids <- dict_attr concatenated "input_ids" ;;
     window_begins (Z.of_nat (List.length ids)) seq_len stride drop_remainder)
  with
  | Raise e => stream_raise e
  | Ok (stride, begins) =>
      windows concatenated seq_len stride mask_stride_overlap begins
  end.

(** *** Store level: numpy buffers, views and copies *)

Module Np.

(** The buffers allocated so far; an address is a position in the list. *)
Definition store : Type := list (list Z).

(** A one-dimensional array: [size] entries of buffer [base] from
    [offset] on. A slice of an array is a view on the same buffer. *)
Record ndarray : Type := {
  base : nat;
  offset : nat;
  size : nat
}.

Definition read (h : store) (a : ndarray) : list Z :=
  firstn (size a) (skipn (offset a) (nth (base a) h [])).

(** An array of the store: its buffer is allocated and holds its range. *)
Definition valid (h : store) (a : ndarray) : Prop :=
  (base a < List.length h)%nat /\
  (offset a + size a <= List.length (nth (base a) h []))%nat.

(** [np.array(l)]: a fresh buffer. *)
Definition array (h : store) (l : list Z) : store * ndarray :=
  (h ++ [l], {| base := List.length h; offset := 0; size := List.length l |}).

(** [a[b:e]]. *)
Definition view (a : ndarray) (b e : Z) : ndarray :=
  let lo := clamp (size a) b in
  let hi := clamp (size a) e in
  {| base := base a; offset := (offset a + lo)%nat; size := (hi - lo)%nat |}.

(** [copy.deepcopy(a)]. *)
Definition deepcopy (h : store) (a : ndarray) : store * ndarray :=
  array h (read h a).

Fixpoint set_buffer (h : store) (addr : nat) (buf : list Z) : store :=
  match h, addr with
  | [], _ => []
  | _ :: r, O => buf :: r
  | b :: r, S n => b :: set_buffer r n buf
  end.

(** [a[b:e] = x]: writes through the view into its buffer. *)
Definition assign (h : store) (a : ndarray) (b e : Z) (x : Z) : store :=
  let v := view a b e in
  let buf := nth (base v) h [] in
  set_buffer h (base v)
    (firstn (offset v) buf ++ repeat x (size v)
       ++ skipn (offset v + size v) buf).

Definition _mask_overlap (h : store) (labels : ndarray)
    (target_len stride sentinel : Z) : store * ndarray :=
  let '(h, labels) := deepcopy h labels in
  (assign h labels 0 (target_len - stride) sentinel, labels).

Definition window (h : store) (concatenated : dict ndarray)
    (seq_len stride : Z) (mask_stride_overlap : bool) (begin : Z)
    : result (store * dict ndarray) :=
  let data := dict_map (fun v => view v begin (begin + seq_len)) concatenated in
  if mask_stride_overlap && negb (stride =? seq_len) then
    ids <- dict_item data "input_ids" ;;
    let labels :=
      match dict_get data "labels" with
      | Some l => l
      | None => ids
      end in
    let '(h, labels) :=
      if negb (begin =? 0)
      then _mask_overlap h labels seq_len stride DEFAULT_IGNORE_INDEX
      else (h, labels) in
    Ok (h, dict_set data "labels" labels)
  else Ok (h, data).

Fixpoint windows (h : store) (concatenated : dict ndarray)
    (seq_len stride : Z) (mask_stride_overlap : bool) (begins : list Z)
    : store * stream (dict ndarray) :=
  match begins with
  | [] => (h, stream_nil)
  | begin :: rest =>
      match window h concatenated seq_len stride mask_stride_overlap begin with
      | Raise e => (h, stream_raise e)
      | Ok (h, data) =>
          let '(h, s) :=
            windows h concatenated seq_len stride mask_stride_overlap rest in
          (h, stream_cons data s)
      end
  end.

(** [{k: np.array(list(chain( *v))) for k, v in encoding.items()}]. *)
Fixpoint concatenate (h : store) (items : dict (list (list Z)))
    : store * dict ndarray :=
  match items with
  | [] => (h, [])
  | (k, v) :: rest =>
      let '(h, a) := array h (List.concat v) in
      let '(h, d) := concatenate h rest in
      (h, (k, a) :: d)
  end.

Definition concatenate_and_group_texts (h : store)
    (encoding : dict (list (list Z))) (seq_len : Z) (stride : option Z)
    (drop_remainder mask_stride_overlap : bool)
    : store * stream (dict ndarray) :=
  let '(h, concatenated) := concatenate h encoding in
  match
    (ids <- dict_attr concatenated "input_ids" ;;
     window_begins (Z.of_nat (size ids)) seq_len stride drop_remainder)
  with
  | Raise e => (h, stream_raise e)
  | Ok (stride, begins) =>
      windows h concatenated seq_len stride mask_stride_overlap begins
  end.

(** What a consumer reads from a yielded window in store [h]. *)
Definition read_window (h : store) (data : dict ndarray) : dict (list Z) :=
  dict_map (read h) data.

Definition read_stream (h : store) (s : stream (dict ndarray))
    : stream (dict (list Z)) :=
  {| yielded := map (read_window h) (yielded s); raised := raised s |}.

End Np.

(** ** TokenSeqDataset *)

(** A field as [_ensure_batched] meets it: the array of a slice, or the
    sequences of a document. *)
Inductive encoded : Type :=
| Flat (x : list Z)
| Batched (x : list (list Z)).

Definition _ensure_batched (x : encoded) : list (list Z) :=
  match x with
  | Flat [] => []
  | Batched [] => []
  | Batched x => x
  | Flat x => [x]
  end.

(** [{k: _ensure_batched(a[k]) + _ensure_batched(b[k]) for k in a.keys()}]. *)
Fixpoint stack_items (a_items a b : dict encoded)
    : result (dict (list (list Z))) :=
  match a_items with
  | [] => Ok []
  | (k, _) :: rest =>
      ak <- dict_item a k ;;
      bk <- dict_item b k ;;
      r <- stack_items rest a b ;;
      Ok ((k, _ensure_batched ak ++ _ensure_batched bk) :: r)
  end.

Definition _stack_batch_encodings (a b : dict encoded)
    : result (dict (list (list Z))) :=
  stack_items a a b.

(** The iteration is stated at the value level: the arrays that
    [concatenate_and_group_texts] hands out are never written again
    (lemma [concatenate_and_group_texts_refines]), and the iteration
    itself writes into none. *)
Module TokenSeqDataset.

Record t : Type := {
  doc_cache : list (dict (list (list Z)));
  seq_len : Z;
  stride : option Z
}.

(** The inner loop over the slices of one document: the arrays it
    yields and [extra_tokens] when it ends. *)
Fixpoint consume (seq_len : Z) (extra_tokens : option (dict (list Z)))
    (slices : list (dict (list Z)))
    : stream (list Z) * option (dict (list Z)) :=
  match slices with
  | [] => (stream_nil, extra_tokens)
  | encoded_slice :: rest =>
      match dict_item encoded_slice "input_ids" with
      | Raise e => (stream_raise e, extra_tokens)
      | Ok ids =>
          if Z.of_nat (List.length ids) <? seq_len then
            match extra_tokens with
            | Some _ => (stream_raise AssertionError, extra_tokens)
            | None => consume seq_len (Some encoded_slice) rest
            end
          else
            let '(s, extra_tokens) := consume seq_len None rest in
            (stream_cons ids s, extra_tokens)
      end
  end.

(** The outer loop over the documents. *)
Fixpoint iter_docs (seq_len : Z) (stride : option Z)
    (extra_tokens : option (dict (list Z)))
    (docs : list (dict (list (list Z)))) : stream (list Z) :=
  match docs with
  | [] => stream_nil
  | doc :: rest =>
      match
        match extra_tokens with
        | Some extra =>
            _stack_batch_encodings (dict_map Flat extra) (dict_map Batched doc)
        | None => Ok doc
        end
      with
      | Raise e => stream_raise e
      | Ok doc =>
          let slices :=
            concatenate_and_group_texts doc seq_len stride false true in
          let '(s, extra_tokens) := consume seq_len None (yielded slices) in
          match raised s, raised slices with
          | Some e, _ | None, Some e =>
              {| yielded := yielded s; raised := Some e |}
          | None, None =>
              let s' := iter_docs seq_len stride extra_tokens rest in
              {| yielded := yielded s ++ yielded s'; raised := raised s' |}
          end
      end
  end.

Definition __iter__ (self : t) : stream (list Z) :=
  iter_docs (seq_len self) (stride self) None (doc_cache self).

End TokenSeqDataset.

(** ** BatchEncodingDataset *)

Module BatchEncodingDataset.

(** The cache is given by the encodings its batches are read as
    ([_batch_encoding_from_record_batch] with [flatten_docs=False]), in
    the order of the iteration: a field holds one sequence per row. *)
Record t : Type := {
  cache : list (dict (list (list Z)));
  return_batches : bool
}.

(** What the iteration yields: whole batches, or one record per row. *)
Inductive item : Type :=
| Batch (encoding : dict (list (list Z)))
| Row (record : dict (list Z)).

(** [{k: v[i] for k, v in encoding.items()}]. *)
Fixpoint record_at (items : dict (list (list Z))) (i : nat)
    : result (dict (list Z)) :=
  match items with
  | [] => Ok []
  | (k, v) :: rest =>
      x <- getitem v i ;;
      r <- record_at rest i ;;
      Ok ((k, x) :: r)
  end.

(** The length of the first value, [0] when there is none. *)
Definition batch_size (encoding : dict (list (list Z))) : nat :=
  match encoding with
  | [] => 0
  | (_, v) :: _ => List.length v
  end.

(** The loop over [range(batch_size)]. *)
Fixpoint records (encoding : dict (list (list Z))) (indices : list nat)
    : stream item :=
  match indices with
  | [] => stream_nil
  | i :: rest =>
      match record_at encoding i with
      | Raise e => stream_raise e
      | Ok r => stream_cons (Row r) (records encoding rest)
      end
  end.

(** The loop over the batches of the cache. *)
Fixpoint iter_batches (return_batches : bool)
    (batches : list (dict (list (list Z)))) : stream item :=
  match batches with
  | [] => stream_nil
  | encoding :: rest =>
      if return_batches then
        stream_cons (Batch encoding) (iter_batches return_batches rest)
      else
        let s := records encoding (seq 0 (batch_size encoding)) in
        match raised s with
        | Some e => s
        | None =>
            let s' := iter_batches return_batches rest in
            {| yielded := yielded s ++ yielded s'; raised := raised s' |}
        end
  end.

Definition __iter__ (self : t) : stream item :=
  iter_batches (return_batches self) (cache self).

End BatchEncodingDataset.

(** ** CausalLmDataset *)

Module CausalLmDataset.
Section CausalLm.

(** The random keys of [jax.random] and the named axes and arrays of
    [haliax] are external; [split] is [jax.random.split] and
    [forgetful_causal_mask] is
    [hax.nn.attention.forgetful_causal_mask], both functions of their
    arguments. [fcm_prob] is the probability, [positive] its test
    [> 0]. [named] is [hax.named], a function of the haliax library: it
    is a parameter, a call that returns the named array made of an
    array and an axis, or raises (when it refuses the array for the
    axis). *)
Variables PRNGKey Axis Prob Mask NamedArray : Type.
Variable split : PRNGKey -> PRNGKey * PRNGKey.
Variable forgetful_causal_mask : Axis -> Prob -> PRNGKey -> Mask.
Variable positive : Prob -> bool.
Variable named : list Z -> Axis -> result NamedArray.

Inductive AttentionMask : Type :=
| Causal
| Explicit (m : Mask)
| And (a b : AttentionMask).

Record LmExample : Type := {
  tokens : NamedArray;
  ignore_id : option Z;
  attn_mask : AttentionMask
}.

(** Modelled from the spec: [LmExample.causal] of [levanter.models.lm_model],
    which is not part of the sources at hand: it wraps the tokens and
    builds a causal (lower-triangular) attention mask. *)
Definition LmExample_causal (tokens : NamedArray) (ignore_id : option Z)
    : LmExample :=
  {| tokens := tokens; ignore_id := ignore_id; attn_mask := Causal |}.

(** [dataclasses.replace(example, attn_mask=m)]. *)
Definition replace_attn_mask (example : LmExample) (m : AttentionMask)
    : LmExample :=
  {| tokens := tokens example;
     ignore_id := ignore_id example;
     attn_mask := m |}.

Record t : Type := {
  dataset : list (list Z);
  QPos : Axis;
  KPos : Axis;
  fcm_prob : Prob;
  key : option PRNGKey;
  ignore_index : option Z
}.

Definition __init__ (dataset : list (list Z)) (QPos KPos : Axis)
    (fcm_prob : Prob) (key : option PRNGKey) (ignore_index : option Z)
    : result t :=
  match positive fcm_prob, key with
  | true, None => Raise ValueError
  | _, _ =>
      Ok {| dataset := dataset; QPos := QPos; KPos := KPos;
            fcm_prob := fcm_prob; key := key;
            ignore_index := ignore_index |}
  end.

(** The inner function. It first names the tokens along [QPos]. Its
    parameter [key] is a name of its own: the second half of the split
    is bound to it and is gone when the function returns. The assertion
    is on [self.key]; splitting [None] is a type error. The function is
    compiled by [eqx.filter_jit], which is taken to return what the
    function returns (and to raise what it raises). *)
Definition _create_lm_example (self : t) (tokens : list Z)
    (key : option PRNGKey) : result LmExample :=
  tokens <- named tokens (QPos self) ;;
  let example := LmExample_causal tokens (ignore_index self) in
  if positive (fcm_prob self) then
    match CausalLm.key self with
    | None => Raise AssertionError
    | Some _ =>
        match key with
        | None => Raise TypeError
        | Some key =>
            let '(this_key, key) := split key in
            let fcm_mask :=
              forgetful_causal_mask (KPos self) (fcm_prob self) this_key in
            let attn_mask := And (attn_mask example) (Explicit fcm_mask) in
            Ok (replace_attn_mask example attn_mask)
        end
    end
  else Ok example.

Fixpoint examples (self : t) (key : option PRNGKey) (windows : list (list Z))
    : stream LmExample :=
  match windows with
  | [] => stream_nil
  | tokens :: rest =>
      match _create_lm_example self tokens key with
      | Raise e => stream_raise e
      | Ok example => stream_cons example (examples self key rest)
      end
  end.

Definition __iter__ (self : t) : stream LmExample :=
  let key := key self in
  examples self key (dataset self).

(** [shard]: the wrapped dataset is sharded ([shard_dataset] stands for
    its [shard] method, external) and the other fields, the key among
    them, are handed to the constructor as they are. *)
Variable shard_dataset : list (list Z) -> Z -> Z -> result (list (list Z)).

Definition shard (self : t) (shard_id num_shards : Z) : result t :=
  sharded <- shard_dataset (dataset self) shard_id num_shards ;;
  __init__ sharded (QPos self) (KPos self) (fcm_prob self) (key self)
    (ignore_index self).

End CausalLm.

Arguments Causal {Mask}.
Arguments Explicit {Mask} m.
Arguments And {Mask} a b.
Arguments Build_LmExample {Mask NamedArray} tokens ignore_id attn_mask.
Arguments tokens {Mask NamedArray} l.
Arguments ignore_id {Mask NamedArray} l.
Arguments attn_mask {Mask NamedArray} l.
Arguments dataset {PRNGKey Axis Prob} t.
Arguments QPos {PRNGKey Axis Prob} t.
Arguments KPos {PRNGKey Axis Prob} t.
Arguments fcm_prob {PRNGKey Axis Prob} t.
Arguments key {PRNGKey Axis Prob} t.
Arguments ignore_index {PRNGKey Axis Prob} t.
Arguments _create_lm_example {PRNGKey Axis Prob Mask NamedArray} split
  forgetful_causal_mask positive named self tokens key.
Arguments examples {PRNGKey Axis Prob Mask NamedArray} split
  forgetful_causal_mask positive named self key windows.
Arguments __iter__ {PRNGKey Axis Prob Mask NamedArray} split
  forgetful_causal_mask positive named self.
Arguments shard {PRNGKey Axis Prob} positive shard_dataset self shard_id
  num_shards.

End CausalLmDataset.

(** ** Notions used to state the properties *)

(** A string without any non-whitespace character (the empty one too). *)
Fixpoint blank (s : string) : bool :=
  match s with
  | EmptyString => true
  | String c r => is_space c && blank r
  end.

(** A result that is a value or an [IndexError]. *)
Definition index_error_only {A : Type} (r : result A) : Prop :=
  match r with
  | Ok _ => True
  | Raise e => e = IndexError
  end.

(** A character-level tokenizer used in the examples: one token per
    character, its code; the end token [<eos>] is token 256. It returns
    list-valued [input_ids] only and appends no end token by itself. *)
Definition char_encode (s : string) : list Z :=
  if String.eqb s "<eos>" then [256]
  else map (fun c => Z.of_nat (nat_of_ascii c)) (list_ascii_of_string s).

Definition char_tokenizer : PreTrainedTokenizer :=
  {| tokenize := fun batch => [("input_ids", ListSeqs (map char_encode batch))];
     encode := char_encode;
     eos_token := "<eos>";
     eos_token_id := 256;
     vocab_size := 257 |}.

(** [BatchTokenizer(char_tokenizer, enforce_eos=True)] with the defaults,
    as [__init__] builds it. *)
Definition char_batch_tokenizer : BatchTokenizer.t :=
  {| BatchTokenizer.tokenizer := char_tokenizer;
     BatchTokenizer._batch_size := 128;
     BatchTokenizer._need_to_add_eos := true;
     BatchTokenizer._workaround_len := LONG_STRING_WORKAROUND;
     BatchTokenizer._vocab_size := 257;
     BatchTokenizer._eos_token_id := 256;
     BatchTokenizer._max_sentence_len := MAX_SENTENCE_LEN |}.

(** The same tokenizer called with [return_tensors="np"]: its field
    holds numpy arrays. *)
Definition char_array_tokenizer : PreTrainedTokenizer :=
  {| tokenize := fun batch => [("input_ids", ArraySeqs (map char_encode batch))];
     encode := char_encode;
     eos_token := "<eos>";
     eos_token_id := 256;
     vocab_size := 257 |}.

Definition char_array_batch_tokenizer : BatchTokenizer.t :=
  {| BatchTokenizer.tokenizer := char_array_tokenizer;
     BatchTokenizer._batch_size := 128;
     BatchTokenizer._need_to_add_eos := true;
     BatchTokenizer._workaround_len := LONG_STRING_WORKAROUND;
     BatchTokenizer._vocab_size := 257;
     BatchTokenizer._eos_token_id := 256;
     BatchTokenizer._max_sentence_len := MAX_SENTENCE_LEN |}.

(** *** The merge, record by record *)

(** The flags of a record of [k] fragments. *)
Definition record_flags (k : nat) : list bool :=
  false :: repeat true (k - 1).

(** A list cut into consecutive pieces of the given sizes. *)
Fixpoint chunks {A : Type} (ks : list nat) (l : list A) : list (list A) :=
  match ks with
  | [] => []
  | k :: rest => firstn k l :: chunks rest (skipn k l)
  end.

(** A fragment is a word count and a token sequence. It is eligible for a
    boundary token when its word count is below the maximum and its first
    token is not the end token. *)
Definition eligible_fragment (eos_token_id max_sentence_len : Z)
    (f : Z * list Z) : bool :=
  (fst f <? max_sentence_len)
  && match snd f with
     | x :: _ => negb (x =? eos_token_id)
     | [] => false
     end.

Definition annotate (eos_token_id max_sentence_len : Z) (f : Z * list Z)
    : list Z :=
  if eligible_fragment eos_token_id max_sentence_len f
  then (fst f + eos_token_id + 1) :: snd f
  else snd f.

Definition merge_group (eos_token_id max_sentence_len : Z)
    (g : list (Z * list Z)) : list Z :=
  List.concat (map (annotate eos_token_id max_sentence_len) g).

(** [v_out] once the pending fragments are appended to it. *)
Definition flushed (st : BatchTokenizer.merge_state) : list (list Z) :=
  if (0 <? List.length (snd st))%nat
  then fst st ++ [List.concat (snd st)]
  else fst st.

(** The token count the merge of a record is expected to have. *)
Definition merged_count (eos_token_id max_sentence_len : Z)
    (g : list (Z * list Z)) : nat :=
  list_sum (map (fun f => List.length (snd f)) g)
  + List.length (filter (eligible_fragment eos_token_id max_sentence_len) g).

(** Eligibility in the words of the specification, to be compared with
    [eligible_fragment]: a fragment gets a boundary token unless its
    word count exceeds the maximum or the fragment is itself the end
    token. *)
Definition spec_eligible_fragment (eos_token_id max_sentence_len : Z)
    (f : Z * list Z) : bool :=
  negb (max_sentence_len <? fst f)
  && negb match snd f with
          | [x] => x =? eos_token_id
          | _ => false
          end.

(** The token count the specification gives the merge of a record. *)
Definition spec_merged_count (eos_token_id max_sentence_len : Z)
    (g : list (Z * list Z)) : nat :=
  list_sum (map (fun f => List.length (snd f)) g)
  + List.length (filter (spec_eligible_fragment eos_token_id max_sentence_len) g).

(** The sentences and word counts one record adds to the batch. *)
Definition record_sentences (self : BatchTokenizer.t) (d : string)
    : list string :=
  BatchTokenizer.sentences_of (BatchTokenizer.normalize_quotes d)
  ++ (if BatchTokenizer._need_to_add_eos self
      then [eos_token (BatchTokenizer.tokenizer self)] else []).

Definition record_word_counts (self : BatchTokenizer.t) (d : string)
    : list Z :=
  BatchTokenizer.word_counts_of
    (BatchTokenizer.sentences_of (BatchTokenizer.normalize_quotes d))
  ++ (if BatchTokenizer._need_to_add_eos self then [1] else []).

(** The contract of a tokenizer called without [return_tensors]: its end
    token is a non-empty string, and on non-empty strings it returns a
    dict (distinct keys) of list-valued fields, one non-empty token list
    per input string. *)
Definition list_tokenizer (tk : PreTrainedTokenizer) : Prop :=
  eos_token tk <> ""
  /\ forall batch : list string,
       Forall (fun s => s <> "") batch ->
       NoDup (map fst (tokenize tk batch)) /\
       Forall (fun kv => exists v, snd kv = ListSeqs v
                         /\ List.length v = List.length batch
                         /\ Forall (fun toks => toks <> []) v)
              (tokenize tk batch).

(** What the merge makes of a list-valued field, the records having
    [ks] fragments each. *)
Definition merged_value (ks : list nat) (wc : list Z)
    (eos_token_id max_sentence_len : Z) (fv : field_value) : field_value :=
  match fv with
  | ListSeqs v =>
      ListSeqs (map (merge_group eos_token_id max_sentence_len)
                  (chunks ks (combine wc v)))
  | other => other
  end.

(** A record that passes the terminator filter. *)
Definition kept (d : string) : Prop :=
  BatchTokenizer.lacks_terminator (BatchTokenizer.normalize_quotes d) = Ok false.

(** The three lists of the loop, each extended at its end. *)
Definition units_app (u : BatchTokenizer.units) (ss : list string)
    (fl : list bool) (ws : list Z) : BatchTokenizer.units :=
  {| BatchTokenizer.batch := BatchTokenizer.batch u ++ ss;
     BatchTokenizer.needs_merge := BatchTokenizer.needs_merge u ++ fl;
     BatchTokenizer.wc := BatchTokenizer.wc u ++ ws |}.

(** A sentence of [n + 1] one-letter words. *)
Fixpoint words (n : nat) : string :=
  match n with
  | O => "a."
  | S n => ("a " ++ words n)%string
  end.

(** *** Documents *)

(** The tokens of a document: its [input_ids] sequences, end to end. *)
Definition doc_tokens (doc : dict (list (list Z))) : list Z :=
  match dict_get doc "input_ids" with
  | Some rows => List.concat rows
  | None => []
  end.

(** A document with the single field [input_ids] and a single sequence. *)
Definition document (tokens : list Z) : dict (list (list Z)) :=
  [("input_ids", [tokens])].

(** *** The token arrays, named *)

(** The loop of [CausalLmDataset.__iter__] as far as [hax.named] is
    concerned: the named arrays it obtains, window after window, and the
    exception of the first window that [hax.named] refuses. *)
Fixpoint named_windows {Axis NamedArray : Type}
    (named : list Z -> Axis -> result NamedArray) (axis : Axis)
    (windows : list (list Z)) : stream NamedArray :=
  match windows with
  | [] => stream_nil
  | tokens :: rest =>
      match named tokens axis with
      | Raise e => stream_raise e
      | Ok a => stream_cons a (named_windows named axis rest)
      end
  end.

(** *** A toy random generator and toy axes *)

(** Keys are integers, a key [k] splits into [2k] and [2k + 1], and the
    forgetful mask drawn from a key is that key: two masks are equal only
    if they are drawn from the same key. An axis is a name and a size, a
    named array is an axis and the entries, and naming an array along an
    axis of another size raises [ValueError]. *)
Definition toy_split (k : Z) : Z * Z := (2 * k, 2 * k + 1).

Definition toy_forgetful_causal_mask (axis : string * nat) (prob : Z) (k : Z)
    : Z := k.

Definition toy_named (tokens : list Z) (axis : string * nat)
    : result (string * nat * list Z) :=
  if (List.length tokens =? snd axis)%nat then Ok (axis, tokens)
  else Raise ValueError.

Definition toy_dataset : CausalLmDataset.t Z (string * nat) Z :=
  {| CausalLmDataset.dataset := [[1; 2; 3; 4]; [5; 6; 7; 8]];
     CausalLmDataset.QPos := ("position", 4%nat);
     CausalLmDataset.KPos := ("key_position", 4%nat);
     CausalLmDataset.fcm_prob := 1;
     CausalLmDataset.key := Some 7;
     CausalLmDataset.ignore_index := None |}.

(** *** The last significant character *)

(** The last non-whitespace character of a string, if it has one. *)
Fixpoint last_nonspace (s : string) : option ascii :=
  match s with
  | EmptyString => None
  | String c r =>
      match last_nonspace r with
      | Some x => Some x
      | None => if is_space c then None else Some c
      end
  end.

(** A record that the filter keeps: its last non-whitespace character,
    after the quote normalisation, is a terminator. *)
Definition terminated (d : string) : bool :=
  match last_nonspace (BatchTokenizer.normalize_quotes d) with
  | Some c => is_terminator c
  | None => false
  end.

(** The units the loop of [__call__] builds from the records it keeps. *)
Definition kept_units (self : BatchTokenizer.t) (u : BatchTokenizer.units)
    (records : list string) : BatchTokenizer.units :=
  units_app u
    (List.concat (map (record_sentences self) records))
    (List.concat
       (map (fun d => record_flags (List.length (record_sentences self d)))
          records))
    (List.concat (map (record_word_counts self) records)).

(** A string whose last character is a sentence terminator. *)
Definition ends_with_terminator (s : string) : bool :=
  match str_last s with
  | Ok c => is_terminator c
  | Raise _ => false
  end.

(** *** Windows that are not short *)

(** A slice that [TokenSeqDataset.__iter__] yields instead of carrying
    over: its [input_ids] has no fewer than [seq_len] entries. *)
Definition long (seq_len : Z) (data : dict (list Z)) : Prop :=
  exists ids,
    dict_get data "input_ids" = Some ids
    /\ seq_len <= Z.of_nat (List.length ids).

(** *** Batches of rows *)

(** Row [i] of an encoding, and its rows in order. *)
Definition row_of (encoding : dict (list (list Z))) (i : nat) : dict (list Z) :=
  dict_map (fun v => nth i v []) encoding.

Definition rows_of (encoding : dict (list (list Z))) : list (dict (list Z)) :=
  map (row_of encoding) (seq 0 (BatchEncodingDataset.batch_size encoding)).

(** An encoding whose fields all have as many sequences as the first. *)
Definition rectangular (encoding : dict (list (list Z))) : Prop :=
  Forall (fun kv => List.length (snd kv)
                    = BatchEncodingDataset.batch_size encoding) encoding.

(** The number of sequences of the shortest field, the first field's at
    most. *)
Definition shortest (encoding : dict (list (list Z))) : nat :=
  fold_right (fun kv m => Nat.min (List.length (snd kv)) m)
    (BatchEncodingDataset.batch_size encoding) encoding.

(** * Properties *)

(** ** The result monad and lists *)

Lemma bind_Ok {A B : Type} (c : result A) (k : A -> result B) (b : B) :
  Py.bind c k = Ok b -> exists a, c = Ok a /\ k a = Ok b.
Proof.
  destruct c as [a|e]; simpl; intros H; [exists a; auto | discriminate].
Qed.

Lemma last_item_snoc {A : Type} (l : list A) (x : A) :
  last_item (l ++ [x]) = Ok x.
Proof.
  induction l as [|y l IH]; simpl; [reflexivity|].
  destruct (l ++ [x]) eqn:E; [destruct l; discriminate | exact IH].
Qed.

Lemma char_batch_tokenizer_init :
  BatchTokenizer.__init__ char_tokenizer true 128 LONG_STRING_WORKAROUND
    MAX_SENTENCE_LEN = Ok char_batch_tokenizer.
Proof. reflexivity. Qed.

(** ** Strings *)

Lemma str_last_snoc (w : string) (c : ascii) : str_last (snoc w c) = Ok c.
Proof.
  induction w as [|a w IH]; simpl; [reflexivity|].
  unfold snoc in IH. destruct (w ++ String c "")%string eqn:E.
  - destruct w; discriminate.
  - exact IH.
Qed.

Lemma snoc_not_empty (w : string) (c : ascii) : str_empty (snoc w c) = false.
Proof. destruct w; reflexivity. Qed.

Lemma split_from_blank (s : string) :
  blank s = true -> split_from "" s = [].
Proof.
  induction s as [|c s IH]; simpl; [reflexivity|].
  intros H. apply andb_true_iff in H as [Hc Hs]. rewrite Hc. auto.
Qed.

Lemma split_from_blank_cur (cur s : string) :
  blank s = true -> str_empty cur = false -> split_from cur s = [cur].
Proof.
  destruct s as [|c s]; simpl; intros H Hcur; rewrite Hcur; [reflexivity|].
  apply andb_true_iff in H as [Hc Hs]. rewrite Hc.
  now rewrite split_from_blank.
Qed.

Lemma blank_str_init (s : string) : blank s = true -> blank (str_init s) = true.
Proof.
  induction s as [|c s IH]; simpl; [reflexivity|].
  intros H. apply andb_true_iff in H as [Hc Hs].
  destruct s; [reflexivity|]. simpl in *. rewrite Hc. simpl. auto.
Qed.

(** The last word of a string that ends, up to whitespace, in [c]. *)
Lemma split_from_last_word (body trail : string) (c : ascii) :
  blank trail = true -> is_space c = false ->
  forall cur, exists ws w,
    split_from cur (body ++ String c trail)%string = ws ++ [snoc w c].
Proof.
  intros Ht Hc. induction body as [|a body IH]; intros cur; simpl.
  - rewrite Hc. exists [], cur.
    now rewrite split_from_blank_cur by (auto using snoc_not_empty).
  - destruct (is_space a).
    + destruct (IH ""%string) as (ws & w & E). rewrite E.
      destruct (str_empty cur); [exists ws, w | exists (cur :: ws), w]; reflexivity.
    + apply IH.
Qed.

Lemma replace_from_blank (old new s : string) (a : ascii) (old' : string) :
  old = String a old' -> is_space a = false -> blank s = true ->
  replace_from old new 0 s = s.
Proof.
  intros -> Ha. induction s as [|c s IH]; simpl; [reflexivity|].
  intros H. apply andb_true_iff in H as [Hc Hs].
  destruct (ascii_dec a c) as [->|_]; [congruence|].
  now rewrite IH.
Qed.

Lemma normalize_quotes_blank (d : string) :
  blank d = true -> BatchTokenizer.normalize_quotes d = d.
Proof.
  intros H. unfold BatchTokenizer.normalize_quotes, replace.
  repeat (erewrite replace_from_blank; [ | reflexivity | reflexivity | ]); auto.
Qed.

Lemma str_last_append (body trail : string) (c : ascii) :
  str_last (body ++ String c trail)%string = str_last (String c trail).
Proof.
  induction body as [|a body IH]; [reflexivity|].
  change (String a body ++ String c trail)%string
    with (String a (body ++ String c trail)%string).
  cbn [str_last]. destruct (body ++ String c trail)%string eqn:E; [|exact IH].
  destruct body; discriminate.
Qed.

Lemma str_init_append (body trail : string) (c t : ascii) :
  str_init (body ++ String c (String t trail))%string
  = (body ++ String c (str_init (String t trail)))%string.
Proof.
  induction body as [|a body IH]; [reflexivity|].
  change (String a body ++ ?x)%string with (String a (body ++ x)%string).
  cbn [str_init]. rewrite IH.
  destruct (body ++ String c (String t trail))%string eqn:E; [|reflexivity].
  destruct body; discriminate.
Qed.

(** ** The terminator filter *)

Section TerminatorFilter.

Import BatchTokenizer.

(** The check on the last word, on a string that ends in [c] up to
    whitespace. *)
Lemma last_word_check (body trail : string) (c : ascii) :
  blank trail = true -> is_space c = false ->
  (w <- last_item (split (body ++ String c trail)) ;;
   x <- str_last w ;;
   Ok (negb (is_terminator x))) = Ok (negb (is_terminator c)).
Proof.
  intros Ht Hc. unfold split.
  destruct (split_from_last_word body trail c Ht Hc ""%string) as (ws & w & ->).
  rewrite last_item_snoc. simpl. now rewrite str_last_snoc.
Qed.

Lemma lacks_terminator_last_char (body trail : string) (c : ascii) :
  blank trail = true -> is_space c = false ->
  lacks_terminator (body ++ String c trail) = Ok (negb (is_terminator c)).
Proof.
  intros Ht Hc. unfold lacks_terminator.
  rewrite str_last_append.
  destruct trail as [|t trail].
  - cbn [str_last Py.bind].
    replace (c =? newline)%char with false.
    + cbn [Py.bind]. now apply last_word_check.
    + symmetry. apply Ascii.eqb_neq. intros ->. discriminate.
  - destruct (str_last (String c (String t trail))) as [x|e] eqn:Ex.
    2:{ exfalso. clear -Ex. revert c t Ex.
        induction trail as [|a trail IH]; intros c t Ex; [discriminate|].
        exact (IH t a Ex). }
    cbn [Py.bind]. destruct (x =? newline)%char.
    + rewrite str_init_append.
      rewrite last_word_check; auto using blank_str_init.
      cbn [Py.bind]. destruct (negb (is_terminator c)) eqn:E; [reflexivity|].
      rewrite last_word_check by auto. now rewrite E.
    + cbn [Py.bind]. now apply last_word_check.
Qed.

Lemma lacks_terminator_blank (d : string) :
  blank d = true -> lacks_terminator d = Raise IndexError.
Proof.
  intros H. unfold lacks_terminator.
  destruct (str_last d) as [x|e] eqn:Ex.
  2:{ destruct d as [|a d]; [simpl in *; congruence|].
      exfalso. clear -Ex. revert a Ex.
      induction d as [|b d IH]; intros a Ex; [discriminate|].
      exact (IH b Ex). }
  cbn [Py.bind]. unfold split.
  destruct (x =? newline)%char.
  - now rewrite split_from_blank by (now apply blank_str_init).
  - cbn [Py.bind]. now rewrite split_from_blank.
Qed.

Lemma index_error_only_bind {A B : Type} (c : result A) (k : A -> result B) :
  index_error_only c -> (forall a, index_error_only (k a)) ->
  index_error_only (Py.bind c k).
Proof. destruct c; simpl; auto. Qed.

Lemma str_last_index_error (s : string) : index_error_only (str_last s).
Proof.
  induction s as [|a s IH]; simpl; [reflexivity|]. destruct s; simpl; auto.
Qed.

Lemma last_item_index_error {A : Type} (l : list A) :
  index_error_only (last_item l).
Proof.
  induction l as [|a l IH]; simpl; [reflexivity|]. destruct l; simpl; auto.
Qed.

Lemma lacks_terminator_index_error (d : string) :
  index_error_only (lacks_terminator d).
Proof.
  unfold lacks_terminator.
  apply index_error_only_bind; [apply str_last_index_error|]. intros c.
  apply index_error_only_bind.
  - destruct (c =? newline)%char; [|exact I].
    apply index_error_only_bind; [apply last_item_index_error|]. intros w.
    apply index_error_only_bind; [apply str_last_index_error|]. intros x.
    exact I.
  - intros [|]; [exact I|].
    apply index_error_only_bind; [apply last_item_index_error|]. intros w.
    apply index_error_only_bind; [apply str_last_index_error|]. intros x.
    exact I.
Qed.

Lemma split_record_index_error (self : t) (u : units) (d : string) :
  index_error_only (split_record self u d).
Proof.
  unfold split_record.
  apply index_error_only_bind; [apply lacks_terminator_index_error|].
  intros [|]; [exact I|].
  destruct (sentences_of _); [exact I|].
  destruct (_need_to_add_eos self); exact I.
Qed.

Lemma split_records_app (self : t) (u : units) (l1 l2 : list string) :
  split_records self u (l1 ++ l2)
  = (u' <- split_records self u l1 ;; split_records self u' l2).
Proof.
  revert u. induction l1 as [|d l1 IH]; intros u; simpl; [reflexivity|].
  destruct (split_record self u d); simpl; auto.
Qed.

Lemma split_records_index_error (self : t) (u : units) (l : list string) :
  index_error_only (split_records self u l).
Proof.
  revert u. induction l as [|d l IH]; intros u; simpl; [exact I|].
  apply index_error_only_bind; auto using split_record_index_error.
Qed.

Lemma split_record_blank (self : t) (u : units) (d : string) :
  blank d = true -> split_record self u d = Raise IndexError.
Proof.
  intros H. unfold split_record.
  now rewrite normalize_quotes_blank, lacks_terminator_blank.
Qed.

Lemma split_record_skipped (self : t) (u : units) (d : string) :
  lacks_terminator (normalize_quotes d) = Ok true ->
  split_record self u d = Ok u.
Proof. intros H. unfold split_record. now rewrite H. Qed.

End TerminatorFilter.

(** C10: [BatchTokenizer.__call__] raises [IndexError] as soon as one
    record of the batch is empty or made of whitespace only, wherever it
    stands in the batch: such a record is not skipped. *)
Theorem call_blank_record_raises (self : BatchTokenizer.t)
    (pre post : list string) (d : string) :
  blank d = true ->
  BatchTokenizer.__call__ self (pre ++ d :: post) = Raise IndexError.
Proof.
  intros H. unfold BatchTokenizer.__call__.
  rewrite split_records_app.
  pose proof (split_records_index_error self BatchTokenizer.no_units pre) as E.
  destruct (BatchTokenizer.split_records self BatchTokenizer.no_units pre)
    as [u|e]; simpl in *.
  - now rewrite split_record_blank.
  - now subst e.
Qed.

Lemma call_blank_record_raises_witness :
  blank "  " = true /\
  BatchTokenizer.__call__ char_batch_tokenizer (["Hi."] ++ "  " :: ["Yes!"])
  = Raise IndexError.
Proof.
  split; [reflexivity|].
  apply (call_blank_record_raises char_batch_tokenizer ["Hi."] ["Yes!"] "  ").
  reflexivity.
Defined.

(** C7, as stated, fails: the empty record is not skipped but raises, and
    a record whose terminator is followed by two spaces is kept. *)
Lemma call_drop_counterexample :
  BatchTokenizer.__call__ char_batch_tokenizer [""] = Raise IndexError /\
  BatchTokenizer.__call__ char_batch_tokenizer ["Hi.  "]
  = Ok [("input_ids", ListSeqs [[258; 32; 72; 105; 46; 256]])].
Proof. split; reflexivity. Qed.

(** C7, amended: a record with a non-whitespace character whose last
    non-whitespace character, after the quote normalisation, is none of
    [.], [!], [?] is skipped without error and leaves no trace in the
    output; whitespace after that character, of any kind and length, is
    ignored. *)
Theorem call_drops_unterminated_record (self : BatchTokenizer.t)
    (pre post : list string) (d body trail : string) (c : ascii) :
  BatchTokenizer.normalize_quotes d = (body ++ String c trail)%string ->
  blank trail = true ->
  is_space c = false ->
  is_terminator c = false ->
  (forall u, BatchTokenizer.split_record self u d = Ok u) /\
  BatchTokenizer.__call__ self (pre ++ d :: post)
  = BatchTokenizer.__call__ self (pre ++ post).
Proof.
  intros Hd Ht Hc Hterm.
  assert (Hskip : forall u, BatchTokenizer.split_record self u d = Ok u).
  { intros u. apply split_record_skipped.
    rewrite Hd, lacks_terminator_last_char by assumption.
    now rewrite Hterm. }
  split; [exact Hskip|].
  unfold BatchTokenizer.__call__. rewrite !split_records_app.
  destruct (BatchTokenizer.split_records self BatchTokenizer.no_units pre)
    as [u|e]; simpl; [|reflexivity].
  now rewrite Hskip.
Qed.

Lemma call_drops_unterminated_record_witness :
  BatchTokenizer.normalize_quotes "no full stop  "
  = ("no full sto" ++ String "p" "  ")%string /\
  blank "  " = true /\
  is_space "p" = false /\
  is_terminator "p" = false /\
  (forall u,
     BatchTokenizer.split_record char_batch_tokenizer u "no full stop  " = Ok u) /\
  BatchTokenizer.__call__ char_batch_tokenizer
    (["Hi."] ++ "no full stop  " :: ["Yes!"])
  = BatchTokenizer.__call__ char_batch_tokenizer (["Hi."] ++ ["Yes!"]).
Proof.
  repeat (split; [reflexivity|]).
  apply (call_drops_unterminated_record char_batch_tokenizer ["Hi."] ["Yes!"]
           "no full stop  " "no full sto" "  " "p");
    reflexivity.
Defined.

(** ** The merge of the fragments *)

Section Merge.

Import BatchTokenizer.

(** The flags the loop of [__call__] builds begin with [False]. *)
Lemma split_record_first_flag (self : t) (u u' : units) (d : string) :
  hd false (needs_merge u) = false ->
  split_record self u d = Ok u' ->
  hd false (needs_merge u') = false.
Proof.
  intros Hu. unfold split_record.
  destruct (lacks_terminator _) as [[|]|e]; simpl; try congruence.
  destruct (sentences_of _) as [|s l]; [congruence|].
  destruct (_need_to_add_eos self); intros [= <-]; simpl;
    destruct (needs_merge u); simpl in *; auto.
Qed.

Lemma split_records_first_flag (self : t) (orig_batch : list string) :
  forall u u',
    hd false (needs_merge u) = false ->
    split_records self u orig_batch = Ok u' ->
    hd false (needs_merge u') = false.
Proof.
  induction orig_batch as [|d rest IH]; intros u u' Hu; simpl.
  - now intros [= <-].
  - intros H. apply bind_Ok in H as (u1 & H1 & H2).
    eauto using split_record_first_flag.
Qed.

(** The flags and the sentences of the loop go by pairs. *)
Lemma split_record_lengths (self : t) (u u' : units) (d : string) :
  List.length (batch u) = List.length (needs_merge u) ->
  split_record self u d = Ok u' ->
  List.length (batch u') = List.length (needs_merge u').
Proof.
  intros Hu. unfold split_record.
  destruct (lacks_terminator _) as [[|]|e]; simpl; try congruence.
  destruct (sentences_of _) as [|s l]; [congruence|].
  destruct (_need_to_add_eos self); intros [= <-]; cbn [batch needs_merge];
    rewrite !length_app, ?repeat_length; simpl; rewrite ?repeat_length; lia.
Qed.

Lemma split_records_lengths (self : t) (orig_batch : list string) :
  forall u u',
    List.length (batch u) = List.length (needs_merge u) ->
    split_records self u orig_batch = Ok u' ->
    List.length (batch u') = List.length (needs_merge u').
Proof.
  induction orig_batch as [|d rest IH]; intros u u' Hu; simpl.
  - now intros [= <-].
  - intros H. apply bind_Ok in H as (u1 & H1 & H2).
    eauto using split_record_lengths.
Qed.

(** The array branch at its first record boundary. *)
Lemma merge_array_field_raises (batch : list string)
    (k : string) (a : list Z) (v : list (list Z)) (rest : BatchEncoding)
    (flags : list bool) (wc : list Z) (eos_token_id max_sentence_len : Z) :
  batch <> [] ->
  _merge_split_encodings batch ((k, ArraySeqs (a :: v)) :: rest)
    (false :: flags) wc eos_token_id max_sentence_len
  = Raise (if (List.length (a :: v) =? List.length batch)%nat
           then ValueError else AssertionError).
Proof.
  intros Hb. unfold _merge_split_encodings. cbn [merge_fields merge_field].
  destruct (List.length (a :: v) =? List.length batch)%nat; [|reflexivity].
  destruct batch as [|d batch]; [congruence|]. reflexivity.
Qed.

(** So does the whole call, as soon as one record passes the filter and
    the tokenizer answers with arrays. *)
Lemma call_arrays_raise (self : t) (orig_batch : list string) (u : units)
    (k : string) (a : list Z) (v : list (list Z)) (rest : BatchEncoding) :
  split_records self no_units orig_batch = Ok u ->
  needs_merge u <> [] ->
  tokenize (tokenizer self) (batch u) = (k, ArraySeqs (a :: v)) :: rest ->
  __call__ self orig_batch
  = Raise (if (List.length (a :: v) =? List.length (batch u))%nat
           then ValueError else AssertionError).
Proof.
  intros Hu Hne Htok. unfold __call__. rewrite Hu. cbn [Py.bind].
  pose proof (split_records_first_flag self orig_batch no_units u eq_refl Hu)
    as Hflag.
  pose proof (split_records_lengths self orig_batch no_units u eq_refl Hu)
    as Hlen.
  destruct (needs_merge u) as [|flag flags] eqn:Enm; [congruence|].
  simpl in Hflag. subst flag. rewrite Htok.
  apply merge_array_field_raises.
  intros Hb. rewrite Hb in Hlen. discriminate.
Qed.

(** C9: on a non-empty batch, a field whose sequences are numpy arrays
    makes [_merge_split_encodings] raise when the first merge flag is
    [False] (as it is for every flag list [__call__] builds): the array
    branch concatenates an empty list at the first record boundary, or
    fails its length assertion before that. *)
Theorem merge_split_encodings_arrays_raise (batch : list string)
    (k : string) (a : list Z) (v : list (list Z)) (rest : BatchEncoding)
    (flags : list bool) (wc : list Z) (eos_token_id max_sentence_len : Z) :
  batch <> [] ->
  _merge_split_encodings batch ((k, ArraySeqs (a :: v)) :: rest)
    (false :: flags) wc eos_token_id max_sentence_len
  = Raise (if (List.length (a :: v) =? List.length batch)%nat
           then ValueError else AssertionError).
Proof.
  intros Hb. unfold _merge_split_encodings. cbn [merge_fields merge_field].
  destruct (List.length (a :: v) =? List.length batch)%nat; [|reflexivity].
  destruct batch as [|d batch]; [congruence|].
  cbn [List.length seq for_each array_step getitem nth_error Py.bind negb
         np_concatenate].
  reflexivity.
Qed.

End Merge.

Lemma merge_split_encodings_arrays_raise_witness :
  ["Hi."] <> [] /\
  BatchTokenizer._merge_split_encodings ["Hi."]
    [("input_ids", ArraySeqs [[72; 105; 46]])] [false] [1] 256 1024
  = Raise ValueError.
Proof.
  split; [discriminate|].
  apply (merge_split_encodings_arrays_raise ["Hi."] "input_ids"
           [72; 105; 46] [] [] [] [1] 256 1024).
  discriminate.
Defined.

(** ** The merge of list-valued fields *)

Lemma skipn_cons_nth_error {A : Type} (l : list A) (j : nat) (x : A) (r : list A) :
  skipn j l = x :: r -> nth_error l j = Some x /\ skipn (S j) l = r.
Proof.
  revert l. induction j as [|j IH]; intros [|y l]; simpl; try discriminate.
  - intros [= -> ->]. auto.
  - intros H. destruct (IH l H) as [H1 H2]. auto.
Qed.

Lemma nth_error_combine_Some {A B : Type} (l : list A) (l' : list B)
    (j : nat) (a : A) (b : B) :
  nth_error (combine l l') j = Some (a, b) ->
  nth_error l j = Some a /\ nth_error l' j = Some b.
Proof.
  revert l l'. induction j as [|j IH]; intros [|x l] [|y l']; simpl;
    try discriminate.
  - intros [= -> ->]. auto.
  - apply IH.
Qed.

Lemma skipn_app_exact {A : Type} (l a b : list A) (j : nat) :
  skipn j l = a ++ b -> skipn (j + List.length a) l = b.
Proof.
  intros H. rewrite Nat.add_comm, <- skipn_skipn, H.
  rewrite skipn_app, skipn_all, Nat.sub_diag. reflexivity.
Qed.

Section MergeLists.

Import BatchTokenizer.

Variables (nm : list bool) (wc : list Z) (v : list (list Z)).
Variables (eos max : Z).

Let step := list_step nm wc v eos max.

Lemma list_step_fragment (v_out vs : list (list Z)) (j : nat) (flag : bool)
    (w : Z) (toks : list Z) :
  nth_error nm j = Some flag ->
  nth_error (combine wc v) j = Some (w, toks) ->
  toks <> [] ->
  step (v_out, vs) j
  = Ok (if flag then (v_out, vs ++ [annotate eos max (w, toks)])
        else (flushed (v_out, vs), [annotate eos max (w, toks)])).
Proof.
  intros Hf Hc Ht. apply nth_error_combine_Some in Hc as [Hw Hv].
  unfold step, list_step, getitem. rewrite Hf. cbn [Py.bind].
  destruct toks as [|x toks]; [congruence|].
  destruct flag; cbn [negb]; rewrite Hw; cbn [Py.bind]; rewrite Hv;
    cbn [Py.bind]; unfold eligible, annotate, eligible_fragment, flushed;
    cbn [fst snd getitem nth_error];
    destruct (w <? max); cbn [Py.bind andb]; try reflexivity;
    destruct (negb (x =? eos)); reflexivity.
Qed.

Lemma for_each_app (st : merge_state) (l1 l2 : list nat) :
  for_each step st (l1 ++ l2)
  = (st' <- for_each step st l1 ;; for_each step st' l2).
Proof.
  revert st. induction l1 as [|i l1 IH]; intros st; simpl; [reflexivity|].
  destruct (step st i); simpl; auto.
Qed.

(** The fragments of a record after its first one. *)
Lemma for_each_continued (m : nat) :
  forall (j : nat) (v_out vs : list (list Z)) (fs : list (Z * list Z))
         (rest_nm : list bool) (rest_f : list (Z * list Z)),
    skipn j nm = repeat true m ++ rest_nm ->
    skipn j (combine wc v) = fs ++ rest_f ->
    List.length fs = m ->
    Forall (fun f => snd f <> []) fs ->
    for_each step (v_out, vs) (seq j m)
    = Ok (v_out, vs ++ map (annotate eos max) fs).
Proof.
  induction m as [|m IH]; intros j v_out vs fs rest_nm rest_f Hnm Hf Hl Hne.
  - destruct fs; [|discriminate]. simpl. now rewrite app_nil_r.
  - destruct fs as [|[w toks] fs]; [discriminate|].
    simpl in Hnm, Hf. injection Hl as Hl. inversion Hne as [|? ? Ht Hne']; subst.
    apply skipn_cons_nth_error in Hnm as [Hn1 Hn2].
    apply skipn_cons_nth_error in Hf as [Hf1 Hf2].
    cbn [seq for_each].
    erewrite list_step_fragment by eassumption. cbn [Py.bind].
    erewrite IH by eauto.
    now rewrite <- app_assoc.
Qed.

(** One record: its first fragment flushes what is pending. *)
Lemma for_each_record (k : nat) :
  forall (j : nat) (v_out vs : list (list Z)) (fs : list (Z * list Z))
         (rest_nm : list bool) (rest_f : list (Z * list Z)),
    (1 <= k)%nat ->
    skipn j nm = record_flags k ++ rest_nm ->
    skipn j (combine wc v) = fs ++ rest_f ->
    List.length fs = k ->
    Forall (fun f => snd f <> []) fs ->
    for_each step (v_out, vs) (seq j k)
    = Ok (flushed (v_out, vs), map (annotate eos max) fs).
Proof.
  intros j v_out vs fs rest_nm rest_f Hk Hnm Hf Hl Hne.
  destruct k as [|k]; [lia|].
  destruct fs as [|[w toks] fs]; [discriminate|].
  unfold record_flags in Hnm. simpl in Hnm, Hf. rewrite Nat.sub_0_r in Hnm.
  injection Hl as Hl. inversion Hne as [|? ? Ht Hne']; subst.
  apply skipn_cons_nth_error in Hnm as [Hn1 Hn2].
  apply skipn_cons_nth_error in Hf as [Hf1 Hf2].
  cbn [seq for_each].
  erewrite list_step_fragment by eassumption. cbn [Py.bind].
  erewrite for_each_continued by eauto.
  reflexivity.
Qed.

(** All the records from position [j] on. *)
Lemma for_each_records (ks : list nat) :
  forall (j : nat) (st : merge_state) (fs : list (Z * list Z)),
    Forall (fun k => 1 <= k)%nat ks ->
    skipn j nm = List.concat (map record_flags ks) ->
    skipn j (combine wc v) = fs ->
    List.length fs = list_sum ks ->
    Forall (fun f => snd f <> []) fs ->
    exists st',
      for_each step st (seq j (list_sum ks)) = Ok st' /\
      flushed st' = flushed st ++ map (merge_group eos max) (chunks ks fs).
Proof.
  induction ks as [|k ks IH]; intros j st fs Hks Hnm Hf Hl Hne.
  - exists st. simpl. now rewrite app_nil_r.
  - inversion Hks as [|? ? Hk Hks']; subst.
    change (list_sum (k :: ks)) with (k + list_sum ks)%nat in *.
    rewrite seq_app, for_each_app.
    destruct st as [v_out vs].
    cbn [map List.concat] in Hnm.
    assert (Hsplit : skipn j (combine wc v) = firstn k (skipn j (combine wc v))
                                          ++ skipn k (skipn j (combine wc v)))
      by now rewrite firstn_skipn.
    assert (Hlen : List.length (firstn k (skipn j (combine wc v))) = k).
    { rewrite length_firstn. lia. }
    pose proof Hne as Hne0.
    rewrite <- (firstn_skipn k (skipn j (combine wc v))) in Hne0.
    apply Forall_app in Hne0 as [Hne1 Hne2].
    erewrite for_each_record by eauto.
    cbn [Py.bind].
    destruct (IH (j + k)%nat
                (flushed (v_out, vs),
                 map (annotate eos max) (firstn k (skipn j (combine wc v))))
                (skipn k (skipn j (combine wc v))) Hks')
      as (st' & Hrun & Hfl).
    + replace k with (List.length (record_flags k)) at 1.
      * now apply skipn_app_exact.
      * unfold record_flags. simpl. rewrite repeat_length. lia.
    + now rewrite skipn_skipn, Nat.add_comm.
    + rewrite length_skipn. lia.
    + exact Hne2.
    + exists st'. split; [exact Hrun|]. rewrite Hfl.
      cbn [chunks map]. unfold flushed at 1. cbn [fst snd].
      rewrite length_map, Hlen.
      destruct k as [|k']; [lia|]. cbn [Nat.ltb Nat.leb].
      rewrite <- app_assoc. reflexivity.
Qed.

End MergeLists.

(** ** From the records to the merged fields *)

Lemma dict_set_fresh {V : Type} (d : dict V) (k : string) (x : V) :
  ~ In k (map fst d) -> dict_set d k x = d ++ [(k, x)].
Proof.
  induction d as [|[k' y] d IH]; simpl; intros H; [reflexivity|].
  destruct (String.eqb_spec k' k) as [->|_]; [tauto|].
  rewrite IH; tauto.
Qed.

Lemma chunks_length {A : Type} (ks : list nat) (l : list A) :
  List.length (chunks ks l) = List.length ks.
Proof.
  revert l. induction ks as [|k ks IH]; intros l; simpl; auto.
Qed.

Lemma merge_group_length (eos max : Z) (g : list (Z * list Z)) :
  List.length (merge_group eos max g) = merged_count eos max g.
Proof.
  unfold merge_group, merged_count.
  induction g as [|f g IH]; [reflexivity|].
  cbn [map List.concat filter].
  change (list_sum (?a :: ?l)) with (a + list_sum l)%nat.
  rewrite length_app, IH. unfold annotate.
  destruct (eligible_fragment eos max f); simpl; lia.
Qed.

Lemma repeat_snoc {A : Type} (x : A) (n : nat) :
  repeat x n ++ [x] = x :: repeat x n.
Proof. induction n as [|n IH]; simpl; [reflexivity|]. now rewrite IH. Qed.

Section Pieces.

(** A piece being read that is not empty ends up among the pieces. *)
Lemma re_split_from_cur (s : string) :
  forall (a b : bool) (cur : string),
    str_empty cur = false ->
    exists p, In p (re_split_from a b cur s) /\ str_empty p = false.
Proof.
  induction s as [|c s IH]; intros a b cur Hcur; simpl.
  - exists cur. auto.
  - destruct (is_space c).
    + destruct b; [now apply IH|].
      destruct a.
      * exists cur. simpl. auto.
      * apply IH. apply snoc_not_empty.
    + apply IH. apply snoc_not_empty.
Qed.

Lemma re_split_from_not_blank (s : string) :
  forall (a b : bool) (cur : string),
    blank s = false ->
    exists p, In p (re_split_from a b cur s) /\ str_empty p = false.
Proof.
  induction s as [|c s IH]; intros a b cur Hs; simpl in *; [discriminate|].
  destruct (is_space c); simpl in Hs.
  - destruct b; [now apply IH|].
    destruct a.
    + destruct (IH false true ""%string Hs) as (p & Hin & Hp).
      exists p. simpl. auto.
    + now apply IH.
  - apply re_split_from_cur. apply snoc_not_empty.
Qed.

End Pieces.

Section Records.

Import BatchTokenizer.

Lemma kept_not_blank (d : string) :
  lacks_terminator d = Ok false -> blank d = false.
Proof.
  intros H. destruct (blank d) eqn:E; [|reflexivity].
  rewrite lacks_terminator_blank in H by assumption. discriminate.
Qed.

Lemma sentences_of_kept (d : string) :
  lacks_terminator d = Ok false -> sentences_of d <> [].
Proof.
  intros H. apply kept_not_blank in H.
  destruct (re_split_from_not_blank d false false ""%string H) as (p & Hin & Hp).
  unfold sentences_of, re_split_sentences. intros E.
  apply map_eq_nil in E.
  assert (Hf : In p (filter (fun s => negb (str_empty s))
                       (re_split_from false false "" d))).
  { apply filter_In. rewrite Hp. auto. }
  rewrite E in Hf. exact Hf.
Qed.

Variable self : t.

Lemma split_record_kept (u : units) (d : string) :
  kept d ->
  split_record self u d
  = Ok (units_app u (record_sentences self d)
          (record_flags (List.length (record_sentences self d)))
          (record_word_counts self d)).
Proof.
  intros Hk. unfold split_record. rewrite Hk. cbn [Py.bind].
  pose proof (sentences_of_kept _ Hk) as Hne.
  unfold record_sentences, record_word_counts, units_app, record_flags.
  destruct (sentences_of (normalize_quotes d)) as [|s l]; [congruence|].
  destruct (_need_to_add_eos self); cbn [batch needs_merge wc].
  - rewrite !length_app. cbn [List.length].
    rewrite <- !app_assoc. do 3 f_equal.
    replace (S (List.length l) + 1 - 1)%nat with (S (List.length l)) by lia.
    replace (S (List.length l) - 1)%nat with (List.length l) by lia.
    cbn [app repeat]. f_equal. apply repeat_snoc.
  - now rewrite !app_nil_r.
Qed.

Lemma split_records_kept (orig_batch : list string) :
  Forall kept orig_batch ->
  forall u,
    split_records self u orig_batch
    = Ok (units_app u
            (List.concat (map (record_sentences self) orig_batch))
            (List.concat
               (map (fun d => record_flags
                                (List.length (record_sentences self d)))
                  orig_batch))
            (List.concat (map (record_word_counts self) orig_batch))).
Proof.
  induction 1 as [|d rest Hd Hrest IH]; intros u.
  - unfold units_app. simpl. rewrite !app_nil_r. now destruct u.
  - cbn [split_records]. rewrite split_record_kept by assumption.
    cbn [Py.bind]. rewrite IH. unfold units_app.
    cbn [batch needs_merge wc map List.concat].
    now rewrite <- !app_assoc.
Qed.

End Records.

Section MergedFields.

Import BatchTokenizer.

Variables (sentences : list string) (ks : list nat) (wc : list Z).
Variables (eos max : Z).

Hypothesis ks_records : Forall (fun k => 1 <= k)%nat ks.
Hypothesis ks_batch : List.length sentences = list_sum ks.
Hypothesis ks_wc : List.length wc = list_sum ks.

Let nm := List.concat (map record_flags ks).

Lemma merge_field_lists (v : list (list Z)) :
  ks <> [] ->
  List.length v = list_sum ks ->
  Forall (fun toks => toks <> []) v ->
  merge_field sentences (ListSeqs v) nm wc eos max
  = Ok (Some (merged_value ks wc eos max (ListSeqs v))).
Proof.
  intros Hks Hv Hne.
  assert (Hpos : (1 <= list_sum ks)%nat).
  { destruct ks as [|k ks']; [congruence|].
    inversion ks_records; subst.
    change (list_sum (k :: ks')) with (k + list_sum ks')%nat. lia. }
  destruct v as [|toks v']; [simpl in Hv; lia|].
  cbn [merge_field merged_value]. rewrite ks_batch.
  destruct (for_each_records nm wc (toks :: v') eos max ks 0 ([], [])
              (combine wc (toks :: v')) ks_records eq_refl eq_refl)
    as (st' & Hrun & Hfl).
  - rewrite length_combine. lia.
  - apply Forall_forall. intros [w t] Hin. apply in_combine_r in Hin.
    rewrite Forall_forall in Hne. now apply Hne.
  - rewrite Hrun. cbn [Py.bind]. destruct st' as [v_out vs].
    change (flushed ([], [])) with (@nil (list Z)) in Hfl.
    unfold flushed in Hfl. cbn [fst snd app] in Hfl.
    now rewrite Hfl.
Qed.

Lemma merge_fields_lists (items : BatchEncoding) :
  ks <> [] ->
  forall acc : BatchEncoding,
    NoDup (map fst acc ++ map fst items) ->
    Forall (fun kv => exists v, snd kv = ListSeqs v
                      /\ List.length v = list_sum ks
                      /\ Forall (fun toks => toks <> []) v) items ->
    merge_fields sentences items nm wc eos max acc
    = Ok (acc ++ dict_map (merged_value ks wc eos max) items).
Proof.
  intros Hks. induction items as [|[k fv] items IH]; intros acc Hnd Hit.
  - simpl. now rewrite app_nil_r.
  - inversion Hit as [|? ? (v & Hfv & Hlen & Hne) Hit']; subst.
    simpl in Hfv. subst fv. cbn [merge_fields].
    rewrite merge_field_lists by assumption. cbn [Py.bind].
    simpl in Hnd. apply NoDup_remove in Hnd as [Hnd Hfresh].
    rewrite dict_set_fresh.
    2:{ intros Hin. apply Hfresh. apply in_or_app. now left. }
    rewrite IH; [|
      rewrite map_app; simpl; rewrite <- app_assoc; simpl;
      apply NoDup_Add with (a := k) (l := map fst acc ++ map fst items);
      [apply Add_app | split; assumption]
      | assumption].
    cbn [dict_map map fst snd]. now rewrite <- app_assoc.
Qed.

End MergedFields.

Lemma dict_map_id {V : Type} (f : V -> V) (d : dict V) :
  Forall (fun kv => f (snd kv) = snd kv) d -> dict_map f d = d.
Proof.
  induction 1 as [|[k x] d Hx Hd IH]; [reflexivity|].
  unfold dict_map in *. simpl in *. now rewrite Hx, IH.
Qed.

Lemma Forall2_dict_map {V W : Type} (f : V -> W) (R : string * V -> string * W -> Prop)
    (d : dict V) :
  Forall (fun kv => R kv (fst kv, f (snd kv))) d ->
  Forall2 R d (dict_map f d).
Proof. induction 1; simpl; constructor; auto. Qed.

Section CallLists.

Import BatchTokenizer.

Variable self : t.
Hypothesis tk_lists : list_tokenizer (tokenizer self).

Lemma record_word_counts_length (d : string) :
  List.length (record_word_counts self d)
  = List.length (record_sentences self d).
Proof.
  unfold record_word_counts, record_sentences, word_counts_of.
  now rewrite !length_app, length_map; destruct (_need_to_add_eos self).
Qed.

Lemma record_sentences_kept (d : string) :
  kept d -> (1 <= List.length (record_sentences self d))%nat.
Proof.
  intros Hk. apply sentences_of_kept in Hk. unfold record_sentences.
  rewrite length_app.
  destruct (sentences_of (normalize_quotes d)); [congruence|simpl; lia].
Qed.

Lemma sentences_of_not_empty (d : string) :
  Forall (fun s => s <> "") (sentences_of d).
Proof.
  unfold sentences_of. apply Forall_map, Forall_forall.
  intros s Hin. apply filter_In in Hin as [_ Hs].
  destruct s as [|c s]; [discriminate|].
  destruct (startswith (String c s) " "); discriminate.
Qed.

Lemma record_sentences_not_empty (d : string) :
  Forall (fun s => s <> "") (record_sentences self d).
Proof.
  unfold record_sentences. apply Forall_app. split.
  - apply sentences_of_not_empty.
  - destruct (_need_to_add_eos self); repeat constructor.
    apply tk_lists.
Qed.

(** The whole call on records that pass the filter. *)
Lemma call_lists (orig_batch : list string) :
  Forall kept orig_batch ->
  __call__ self orig_batch
  = Ok (dict_map
          (merged_value
             (map (fun d => List.length (record_sentences self d)) orig_batch)
             (List.concat (map (record_word_counts self) orig_batch))
             (_eos_token_id self) (_max_sentence_len self))
          (tokenize (tokenizer self)
             (List.concat (map (record_sentences self) orig_batch)))).
Proof.
  intros Hk. unfold __call__.
  rewrite split_records_kept by assumption.
  cbn [Py.bind units_app no_units batch needs_merge wc app].
  set (sents := List.concat (map (record_sentences self) orig_batch)).
  set (ks := map (fun d => List.length (record_sentences self d)) orig_batch).
  set (wcs := List.concat (map (record_word_counts self) orig_batch)).
  destruct (proj2 tk_lists sents) as [Hnd Hit].
  { unfold sents. apply Forall_concat, Forall_map, Forall_forall.
    intros d _. apply record_sentences_not_empty. }
  assert (Hsum : List.length sents = list_sum ks).
  { unfold sents, ks. rewrite length_concat, map_map. reflexivity. }
  assert (Hwc : List.length wcs = list_sum ks).
  { unfold wcs, ks. rewrite length_concat, map_map. f_equal.
    apply map_ext. intros d. apply record_word_counts_length. }
  replace (map (fun d => record_flags (List.length (record_sentences self d)))
             orig_batch)
    with (map record_flags ks) by (unfold ks; now rewrite map_map).
  destruct orig_batch as [|d rest].
  - cbn. f_equal. symmetry. apply dict_map_id.
    eapply Forall_impl; [|exact Hit].
    intros [k fv] (v & Hfv & Hlen & _). simpl in *. subst fv.
    destruct v; [reflexivity|discriminate].
  - inversion Hk as [|? ? Hd Hrest]; subst.
    assert (Hks : Forall (fun k => 1 <= k)%nat ks).
    { unfold ks. apply Forall_map.
      eapply Forall_impl; [|exact Hk]. apply record_sentences_kept. }
    assert (Hne : ks <> []) by discriminate.
    destruct (List.concat (map record_flags ks)) as [|b fl] eqn:Efl.
    { exfalso. unfold ks in Efl. simpl in Efl. discriminate. }
    rewrite <- Efl. unfold _merge_split_encodings.
    rewrite (merge_fields_lists sents ks wcs (_eos_token_id self)
               (_max_sentence_len self) Hks Hsum Hwc _ Hne []); auto.
    eapply Forall_impl; [|exact Hit].
    intros [k fv] (v & Hfv & Hlen & Hv). exists v. repeat split; auto.
    now rewrite Hlen.
Qed.

End CallLists.

Lemma char_encode_not_empty (s : string) : s <> "" -> char_encode s <> [].
Proof.
  intros Hs. unfold char_encode.
  destruct (String.eqb s "<eos>"); [discriminate|].
  destruct s; [congruence|discriminate].
Qed.

Lemma char_tokenizer_lists : list_tokenizer char_tokenizer.
Proof.
  split; [discriminate|]. intros batch Hb. split.
  - simpl. repeat constructor. intros [].
  - repeat constructor. exists (map char_encode batch).
    repeat split; [apply length_map|].
    apply Forall_map. eapply Forall_impl; [|exact Hb].
    apply char_encode_not_empty.
Qed.

(** C1, as stated, fails twice. With eligibility as the specification
    words it (the word count does not exceed the maximum, the fragment
    is not the end token), a record of one sentence of exactly 1024
    words would merge into 2051 tokens: 2049 of the sentence, one of
    the end fragment, and one boundary token for the sentence. The code
    gives a boundary token only below the maximum ([wc <
    max_sentence_len]), so [__call__] returns 2050 tokens. And a kept
    record whose field holds numpy arrays gets no sequence at all:
    [__call__] raises. *)
Lemma call_token_count_counterexample :
  (kept (words 1023) /\
   record_word_counts char_batch_tokenizer (words 1023) = [1024; 1] /\
   exists merged,
     BatchTokenizer.__call__ char_batch_tokenizer [words 1023]
     = Ok [("input_ids", ListSeqs [merged])] /\
     List.length merged = 2050%nat /\
     spec_merged_count 256 MAX_SENTENCE_LEN
       (combine (record_word_counts char_batch_tokenizer (words 1023))
          (map char_encode (record_sentences char_batch_tokenizer (words 1023))))
     = 2051%nat) /\
  kept "Hi." /\
  BatchTokenizer.__call__ char_array_batch_tokenizer ["Hi."] = Raise ValueError.
Proof.
  split; [split; [|split]|split].
  - vm_compute. reflexivity.
  - vm_compute. reflexivity.
  - eexists. split; [vm_compute; reflexivity|].
    split; vm_compute; reflexivity.
  - vm_compute. reflexivity.
  - vm_compute. reflexivity.
Qed.

(** C1, amended: on a batch of [N] records that all pass the terminator
    filter, with a tokenizer that keeps the contract [list_tokenizer]
    (distinct keys, list-valued fields, one non-empty token list per
    string), [__call__] returns for each field exactly [N] sequences,
    and the token count of each is the sum of the token counts of the
    fragments of its record (the end fragment included when it is
    appended) plus one for each fragment whose word count is below the
    maximum and whose first token is not the end token id
    ([eligible_fragment]). *)
Theorem call_merged_token_counts (self : BatchTokenizer.t)
    (orig_batch : list string) :
  list_tokenizer (BatchTokenizer.tokenizer self) ->
  Forall kept orig_batch ->
  let sentences := map (record_sentences self) orig_batch in
  let word_counts := List.concat (map (record_word_counts self) orig_batch) in
  exists out,
    BatchTokenizer.__call__ self orig_batch = Ok out /\
    Forall2
      (fun kv kv' =>
         fst kv' = fst kv /\
         exists v v_out,
           snd kv = ListSeqs v /\ snd kv' = ListSeqs v_out /\
           List.length v_out = List.length orig_batch /\
           map (@List.length Z) v_out
           = map (merged_count (BatchTokenizer._eos_token_id self)
                    (BatchTokenizer._max_sentence_len self))
               (chunks (map (@List.length string) sentences)
                  (combine word_counts v)))
      (tokenize (BatchTokenizer.tokenizer self) (List.concat sentences))
      out.
Proof.
  intros Htk Hk sentences word_counts.
  eexists. split; [now apply call_lists|].
  apply Forall2_dict_map.
  destruct (proj2 Htk (List.concat sentences)) as [_ Hit].
  { unfold sentences. apply Forall_concat, Forall_map, Forall_forall.
    intros d _. now apply record_sentences_not_empty. }
  eapply Forall_impl; [|exact Hit].
  intros [k fv] (v & Hfv & _). simpl in *. subst fv.
  split; [reflexivity|]. eexists v, _. split; [reflexivity|].
  split; [reflexivity|]. split.
  - now rewrite length_map, chunks_length, !length_map.
  - rewrite !map_map. unfold sentences. rewrite map_map.
    apply map_ext. intros g. apply merge_group_length.
Qed.

Lemma call_merged_token_counts_witness :
  list_tokenizer char_tokenizer /\
  Forall kept ["Hello world. This is a test."; "Yes!"] /\
  exists out,
    BatchTokenizer.__call__ char_batch_tokenizer
      ["Hello world. This is a test."; "Yes!"] = Ok out /\
    Forall2
      (fun kv kv' =>
         fst kv' = fst kv /\
         exists v v_out,
           snd kv = ListSeqs v /\ snd kv' = ListSeqs v_out /\
           List.length v_out = 2%nat /\
           map (@List.length Z) v_out
           = map (merged_count 256 1024)
               (chunks [3; 2]%nat (combine [2; 4; 1; 1; 1] v)))
      (tokenize char_tokenizer
         [" Hello world."; " This is a test."; "<eos>"; " Yes!"; "<eos>"])
      out.
Proof.
  split; [exact char_tokenizer_lists|].
  split; [repeat constructor|].
  exact (call_merged_token_counts char_batch_tokenizer
           ["Hello world. This is a test."; "Yes!"] char_tokenizer_lists
           ltac:(repeat constructor)).
Defined.

(** C3, as stated, fails twice. A sentence of exactly 1024 words, which
    does not exceed the maximum of 1024, gets no boundary token: the
    merged record is the tokens of the sentence and the end token. And a
    fragment that is not the end fragment but whose first token is the
    end token id (a tokenizer that opens every sequence with it) gets
    none either. *)
Lemma merge_prefix_counterexample :
  (BatchTokenizer.word_counts_of (BatchTokenizer.sentences_of (words 1023))
   = [1024] /\
   BatchTokenizer.__call__ char_batch_tokenizer [words 1023]
   = Ok [("input_ids",
          ListSeqs [char_encode (" " ++ words 1023)%string ++ [256]])]) /\
  BatchTokenizer._merge_split_encodings [" Hi."; "<eos>"]
    [("input_ids", ListSeqs [[256; 32; 72; 105; 46]; [256; 256]])]
    [false; true] [1; 1] 256 1024
  = Ok [("input_ids", ListSeqs [[256; 32; 72; 105; 46; 256; 256]])].
Proof. repeat split; vm_compute; reflexivity. Qed.

(** C3, amended: for a list-valued field, the merged record is the
    concatenation of its fragments in order, where a fragment is
    preceded by the boundary token [word_count + eos_token_id + 1]
    exactly when its word count is below the maximum and its first token
    is not the end token id, and is left as it is otherwise. *)
Theorem merge_prefixes_eligible_fragments (batch : list string) (k : string)
    (v : list (list Z)) (ks : list nat) (wc : list Z)
    (eos_token_id max_sentence_len : Z) :
  ks <> [] ->
  Forall (fun n => 1 <= n)%nat ks ->
  List.length batch = list_sum ks ->
  List.length wc = list_sum ks ->
  List.length v = list_sum ks ->
  Forall (fun toks => toks <> []) v ->
  BatchTokenizer._merge_split_encodings batch [(k, ListSeqs v)]
    (List.concat (map record_flags ks)) wc eos_token_id max_sentence_len
  = Ok [(k, ListSeqs (map (fun g => List.concat
                                      (map (annotate eos_token_id max_sentence_len) g))
                        (chunks ks (combine wc v))))]
  /\ forall (w x : Z) (toks : list Z),
       annotate eos_token_id max_sentence_len (w, x :: toks)
       = if (w <? max_sentence_len) && negb (x =? eos_token_id)
         then (w + eos_token_id + 1) :: x :: toks
         else x :: toks.
Proof.
  intros Hks Hrec Hb Hwc Hv Hne. split; [|reflexivity].
  unfold BatchTokenizer._merge_split_encodings.
  rewrite (merge_fields_lists batch ks wc eos_token_id max_sentence_len
             Hrec Hb Hwc _ Hks []).
  - reflexivity.
  - simpl. repeat constructor. intros [].
  - repeat constructor. exists v. auto.
Qed.

Lemma merge_prefixes_eligible_fragments_witness :
  [2]%nat <> [] /\
  Forall (fun n => 1 <= n)%nat [2]%nat /\
  List.length [" Hi."; "<eos>"] = list_sum [2]%nat /\
  List.length [1; 1] = list_sum [2]%nat /\
  List.length [[32; 72; 105; 46]; [256]] = list_sum [2]%nat /\
  Forall (fun toks : list Z => toks <> []) [[32; 72; 105; 46]; [256]] /\
  BatchTokenizer._merge_split_encodings [" Hi."; "<eos>"]
    [("input_ids", ListSeqs [[32; 72; 105; 46]; [256]])]
    (List.concat (map record_flags [2]%nat)) [1; 1] 256 1024
  = Ok [("input_ids", ListSeqs [[258; 32; 72; 105; 46; 256]])].
Proof.
  split; [discriminate|]. split; [repeat constructor|].
  do 3 (split; [reflexivity|]).
  split; [repeat constructor; discriminate|].
  exact (proj1 (merge_prefixes_eligible_fragments [" Hi."; "<eos>"] "input_ids"
                  [[32; 72; 105; 46]; [256]] [2]%nat [1; 1] 256 1024
                  ltac:(discriminate) ltac:(repeat constructor)
                  eq_refl eq_refl eq_refl
                  ltac:(repeat constructor; discriminate))).
Defined.

(** C4, as stated, fails: the first sentence is tokenized with a leading
    space like the second one, so with a tokenizer that tells
    [" Hello world."] from ["Hello world."] the record is not the one
    expected. *)
Lemma call_hello_world_counterexample :
  exists self,
    BatchTokenizer.__init__ char_tokenizer true 1 LONG_STRING_WORKAROUND
      MAX_SENTENCE_LEN = Ok self /\
    BatchTokenizer.__call__ self ["Hello world. This is a test."]
    <> Ok [("input_ids",
            ListSeqs [[2 + 256 + 1] ++ char_encode "Hello world."
                      ++ [4 + 256 + 1] ++ char_encode " This is a test."
                      ++ [256]])].
Proof. eexists. split; [reflexivity|]. vm_compute. discriminate. Qed.

(** C4, amended: with a tokenizer that returns list-valued [input_ids]
    only, appends no end token by itself, maps its end token to the end
    token id and opens neither sentence with that id, the record
    ["Hello world. This is a test."] gives one merged sequence:
    the boundary token of two words, the tokens of [" Hello world."]
    (leading space included), the boundary token of four words, the
    tokens of [" This is a test."] and the end token. *)
Theorem call_hello_world (tk : PreTrainedTokenizer)
    (batch_size workaround_len max_sentence_len : Z)
    (x1 x2 : Z) (r1 r2 : list Z) :
  (forall batch,
     tokenize tk batch = [("input_ids", ListSeqs (map (encode tk) batch))]) ->
  (exists x, last_item (encode tk "hi there") = Ok x /\ x <> eos_token_id tk) ->
  encode tk (eos_token tk) = [eos_token_id tk] ->
  encode tk " Hello world." = x1 :: r1 -> x1 <> eos_token_id tk ->
  encode tk " This is a test." = x2 :: r2 -> x2 <> eos_token_id tk ->
  4 < max_sentence_len ->
  exists self,
    BatchTokenizer.__init__ tk true batch_size workaround_len max_sentence_len
    = Ok self /\
    BatchTokenizer.__call__ self ["Hello world. This is a test."]
    = Ok [("input_ids",
           ListSeqs [[2 + eos_token_id tk + 1] ++ encode tk " Hello world."
                     ++ [4 + eos_token_id tk + 1] ++ encode tk " This is a test."
                     ++ [eos_token_id tk]])].
Proof.
  intros Htok (x & Hlast & Hx) Heos H1 Hx1 H2 Hx2 Hmax.
  eexists. split.
  - unfold BatchTokenizer.__init__. rewrite Hlast. cbn [Py.bind].
    apply Z.eqb_neq in Hx. rewrite Hx. reflexivity.
  - unfold BatchTokenizer.__call__.
    change (BatchTokenizer.split_records _ BatchTokenizer.no_units
              ["Hello world. This is a test."])
      with (Ok {| BatchTokenizer.batch :=
                    [" Hello world."; " This is a test."; eos_token tk];
                  BatchTokenizer.needs_merge := [false; true; true];
                  BatchTokenizer.wc := [2; 4; 1] |}).
    cbn [Py.bind BatchTokenizer.batch BatchTokenizer.needs_merge
           BatchTokenizer.wc BatchTokenizer.tokenizer
           BatchTokenizer._eos_token_id BatchTokenizer._max_sentence_len].
    rewrite Htok. cbn [map]. rewrite Heos, H1, H2.
    unfold BatchTokenizer._merge_split_encodings.
    cbn [BatchTokenizer.merge_fields BatchTokenizer.merge_field List.length seq
           BatchTokenizer.for_each].
    unfold BatchTokenizer.list_step, BatchTokenizer.eligible.
    cbn [getitem nth_error Py.bind negb].
    replace (2 <? max_sentence_len) with true by (symmetry; apply Z.ltb_lt; lia).
    replace (4 <? max_sentence_len) with true by (symmetry; apply Z.ltb_lt; lia).
    apply Z.eqb_neq in Hx1, Hx2. 
    cbn [Py.bind getitem nth_error]. rewrite Hx1, Hx2. cbn [negb Py.bind].
    destruct (1 <? max_sentence_len); cbn [Py.bind getitem nth_error];
      rewrite ?Z.eqb_refl; cbn [negb Py.bind]; reflexivity.
Qed.

Lemma call_hello_world_witness :
  (forall batch,
     tokenize char_tokenizer batch
     = [("input_ids", ListSeqs (map (encode char_tokenizer) batch))]) /\
  last_item (encode char_tokenizer "hi there") = Ok 101 /\
  encode char_tokenizer (eos_token char_tokenizer)
  = [eos_token_id char_tokenizer] /\
  4 < MAX_SENTENCE_LEN /\
  exists self,
    BatchTokenizer.__init__ char_tokenizer true 1 LONG_STRING_WORKAROUND
      MAX_SENTENCE_LEN = Ok self /\
    BatchTokenizer.__call__ self ["Hello world. This is a test."]
    = Ok [("input_ids",
           ListSeqs [[2 + 256 + 1] ++ char_encode " Hello world."
                     ++ [4 + 256 + 1] ++ char_encode " This is a test."
                     ++ [256]])].
Proof.
  do 4 (split; [reflexivity|]).
  apply (call_hello_world char_tokenizer 1 LONG_STRING_WORKAROUND
           MAX_SENTENCE_LEN 32 32
           (tl (char_encode " Hello world."))
           (tl (char_encode " This is a test."))).
  - reflexivity.
  - exists 101. split; [reflexivity|discriminate].
  - reflexivity.
  - reflexivity.
  - discriminate.
  - reflexivity.
  - discriminate.
  - reflexivity.
Defined.

(** ** Slices and blocks *)

Lemma firstn_add {A : Type} (a b : nat) (l : list A) :
  firstn (a + b) l = firstn a l ++ firstn b (skipn a l).
Proof.
  revert l. induction a as [|a IH]; intros [|x l]; simpl;
    rewrite ?firstn_nil; try reflexivity.
  now rewrite IH.
Qed.

Lemma firstn_min_length {A : Type} (n : nat) (l : list A) :
  firstn (Nat.min n (List.length l)) l = firstn n l.
Proof.
  destruct (Nat.le_ge_cases n (List.length l)) as [H|H].
  - now rewrite Nat.min_l.
  - rewrite Nat.min_r by assumption. now rewrite firstn_all, firstn_all2.
Qed.

Lemma clamp_le (n : nat) (i : Z) : (clamp n i <= n)%nat.
Proof. unfold clamp. destruct (i <? 0) eqn:E; lia. Qed.

(** A slice of width [w] is never longer than [w]. *)
Lemma slice_length_le {A : Type} (l : list A) (b w : Z) :
  0 <= w -> (List.length (slice l b (b + w)) <= Z.to_nat w)%nat.
Proof.
  intros Hw. unfold slice. rewrite length_firstn, length_skipn.
  unfold clamp.
  destruct (b <? 0) eqn:Eb, (b + w <? 0) eqn:Ee; lia.
Qed.

(** From a non-negative start, a slice keeps the [w] entries after the
    first [b]. *)
Lemma slice_from {A : Type} (l : list A) (b w : Z) :
  0 <= b -> 0 <= w ->
  slice l b (b + w) = firstn (Z.to_nat w) (skipn (Z.to_nat b) l).
Proof.
  intros Hb Hw. unfold slice, clamp.
  replace (b <? 0) with false by (symmetry; apply Z.ltb_ge; lia).
  replace (b + w <? 0) with false by (symmetry; apply Z.ltb_ge; lia).
  destruct (Nat.le_ge_cases (List.length l) (Z.to_nat b)) as [H|H].
  - replace (Nat.min (Z.to_nat b) (List.length l)) with (List.length l) by lia.
    rewrite (skipn_all2 l H), skipn_all. now rewrite !firstn_nil.
  - replace (Nat.min (Z.to_nat b) (List.length l)) with (Z.to_nat b) by lia.
    rewrite <- (firstn_min_length (Z.to_nat w)), length_skipn.
    f_equal. lia.
Qed.

Section Blocks.

Variable A : Type.
Variable s : nat.
Variable T : list A.
Hypothesis s_pos : (0 < s)%nat.

(** The [i]-th block of width [s]. *)
Let block (i : nat) : list A := firstn s (skipn (i * s) T).

Lemma block_length (i : nat) :
  List.length (block i) = Nat.min s (List.length T - i * s).
Proof. unfold block. now rewrite length_firstn, length_skipn. Qed.

Lemma concat_blocks (q : nat) :
  List.concat (map block (seq 0 q)) = firstn (q * s) T.
Proof.
  induction q as [|q IH]; [reflexivity|].
  rewrite seq_S, map_app, concat_app, IH. simpl.
  rewrite app_nil_r. unfold block.
  now rewrite <- firstn_add, Nat.add_comm.
Qed.

(** Among the first [n] blocks, the full ones are those that end
    within the list. *)
Lemma full_blocks (n : nat) :
  filter (fun w => (List.length w =? s)%nat) (map block (seq 0 n))
  = map block (seq 0 (Nat.min n (List.length T / s))).
Proof.
  induction n as [|n IH]; [reflexivity|].
  rewrite seq_S, map_app, filter_app, IH. cbn [map filter Nat.add].
  rewrite block_length.
  pose proof (Nat.div_mod_eq (List.length T) s) as Hdm.
  pose proof (Nat.mod_upper_bound (List.length T) s ltac:(lia)) as Hm.
  set (q := (List.length T / s)%nat) in *.
  destruct (Nat.lt_ge_cases n q) as [Hlt|Hge].
  - replace (Nat.min (S n) q) with (S n) by lia.
    replace (Nat.min n q) with n by lia.
    rewrite seq_S, map_app. cbn [map Nat.add]. f_equal.
    replace (Nat.min s (List.length T - n * s) =? s)%nat with true;
      [reflexivity|].
    symmetry. apply Nat.eqb_eq. nia.
  - replace (Nat.min (S n) q) with q by lia.
    replace (Nat.min n q) with q by lia.
    replace (Nat.min s (List.length T - n * s) =? s)%nat with false;
      [now rewrite app_nil_r|].
    symmetry. apply Nat.eqb_neq. nia.
Qed.

End Blocks.

(** ** Dictionaries *)

Lemma dict_get_map {V W : Type} (f : V -> W) (d : dict V) (k : string) :
  dict_get (dict_map f d) k = option_map f (dict_get d k).
Proof.
  induction d as [|[k' x] d IH]; simpl; [reflexivity|].
  destruct (String.eqb k' k); auto.
Qed.

Lemma dict_get_set_eq {V : Type} (d : dict V) (k : string) (x : V) :
  dict_get (dict_set d k x) k = Some x.
Proof.
  induction d as [|[k' y] d IH]; simpl.
  - now rewrite String.eqb_refl.
  - destruct (String.eqb k' k) eqn:E; simpl; rewrite E; auto.
Qed.

Lemma dict_get_set_ne {V : Type} (d : dict V) (k k' : string) (x : V) :
  k' <> k -> dict_get (dict_set d k' x) k = dict_get d k.
Proof.
  intros Hk. induction d as [|[k0 y] d IH]; simpl.
  - apply String.eqb_neq in Hk. now rewrite Hk.
  - destruct (String.eqb_spec k0 k') as [->|Hn]; simpl.
    + apply String.eqb_neq in Hk. now rewrite Hk.
    + destruct (String.eqb k0 k); auto.
Qed.

Lemma dict_map_set {V W : Type} (f : V -> W) (d : dict V) (k : string) (x : V) :
  dict_map f (dict_set d k x) = dict_set (dict_map f d) k (f x).
Proof.
  induction d as [|[k' y] d IH]; simpl; [reflexivity|].
  destruct (String.eqb k' k); simpl; [reflexivity|].
  f_equal. exact IH.
Qed.

Lemma dict_map_map {U V W : Type} (f : U -> V) (g : V -> W) (d : dict U) :
  dict_map g (dict_map f d) = dict_map (fun x => g (f x)) d.
Proof. unfold dict_map. rewrite map_map. reflexivity. Qed.

(** ** Windows, value level *)

Section Windows.

Variable concatenated : dict (list Z).
Variable tokens : list Z.
Variables seq_len stride : Z.
Variable mask_stride_overlap : bool.

Hypothesis has_input_ids : dict_get concatenated "input_ids" = Some tokens.

(** A window is built without error, and its [input_ids] is the plain
    slice, whatever happens to [labels]. *)
Lemma window_input_ids (begin : Z) :
  exists data,
    window concatenated seq_len stride mask_stride_overlap begin = Ok data /\
    dict_get data "input_ids" = Some (slice tokens begin (begin + seq_len)).
Proof.
  unfold window.
  set (data := dict_map (fun v => slice v begin (begin + seq_len)) concatenated).
  assert (Hids : dict_get data "input_ids"
                 = Some (slice tokens begin (begin + seq_len))).
  { unfold data. now rewrite dict_get_map, has_input_ids. }
  destruct (mask_stride_overlap && negb (stride =? seq_len)).
  - unfold dict_item. rewrite Hids. cbn [Py.bind].
    eexists. split; [reflexivity|].
    now rewrite dict_get_set_ne by discriminate.
  - now exists data.
Qed.

Lemma windows_all (begins : list Z) :
  exists ds,
    windows concatenated seq_len stride mask_stride_overlap begins
    = {| yielded := ds; raised := None |} /\
    Forall2 (fun begin data =>
               window concatenated seq_len stride mask_stride_overlap begin
               = Ok data) begins ds.
Proof.
  induction begins as [|b begins (ds & E & F)]; simpl.
  - exists []. split; [reflexivity|constructor].
  - destruct (window_input_ids b) as (data & Hw & _).
    rewrite Hw, E. exists (data :: ds). split; [reflexivity|].
    now constructor.
Qed.

End Windows.

(** The values of [begin] without overlap and without dropping. *)
Lemma range0_positive (stop step : Z) :
  0 < step ->
  range0 stop step
  = Ok (map (fun i => Z.of_nat i * step)
          (seq 0 (Z.to_nat ((stop + step - 1) / step)))).
Proof.
  intros H. unfold range0.
  replace (step =? 0) with false by (symmetry; apply Z.eqb_neq; lia).
  replace (0 <? step) with true by (symmetry; apply Z.ltb_lt; lia).
  reflexivity.
Qed.

Lemma window_count (L s : nat) :
  (0 < s)%nat ->
  Z.to_nat ((Z.of_nat L - Z.of_nat s + Z.of_nat s + Z.of_nat s - 1) / Z.of_nat s)
  = if (L mod s =? 0)%nat then (L / s)%nat else S (L / s).
Proof.
  intros Hs.
  pose proof (Nat.div_mod_eq L s) as Hdm.
  pose proof (Nat.mod_upper_bound L s ltac:(lia)) as Hm.
  destruct (L mod s =? 0)%nat eqn:E.
  - apply Nat.eqb_eq in E.
    rewrite <- (Z.div_unique _ _ (Z.of_nat (L / s)) (Z.of_nat s - 1));
      [apply Nat2Z.id | lia | nia].
  - apply Nat.eqb_neq in E.
    rewrite <- (Z.div_unique _ _ (Z.of_nat (S (L / s))) (Z.of_nat (L mod s) - 1));
      [apply Nat2Z.id | lia | nia].
Qed.

Lemma list_length_eqb (w : list Z) (s : nat) :
  (Z.of_nat (List.length w) =? Z.of_nat s) = (List.length w =? s)%nat.
Proof.
  destruct (Nat.eqb_spec (List.length w) s) as [->|H].
  - apply Z.eqb_refl.
  - apply Z.eqb_neq. lia.
Qed.

Section NoOverlap.

Variable encoding : dict (list (list Z)).
Variable rows : list (list Z).
Variable s : nat.
Variable stride : option Z.
Variable mask_stride_overlap : bool.

Hypothesis s_pos : (0 < s)%nat.
Hypothesis same_stride : int_or stride (Z.of_nat s) = Z.of_nat s.
Hypothesis has_input_ids : dict_get encoding "input_ids" = Some rows.

Let tokens := List.concat rows.
Let L := List.length tokens.

(** The windows without overlap: one per block, the last one possibly
    short. *)
Lemma no_overlap_windows :
  exists ds,
    concatenate_and_group_texts encoding (Z.of_nat s) stride false
      mask_stride_overlap
    = {| yielded := ds; raised := None |} /\
    List.length ds = (if (L mod s =? 0)%nat then (L / s)%nat else S (L / s)) /\
    Forall2 (fun i data =>
               data = dict_map (fun v => slice v (Z.of_nat i * Z.of_nat s)
                                           (Z.of_nat i * Z.of_nat s + Z.of_nat s))
                        (dict_map (@List.concat Z) encoding))
            (seq 0 (List.length ds)) ds.
Proof.
  unfold concatenate_and_group_texts, dict_attr.
  rewrite dict_get_map, has_input_ids. cbn [option_map Py.bind].
  unfold window_begins. rewrite same_stride. cbn [Py.bind].
  rewrite range0_positive by lia. cbn [Py.bind].
  fold tokens. fold L. rewrite window_count by assumption.
  set (n := if (L mod s =? 0)%nat then (L / s)%nat else S (L / s)).
  destruct (windows_all (dict_map (@List.concat Z) encoding) tokens
              (Z.of_nat s) (Z.of_nat s) mask_stride_overlap
              ltac:(now rewrite dict_get_map, has_input_ids)
              (map (fun i => Z.of_nat i * Z.of_nat s) (seq 0 n)))
    as (ds & E & F).
  exists ds. split; [exact E|].
  assert (Hlen : List.length ds = n).
  { apply Forall2_length in F. now rewrite length_map, length_seq in F. }
  split; [exact Hlen|]. rewrite Hlen.
  clear E Hlen. revert ds F. generalize 0%nat.
  induction n as [|n IH]; intros i ds F; inversion F; subst; constructor.
  - unfold window in *. rewrite Z.eqb_refl, andb_false_r in *. congruence.
  - now apply IH.
Qed.

Lemma no_overlap_input_ids (ds : list (dict (list Z))) :
  Forall2 (fun i data =>
             data = dict_map (fun v => slice v (Z.of_nat i * Z.of_nat s)
                                         (Z.of_nat i * Z.of_nat s + Z.of_nat s))
                      (dict_map (@List.concat Z) encoding))
          (seq 0 (List.length ds)) ds ->
  map (fun data => dict_get data "input_ids") ds
  = map Some (map (fun i => firstn s (skipn (i * s) tokens))
                (seq 0 (List.length ds))).
Proof.
  generalize (seq 0 (List.length ds)). intros l F.
  induction F as [|i data l ds Hd F IH]; [reflexivity|].
  simpl. rewrite IH. f_equal. subst data.
  rewrite !dict_get_map, has_input_ids. cbn [option_map]. f_equal.
  rewrite slice_from by lia. rewrite Nat2Z.id. do 2 f_equal. lia.
Qed.

End NoOverlap.

Lemma no_overlap_round_trip (encoding : dict (list (list Z)))
    (rows : list (list Z)) (s : nat) (mask_stride_overlap : bool) :
  (0 < s)%nat ->
  dict_get encoding "input_ids" = Some rows ->
  let tokens := List.concat rows in
  let emitted :=
    concatenate_and_group_texts encoding (Z.of_nat s) (Some (Z.of_nat s)) false
      mask_stride_overlap in
  raised emitted = None /\
  exists ws,
    map (fun data => dict_get data "input_ids") (yielded emitted) = map Some ws /\
    List.concat (filter (fun w => Z.of_nat (List.length w) =? Z.of_nat s) ws)
    = firstn (Z.to_nat (Z.of_nat (List.length tokens) / Z.of_nat s * Z.of_nat s))
        tokens.
Proof.
  intros Hs_pos Hids tokens emitted.
  assert (Hstride : int_or (Some (Z.of_nat s)) (Z.of_nat s) = Z.of_nat s).
  { unfold int_or. now destruct (Z.of_nat s =? 0). }
  destruct (no_overlap_windows encoding rows s (Some (Z.of_nat s))
              mask_stride_overlap Hs_pos Hstride Hids)
    as (ds & E & Hlen & F).
  unfold emitted. rewrite E. cbn [raised yielded].
  split; [reflexivity|].
  eexists. split; [exact (no_overlap_input_ids encoding rows s Hs_pos Hids ds F)|].
  erewrite filter_ext by (intros w; apply list_length_eqb).
  rewrite full_blocks by lia. rewrite concat_blocks.
  fold tokens. rewrite <- Nat2Z.inj_div, <- Nat2Z.inj_mul, Nat2Z.id.
  f_equal. rewrite Hlen. fold tokens.
  pose proof (Nat.div_mod_eq (List.length tokens) s).
  destruct (List.length tokens mod s =? 0)%nat; lia.
Qed.

(** C2: without overlap ([stride = seq_len]) and without dropping the
    remainder, the windows are emitted without error and the full ones,
    concatenated in the order they are emitted, are the first
    [floor(L / seq_len) * seq_len] tokens of the stream. *)
Theorem concatenate_and_group_round_trip (encoding : dict (list (list Z)))
    (rows : list (list Z)) (seq_len : Z) (mask_stride_overlap : bool) :
  0 < seq_len ->
  dict_get encoding "input_ids" = Some rows ->
  let tokens := List.concat rows in
  let emitted :=
    concatenate_and_group_texts encoding seq_len (Some seq_len) false
      mask_stride_overlap in
  raised emitted = None /\
  exists ws,
    map (fun data => dict_get data "input_ids") (yielded emitted) = map Some ws /\
    List.concat (filter (fun w => Z.of_nat (List.length w) =? seq_len) ws)
    = firstn (Z.to_nat (Z.of_nat (List.length tokens) / seq_len * seq_len)) tokens.
Proof.
  intros Hpos Hids.
  rewrite <- (Z2Nat.id seq_len) by lia.
  apply no_overlap_round_trip; [lia | exact Hids].
Qed.

Lemma concatenate_and_group_round_trip_witness :
  0 < 4 /\
  dict_get [("input_ids", [[0; 1; 2; 3; 4; 5]; [6; 7; 8; 9]])] "input_ids"
  = Some [[0; 1; 2; 3; 4; 5]; [6; 7; 8; 9]] /\
  let emitted :=
    concatenate_and_group_texts
      [("input_ids", [[0; 1; 2; 3; 4; 5]; [6; 7; 8; 9]])] 4 (Some 4) false true in
  raised emitted = None /\
  exists ws,
    map (fun data => dict_get data "input_ids") (yielded emitted) = map Some ws /\
    List.concat (filter (fun w => Z.of_nat (List.length w) =? 4) ws)
    = [0; 1; 2; 3; 4; 5; 6; 7].
Proof.
  split; [lia|]. split; [reflexivity|].
  apply (concatenate_and_group_round_trip
           [("input_ids", [[0; 1; 2; 3; 4; 5]; [6; 7; 8; 9]])]
           [[0; 1; 2; 3; 4; 5]; [6; 7; 8; 9]] 4 true);
    [lia | reflexivity].
Defined.

(** ** TokenSeqDataset: carry-over *)

Lemma dict_get_in {V : Type} (d : dict V) (k : string) :
  In k (map fst d) -> exists x, dict_get d k = Some x.
Proof.
  induction d as [|[k' y] d IH]; simpl; [tauto|].
  intros [->|H].
  - rewrite String.eqb_refl. eauto.
  - destruct (String.eqb k' k); eauto.
Qed.

Lemma dict_map_keys {V W : Type} (f : V -> W) (d : dict V) :
  map fst (dict_map f d) = map fst d.
Proof. unfold dict_map. rewrite map_map. reflexivity. Qed.

Lemma ensure_batched_flat (x : list Z) :
  List.concat (_ensure_batched (Flat x)) = x.
Proof. destruct x; simpl; [reflexivity|]. now rewrite app_nil_r. Qed.

Lemma ensure_batched_rows (x : list (list Z)) :
  _ensure_batched (Batched x) = x.
Proof. now destruct x. Qed.

Lemma stack_items_spec (items a b : dict encoded) :
  (forall k, In k (map fst items) ->
     (exists x, dict_get a k = Some x) /\ (exists y, dict_get b k = Some y)) ->
  exists r,
    stack_items items a b = Ok r /\
    map fst r = map fst items /\
    forall k x y,
      In k (map fst items) ->
      dict_get a k = Some x -> dict_get b k = Some y ->
      dict_get r k = Some (_ensure_batched x ++ _ensure_batched y).
Proof.
  induction items as [|[k0 z] items IH]; intros H.
  - exists []. repeat split. intros k x y [].
  - destruct (H k0 (or_introl eq_refl)) as [(x0 & Hx0) (y0 & Hy0)].
    destruct IH as (r & Er & Kr & Gr).
    { intros k Hk. apply H. now right. }
    cbn [stack_items]. unfold dict_item. rewrite Hx0, Hy0. cbn [Py.bind].
    rewrite Er. cbn [Py.bind]. eexists. split; [reflexivity|].
    split; [simpl; now rewrite Kr|].
    intros k x y Hk Hx Hy. cbn [dict_get].
    destruct (String.eqb_spec k0 k) as [->|Hne].
    + congruence.
    + destruct Hk as [Hk|Hk]; [simpl in Hk; congruence|]. now apply Gr.
Qed.

(** Stacking a carried slice in front of a document with the same
    fields. *)
Lemma stack_carry (extra : dict (list Z)) (doc : dict (list (list Z)))
    (rem : list Z) (rows : list (list Z)) :
  map fst doc = map fst extra ->
  dict_get extra "input_ids" = Some rem ->
  dict_get doc "input_ids" = Some rows ->
  exists stacked rows',
    _stack_batch_encodings (dict_map Flat extra) (dict_map Batched doc)
    = Ok stacked /\
    map fst stacked = map fst extra /\
    dict_get stacked "input_ids" = Some rows' /\
    List.concat rows' = rem ++ List.concat rows.
Proof.
  intros Hkeys Hrem Hrows. unfold _stack_batch_encodings.
  destruct (stack_items_spec (dict_map Flat extra) (dict_map Flat extra)
              (dict_map Batched doc)) as (r & Er & Kr & Gr).
  { intros k Hk. rewrite dict_map_keys in Hk. split.
    - destruct (dict_get_in extra k Hk) as (x & Hx).
      rewrite dict_get_map, Hx. simpl. eauto.
    - rewrite <- Hkeys in Hk. destruct (dict_get_in doc k Hk) as (y & Hy).
      rewrite dict_get_map, Hy. simpl. eauto. }
  exists r, (_ensure_batched (Flat rem) ++ _ensure_batched (Batched rows)).
  split; [exact Er|]. split; [now rewrite Kr, dict_map_keys|]. split.
  - apply Gr.
    + rewrite dict_map_keys.
      clear -Hrem. induction extra as [|[k y] extra IH]; [discriminate|].
      simpl in *. destruct (String.eqb_spec k "input_ids"); auto.
    + now rewrite dict_get_map, Hrem.
    + now rewrite dict_get_map, Hrows.
  - now rewrite concat_app, ensure_batched_flat, ensure_batched_rows.
Qed.

Section Consume.

Import TokenSeqDataset.

Variable s : nat.

(** Whatever the slices, an array that is yielded is not shorter than
    [seq_len]. *)
Lemma consume_yields_long (slices : list (dict (list Z))) :
  forall extra,
    Forall (fun ids => (s <= List.length ids)%nat)
      (yielded (fst (consume (Z.of_nat s) extra slices))).
Proof.
  induction slices as [|d slices IH]; intros extra; cbn [consume].
  - constructor.
  - destruct (dict_item d "input_ids") as [ids|e]; [|constructor].
    destruct (Z.of_nat (List.length ids) <? Z.of_nat s) eqn:E.
    + destruct extra; [constructor|apply IH].
    + specialize (IH None).
      destruct (consume (Z.of_nat s) None slices) as [st e'].
      cbn [fst stream_cons yielded] in *. constructor; [|exact IH].
      apply Z.ltb_ge in E. lia.
Qed.

(** The arrays yielded come from the slices. *)
Lemma consume_yields_from (slices : list (dict (list Z))) :
  forall extra,
    Forall (fun ids => exists d, In d slices
                       /\ dict_get d "input_ids" = Some ids)
      (yielded (fst (consume (Z.of_nat s) extra slices))).
Proof.
  induction slices as [|d slices IH]; intros extra; cbn [consume].
  - constructor.
  - unfold dict_item.
    destruct (dict_get d "input_ids") as [ids|] eqn:Hd; [|constructor].
    assert (Hweak : forall e0,
               Forall (fun ids0 => exists d0, In d0 (d :: slices)
                                   /\ dict_get d0 "input_ids" = Some ids0)
                 (yielded (fst (consume (Z.of_nat s) e0 slices)))).
    { intros e0. eapply Forall_impl; [|apply (IH e0)].
      intros ids0 (d0 & Hin & H0). exists d0. split; [now right|exact H0]. }
    destruct (Z.of_nat (List.length ids) <? Z.of_nat s).
    + destruct extra; [constructor|apply Hweak].
    + specialize (Hweak None).
      destruct (consume (Z.of_nat s) None slices) as [st e'].
      cbn [fst stream_cons yielded] in *. constructor; [|exact Hweak].
      exists d. split; [now left|exact Hd].
Qed.

End Consume.

(** The [input_ids] of an emitted window is never longer than
    [seq_len], whatever the stride and the flags. *)
Lemma emitted_input_ids_narrow (encoding : dict (list (list Z))) (s : nat)
    (stride : option Z) (drop_remainder mask_stride_overlap : bool) :
  Forall (fun d => forall ids, dict_get d "input_ids" = Some ids ->
                   (List.length ids <= s)%nat)
    (yielded (concatenate_and_group_texts encoding (Z.of_nat s) stride
                drop_remainder mask_stride_overlap)).
Proof.
  unfold concatenate_and_group_texts, dict_attr.
  destruct (dict_get (dict_map (@List.concat Z) encoding) "input_ids")
    as [tokens|] eqn:Hids; [|constructor].
  cbn [Py.bind].
  destruct (window_begins _ _ _ _) as [[stride' begins]|e]; [|constructor].
  destruct (windows_all _ tokens (Z.of_nat s) stride' mask_stride_overlap
              Hids begins) as (ds & E & F).
  rewrite E. cbn [yielded]. clear E.
  induction F as [|b data begins ds Hw F IH]; constructor; [|exact IH].
  intros ids Hd.
  destruct (window_input_ids _ tokens (Z.of_nat s) stride' mask_stride_overlap
              Hids b) as (data' & Hw' & Hids').
  assert (data' = data) by congruence. subst data'.
  assert (ids = slice tokens b (b + Z.of_nat s)) by congruence. subst ids.
  pose proof (slice_length_le tokens b (Z.of_nat s) ltac:(lia)). lia.
Qed.

Section IterDocs.

Import TokenSeqDataset.

Variable s : nat.

(** Every array yielded has exactly [seq_len] entries: any stride, any
    documents, whether or not the iteration ends in an exception. *)
Lemma iter_docs_lengths (stride : option Z) (docs : list (dict (list (list Z)))) :
  forall extra,
    Forall (fun ids => List.length ids = s)
      (yielded (iter_docs (Z.of_nat s) stride extra docs)).
Proof.
  induction docs as [|doc docs IH]; intros extra; cbn [iter_docs].
  - constructor.
  - destruct (match extra with
              | Some e => _stack_batch_encodings (dict_map Flat e)
                            (dict_map Batched doc)
              | None => Ok doc
              end) as [doc'|e]; [|constructor].
    pose proof (emitted_input_ids_narrow doc' s stride false true) as Hnarrow.
    set (slices := concatenate_and_group_texts doc' (Z.of_nat s) stride
                     false true) in *.
    pose proof (consume_yields_long s (yielded slices) None) as Hlong.
    pose proof (consume_yields_from s (yielded slices) None) as Hfrom.
    destruct (consume (Z.of_nat s) None (yielded slices)) as [st extra'].
    cbn [fst] in *.
    assert (Hst : Forall (fun ids => List.length ids = s) (yielded st)).
    { rewrite Forall_forall in *. intros ids Hin.
      destruct (Hfrom ids Hin) as (d & Hd & Hids).
      specialize (Hnarrow d Hd ids Hids). specialize (Hlong ids Hin). lia. }
    destruct (raised st); [exact Hst|].
    destruct (raised slices); [exact Hst|].
    cbn [yielded]. apply Forall_app. split; [exact Hst|apply IH].
Qed.

Hypothesis s_pos : (0 < s)%nat.

Variable concatenated : dict (list Z).
Variable tokens : list Z.
Hypothesis has_input_ids : dict_get concatenated "input_ids" = Some tokens.

(** The window of position [i] when there is no overlap. *)
Let W (i : nat) : dict (list Z) :=
  dict_map (fun v => slice v (Z.of_nat i * Z.of_nat s)
                       (Z.of_nat i * Z.of_nat s + Z.of_nat s)) concatenated.

Let block (i : nat) : list Z := firstn s (skipn (i * s) tokens).

Lemma W_input_ids (i : nat) : dict_item (W i) "input_ids" = Ok (block i).
Proof.
  unfold dict_item, W, block. rewrite dict_get_map, has_input_ids.
  cbn [option_map]. rewrite slice_from by lia.
  rewrite Nat2Z.id. do 3 f_equal. lia.
Qed.

Let q := (List.length tokens / s)%nat.

Lemma block_full (i : nat) : (i < q)%nat -> List.length (block i) = s.
Proof.
  intros Hi. unfold block. rewrite length_firstn, length_skipn.
  pose proof (Nat.div_mod_eq (List.length tokens) s). fold q in H. nia.
Qed.

Lemma block_last :
  block q = skipn (q * s) tokens /\
  List.length (block q) = (List.length tokens mod s)%nat.
Proof.
  pose proof (Nat.div_mod_eq (List.length tokens) s) as Hdm. fold q in Hdm.
  pose proof (Nat.mod_upper_bound (List.length tokens) s ltac:(lia)) as Hm.
  assert (Hl : List.length (skipn (q * s) tokens)
               = (List.length tokens mod s)%nat)
    by (rewrite length_skipn; lia).
  unfold block. rewrite firstn_all2 by lia. auto.
Qed.

(** The full windows are yielded one after the other. *)
Lemma consume_full (l : list nat) (rest : list (dict (list Z))) :
  Forall (fun i => i < q)%nat l ->
  consume (Z.of_nat s) None (map W l ++ rest)
  = ({| yielded := map block l
                   ++ yielded (fst (consume (Z.of_nat s) None rest));
        raised := raised (fst (consume (Z.of_nat s) None rest)) |},
     snd (consume (Z.of_nat s) None rest)).
Proof.
  induction 1 as [|i l Hi Hl IH]; cbn [map app].
  - now destruct (consume (Z.of_nat s) None rest) as [[ys r] e].
  - cbn [consume]. rewrite W_input_ids.
    rewrite (block_full i Hi), Z.ltb_irrefl, IH. reflexivity.
Qed.

(** All the windows of a token stream without overlap: the full blocks
    are yielded and what remains of the stream is carried over. *)
Lemma consume_windows (n : nat) :
  n = (if (List.length tokens mod s =? 0)%nat then q else S q) ->
  exists extra,
    consume (Z.of_nat s) None (map W (seq 0 n))
    = ({| yielded := map block (seq 0 q); raised := None |}, extra) /\
    match extra with
    | None => skipn (q * s) tokens = []
    | Some d => d = W q /\ skipn (q * s) tokens <> []
    end.
Proof.
  intros Hn.
  pose proof (Nat.div_mod_eq (List.length tokens) s) as Hdm. fold q in Hdm.
  pose proof (Nat.mod_upper_bound (List.length tokens) s ltac:(lia)) as Hm.
  assert (Hq : Forall (fun i => i < q)%nat (seq 0 q)).
  { apply Forall_forall. intros i Hi. apply in_seq in Hi. lia. }
  destruct (List.length tokens mod s =? 0)%nat eqn:E; subst n.
  - apply Nat.eqb_eq in E. exists None.
    rewrite <- (app_nil_r (map W (seq 0 q))), consume_full by assumption.
    cbn [consume fst snd stream_nil yielded raised].
    rewrite app_nil_r. split; [reflexivity|].
    apply skipn_all2. lia.
  - apply Nat.eqb_neq in E. exists (Some (W q)).
    rewrite seq_S, map_app, consume_full by assumption.
    cbn [map Nat.add consume]. rewrite W_input_ids.
    destruct block_last as [Hb Hbl]. rewrite Hbl.
    replace (Z.of_nat (List.length tokens mod s) <? Z.of_nat s) with true
      by (symmetry; apply Z.ltb_lt; lia).
    cbn [consume fst snd stream_nil yielded raised].
    rewrite app_nil_r. split; [reflexivity|]. split; [reflexivity|].
    intros H0. apply (f_equal (@List.length Z)) in H0.
    rewrite length_skipn in H0. simpl in H0. lia.
Qed.

End IterDocs.

Lemma Forall2_eq_map {A B : Type} (f : A -> B) (l : list A) (l' : list B) :
  Forall2 (fun a b => b = f a) l l' -> l' = map f l.
Proof. induction 1; simpl; congruence. Qed.

Section CarryOver.

Import TokenSeqDataset.

Variable s : nat.
Variable stride : option Z.
Hypothesis s_pos : (0 < s)%nat.
Hypothesis same_stride : int_or stride (Z.of_nat s) = Z.of_nat s.

(** One document, the carried tokens already stacked in front of it. *)
Lemma doc_windows (doc : dict (list (list Z))) (rows : list (list Z)) :
  dict_get doc "input_ids" = Some rows ->
  let tokens := List.concat rows in
  let q := (List.length tokens / s)%nat in
  let slices := concatenate_and_group_texts doc (Z.of_nat s) stride false true in
  exists extra,
    raised slices = None /\
    consume (Z.of_nat s) None (yielded slices)
    = ({| yielded := map (fun i => firstn s (skipn (i * s) tokens)) (seq 0 q);
          raised := None |}, extra) /\
    match extra with
    | None => skipn (q * s) tokens = []
    | Some d =>
        dict_get d "input_ids" = Some (skipn (q * s) tokens) /\
        map fst d = map fst doc /\
        skipn (q * s) tokens <> []
    end.
Proof.
  intros Hrows tokens q slices.
  destruct (no_overlap_windows doc rows s stride true s_pos same_stride Hrows)
    as (ds & E & Hlen & F).
  apply Forall2_eq_map in F.
  assert (Hconc : dict_get (dict_map (@List.concat Z) doc) "input_ids"
                  = Some tokens)
    by now rewrite dict_get_map, Hrows.
  destruct (consume_windows s s_pos _ tokens Hconc (List.length ds) Hlen)
    as (extra & Hc & Hextra).
  exists extra. unfold slices. rewrite E. cbn [raised yielded].
  split; [reflexivity|]. rewrite F at 1. split; [exact Hc|].
  destruct extra as [d|]; [|exact Hextra].
  destruct Hextra as [-> Hne]. split; [|split; [|exact Hne]].
  - rewrite dict_get_map, Hconc. cbn [option_map]. f_equal.
    rewrite slice_from by lia. rewrite Nat2Z.id.
    replace (Z.to_nat (Z.of_nat (List.length tokens / s) * Z.of_nat s))
      with (List.length tokens / s * s)%nat by lia.
    apply (block_last s s_pos tokens).
  - now rewrite !dict_map_keys.
Qed.

(** One turn of the outer loop that ends without exception. *)
Lemma iter_docs_turn (extra extra' : option (dict (list Z)))
    (doc doc' : dict (list (list Z))) (docs : list (dict (list (list Z))))
    (ys : list (list Z)) :
  match extra with
  | Some e => _stack_batch_encodings (dict_map Flat e) (dict_map Batched doc)
  | None => Ok doc
  end = Ok doc' ->
  raised (concatenate_and_group_texts doc' (Z.of_nat s) stride false true)
  = None ->
  consume (Z.of_nat s) None
    (yielded (concatenate_and_group_texts doc' (Z.of_nat s) stride false true))
  = ({| yielded := ys; raised := None |}, extra') ->
  iter_docs (Z.of_nat s) stride extra (doc :: docs)
  = {| yielded := ys ++ yielded (iter_docs (Z.of_nat s) stride extra' docs);
       raised := raised (iter_docs (Z.of_nat s) stride extra' docs) |}.
Proof.
  intros Es Hr Hc. cbn [iter_docs].
  destruct extra as [e|]; [rewrite Es | injection Es as ->];
    rewrite Hc, Hr; reflexivity.
Qed.

Variable ks : list string.
Hypothesis ks_input_ids : In "input_ids" ks.

(** What is carried from one document to the next: nothing, or a slice
    with the fields of the documents. *)
Let carries (extra : option (dict (list Z))) (rem : list Z) : Prop :=
  match extra with
  | None => rem = []
  | Some d => dict_get d "input_ids" = Some rem /\ map fst d = ks
  end.

Lemma iter_docs_no_overlap (docs : list (dict (list (list Z)))) :
  Forall (fun doc => map fst doc = ks) docs ->
  forall (extra : option (dict (list Z))) (rem : list Z),
    carries extra rem ->
    (List.length rem < s)%nat ->
    let tokens := rem ++ List.concat (map doc_tokens docs) in
    let st := iter_docs (Z.of_nat s) stride extra docs in
    raised st = None /\
    List.concat (yielded st) = firstn (List.length tokens / s * s) tokens.
Proof.
  induction 1 as [|doc docs Hdoc Hdocs IH]; intros extra rem Hcar Hrem.
  - cbn. rewrite app_nil_r, Nat.div_small by assumption.
    split; reflexivity.
  - intros tokens st.
    assert (Hin : In "input_ids" (map fst doc)) by now rewrite Hdoc.
    destruct (dict_get_in doc _ Hin) as (rows & Hrows).
    assert (Hstack : exists doc' rows',
               match extra with
               | Some e => _stack_batch_encodings (dict_map Flat e)
                             (dict_map Batched doc)
               | None => Ok doc
               end = Ok doc' /\
               map fst doc' = ks /\
               dict_get doc' "input_ids" = Some rows' /\
               List.concat rows' = rem ++ List.concat rows).
    { destruct extra as [e|]; simpl in Hcar.
      - destruct Hcar as [He Hk].
        destruct (stack_carry e doc rem rows ltac:(congruence) He Hrows)
          as (stacked & rows' & E & K & G & C).
        exists stacked, rows'. repeat split; auto. congruence.
      - subst rem. exists doc, rows. auto. }
    destruct Hstack as (doc' & rows' & Es & Ks & Gs & Cs).
    destruct (doc_windows doc' rows' Gs) as (extra' & Hr & Hc & Hextra).
    subst st.
    pose proof (iter_docs_turn extra extra' doc doc' docs _ Es Hr Hc) as Ht.
    unfold dict in Ht |- *. rewrite Ht. clear Ht.
    cbn [raised yielded].
    set (T1 := List.concat rows') in *.
    set (q1 := (List.length T1 / s)%nat) in *.
    pose proof (Nat.div_mod_eq (List.length T1) s) as Hdm. fold q1 in Hdm.
    pose proof (Nat.mod_upper_bound (List.length T1) s ltac:(lia)) as Hm.
    destruct (IH extra' (skipn (q1 * s) T1)) as [IHr IHc].
    { destruct extra' as [d|]; simpl.
      - destruct Hextra as (Hd & Hk & _). split; [exact Hd|congruence].
      - exact Hextra. }
    { rewrite length_skipn. lia. }
    split; [exact IHr|].
    rewrite concat_app, IHc, concat_blocks.
    set (R := List.concat (map doc_tokens docs)) in *.
    set (T2 := skipn (q1 * s) T1 ++ R) in *.
    assert (HT : tokens = firstn (q1 * s) T1 ++ T2).
    { unfold tokens, T2. cbn [map List.concat]. fold R.
      unfold doc_tokens at 1. rewrite Hrows.
      rewrite app_assoc, <- Cs. fold T1.
      now rewrite app_assoc, firstn_skipn. }
    assert (HA : List.length (firstn (q1 * s) T1) = (q1 * s)%nat)
      by (rewrite length_firstn; lia).
    rewrite HT, length_app, HA.
    rewrite Nat.div_add_l by lia. rewrite Nat.mul_add_distr_r.
    rewrite <- HA at 2. now rewrite firstn_app_2.
Qed.

End CarryOver.

(** C5: the carry-over that [__iter__] performs under the default
    stride breaks when a stride is given. With [seq_len = 8] and
    [stride = 4], a first document of three tokens produces no slice at
    all ([range(0, 3 - 8 + 4, 4)] is empty): its tokens are neither
    yielded nor carried over, and the only window yielded holds tokens
    of the second document alone. With a first document of five tokens
    the short slice is carried over, and stacking it on the next
    document raises [KeyError], the slice having a [labels] field that
    the document lacks: the iteration ends there, having yielded
    nothing. *)
Lemma token_seq_strided_carry_fails :
  TokenSeqDataset.__iter__
    {| TokenSeqDataset.doc_cache :=
         [document [1; 2; 3]; document [4; 5; 6; 7; 8; 9; 10; 11; 12]];
       TokenSeqDataset.seq_len := 8;
       TokenSeqDataset.stride := Some 4 |}
  = {| yielded := [[4; 5; 6; 7; 8; 9; 10; 11]]; raised := None |} /\
  TokenSeqDataset.__iter__
    {| TokenSeqDataset.doc_cache :=
         [document [1; 2; 3; 4; 5]; document [6; 7; 8; 9; 10; 11; 12]];
       TokenSeqDataset.seq_len := 8;
       TokenSeqDataset.stride := Some 4 |}
  = {| yielded := []; raised := Some KeyError |}.
Proof. split; reflexivity. Qed.

(** X22: every array yielded by [TokenSeqDataset.__iter__] has
    exactly [seq_len] entries, whatever the stride. When the stride is
    left to its default or equals [seq_len], and the documents share
    their fields, the iteration ends without exception and the arrays
    yielded, end to end, are the first [floor(L / seq_len) * seq_len]
    tokens of the documents laid end to end: what a document leaves
    short of a window is put in front of the next document, and only
    the last remainder, shorter than [seq_len], is lost, at the end of
    the documents. *)
Theorem token_seq_dataset_windows (self : TokenSeqDataset.t) :
  0 < TokenSeqDataset.seq_len self ->
  Forall (fun ids => Z.of_nat (List.length ids) = TokenSeqDataset.seq_len self)
    (yielded (TokenSeqDataset.__iter__ self))
  /\ forall ks : list string,
       int_or (TokenSeqDataset.stride self) (TokenSeqDataset.seq_len self)
       = TokenSeqDataset.seq_len self ->
       In "input_ids" ks ->
       Forall (fun doc => map fst doc = ks) (TokenSeqDataset.doc_cache self) ->
       let tokens :=
         List.concat (map doc_tokens (TokenSeqDataset.doc_cache self)) in
       raised (TokenSeqDataset.__iter__ self) = None /\
       List.concat (yielded (TokenSeqDataset.__iter__ self))
       = firstn (Z.to_nat (Z.of_nat (List.length tokens)
                           / TokenSeqDataset.seq_len self
                           * TokenSeqDataset.seq_len self)) tokens.
Proof.
  destruct self as [docs seq_len stride]. unfold TokenSeqDataset.__iter__.
  cbn [TokenSeqDataset.seq_len TokenSeqDataset.stride TokenSeqDataset.doc_cache].
  intros Hpos.
  rewrite <- (Z2Nat.id seq_len) by lia.
  assert (Hs : (0 < Z.to_nat seq_len)%nat) by lia.
  set (s := Z.to_nat seq_len) in *. clearbody s. clear Hpos seq_len.
  split.
  - pose proof (iter_docs_lengths s stride docs None) as H.
    rewrite Forall_forall in *. intros ids Hin. now rewrite (H ids Hin).
  - intros ks Hstride Hks Hdocs.
    destruct (iter_docs_no_overlap s stride Hs Hstride ks Hks docs Hdocs
                None [] eq_refl Hs) as [Hr Hc].
    split; [exact Hr|]. rewrite Hc. cbn [app].
    now rewrite <- Nat2Z.inj_div, <- Nat2Z.inj_mul, Nat2Z.id.
Qed.

Lemma token_seq_dataset_windows_witness :
  let self :=
    {| TokenSeqDataset.doc_cache :=
         [document [0; 1; 2; 3; 4; 5; 6; 7; 8; 9];
          document [10; 11; 12; 13; 14; 15; 16; 17; 18; 19; 20; 21; 22; 23; 24]];
       TokenSeqDataset.seq_len := 8;
       TokenSeqDataset.stride := None |} in
  0 < TokenSeqDataset.seq_len self /\
  Forall (fun ids => Z.of_nat (List.length ids) = 8)
    (yielded (TokenSeqDataset.__iter__ self)) /\
  raised (TokenSeqDataset.__iter__ self) = None /\
  List.concat (yielded (TokenSeqDataset.__iter__ self))
  = [0; 1; 2; 3; 4; 5; 6; 7; 8; 9; 10; 11; 12; 13; 14; 15; 16; 17; 18; 19;
     20; 21; 22; 23].
Proof.
  intros self.
  assert (Hpos : 0 < TokenSeqDataset.seq_len self) by (simpl; lia).
  destruct (token_seq_dataset_windows self Hpos) as [Hlen Hcarry].
  split; [exact Hpos|]. split; [exact Hlen|].
  exact (Hcarry ["input_ids"] eq_refl (or_introl eq_refl)
           ltac:(repeat constructor)).
Defined.

(** ** CausalLmDataset: the key handed to each example *)

(** When [hax.named] accepts every window, the named arrays are all
    there and nothing is raised. *)
Lemma named_windows_all {Axis NamedArray : Type}
    (named : list Z -> Axis -> result NamedArray) (axis : Axis)
    (windows : list (list Z)) (arrays : list NamedArray) :
  Forall2 (fun tokens a => named tokens axis = Ok a) windows arrays ->
  named_windows named axis windows = {| yielded := arrays; raised := None |}.
Proof.
  induction 1 as [|w a windows arrays Hw _ IH]; [reflexivity|].
  cbn [named_windows]. now rewrite Hw, IH.
Qed.

Section ForgetfulMask.

Import CausalLmDataset.

Variables PRNGKey Axis Prob Mask NamedArray : Type.
Variable split : PRNGKey -> PRNGKey * PRNGKey.
Variable forgetful_causal_mask : Axis -> Prob -> PRNGKey -> Mask.
Variable positive : Prob -> bool.
Variable named : list Z -> Axis -> result NamedArray.

Let create := _create_lm_example split forgetful_causal_mask positive named.
Let iterate := __iter__ split forgetful_causal_mask positive named.

(** The example built from a named window under the key [k]. *)
Let example_under (self : t PRNGKey Axis Prob) (k : PRNGKey)
    (tokens : NamedArray) : LmExample Mask NamedArray :=
  {| tokens := tokens;
     ignore_id := ignore_index self;
     attn_mask :=
       And Causal
         (Explicit (forgetful_causal_mask (KPos self) (fcm_prob self)
                      (fst (split k)))) |}.

Lemma create_lm_example_key (self : t PRNGKey Axis Prob) (root k : PRNGKey)
    (tokens : list Z) :
  positive (fcm_prob self) = true ->
  key self = Some root ->
  create self tokens (Some k)
  = (a <- named tokens (QPos self) ;; Ok (example_under self k a)).
Proof.
  intros Hp Hk. unfold create, _create_lm_example, example_under.
  destruct (named tokens (QPos self)) as [a|e]; cbn [Py.bind]; [|reflexivity].
  rewrite Hp, Hk. destruct (split k). reflexivity.
Qed.

Lemma examples_key (self : t PRNGKey Axis Prob) (root k : PRNGKey)
    (windows : list (list Z)) :
  positive (fcm_prob self) = true ->
  key self = Some root ->
  examples split forgetful_causal_mask positive named self (Some k) windows
  = {| yielded :=
         map (example_under self k)
           (yielded (named_windows named (QPos self) windows));
       raised := raised (named_windows named (QPos self) windows) |}.
Proof.
  intros Hp Hk. induction windows as [|w windows IH]; [reflexivity|].
  cbn [examples named_windows]. fold create.
  rewrite (create_lm_example_key self root k w Hp Hk).
  destruct (named w (QPos self)) as [a|e]; cbn [Py.bind]; [|reflexivity].
  rewrite IH. reflexivity.
Qed.

(** C8: with a positive probability and a root key, [__iter__] is a
    function of the root key and the windows (two iterations give the
    same examples), and it raises only what [hax.named] raises, on the
    first window it refuses: it ends without exception when every window
    is accepted. But the key handed to the inner function is the root
    key at every window, so every example draws its forgetful mask from
    the same subkey, the first half of the split of the root key, and no
    fresh subkey is derived from one example to the next. *)
Theorem fcm_subkey_is_reused (self : t PRNGKey Axis Prob) (root : PRNGKey) :
  positive (fcm_prob self) = true ->
  key self = Some root ->
  let example (tokens : NamedArray) :=
    {| tokens := tokens;
       ignore_id := ignore_index self;
       attn_mask :=
         And Causal
           (Explicit
              (forgetful_causal_mask (KPos self) (fcm_prob self)
                 (fst (split root)))) |} in
  iterate self
  = {| yielded :=
         map example
           (yielded (named_windows named (QPos self) (dataset self)));
       raised := raised (named_windows named (QPos self) (dataset self)) |}
  /\ forall arrays : list NamedArray,
       Forall2 (fun tokens a => named tokens (QPos self) = Ok a)
         (dataset self) arrays ->
       iterate self = {| yielded := map example arrays; raised := None |}.
Proof.
  intros Hp Hk example.
  assert (E : iterate self
              = {| yielded :=
                     map example
                       (yielded (named_windows named (QPos self)
                                   (dataset self)));
                   raised := raised (named_windows named (QPos self)
                                       (dataset self)) |}).
  { unfold iterate, __iter__. rewrite Hk.
    exact (examples_key self root root (dataset self) Hp Hk). }
  split; [exact E|].
  intros arrays Hall. rewrite E.
  now rewrite (named_windows_all named (QPos self) (dataset self) arrays Hall).
Qed.

End ForgetfulMask.

Lemma fcm_subkey_is_reused_witness :
  (0 <? CausalLmDataset.fcm_prob toy_dataset) = true /\
  CausalLmDataset.key toy_dataset = Some 7 /\
  Forall2 (fun tokens a => toy_named tokens ("position", 4%nat) = Ok a)
    (CausalLmDataset.dataset toy_dataset)
    [("position", 4%nat, [1; 2; 3; 4]); ("position", 4%nat, [5; 6; 7; 8])] /\
  CausalLmDataset.__iter__ toy_split toy_forgetful_causal_mask
    (fun p => 0 <? p) toy_named toy_dataset
  = {| yielded :=
         [ {| CausalLmDataset.tokens := ("position", 4%nat, [1; 2; 3; 4]);
              CausalLmDataset.ignore_id := None;
              CausalLmDataset.attn_mask :=
                CausalLmDataset.And CausalLmDataset.Causal
                  (CausalLmDataset.Explicit 14) |};
           {| CausalLmDataset.tokens := ("position", 4%nat, [5; 6; 7; 8]);
              CausalLmDataset.ignore_id := None;
              CausalLmDataset.attn_mask :=
                CausalLmDataset.And CausalLmDataset.Causal
                  (CausalLmDataset.Explicit 14) |} ];
       raised := None |}.
Proof.
  assert (Hall : Forall2
                   (fun tokens a => toy_named tokens ("position", 4%nat) = Ok a)
                   (CausalLmDataset.dataset toy_dataset)
                   [("position", 4%nat, [1; 2; 3; 4]);
                    ("position", 4%nat, [5; 6; 7; 8])])
    by (repeat constructor).
  split; [reflexivity|]. split; [reflexivity|]. split; [exact Hall|].
  exact (proj2 (fcm_subkey_is_reused Z (string * nat)%type Z Z
                  (string * nat * list Z)%type toy_split
                  toy_forgetful_causal_mask (fun p => 0 <? p) toy_named
                  toy_dataset 7 eq_refl eq_refl) _ Hall).
Defined.

(** ** Windows, Np.store level *)

Lemma valid_app (h delta : Np.store) (a : Np.ndarray) :
  Np.valid h a -> Np.valid (h ++ delta) a.
Proof.
  intros [Hb Ho]. split.
  - rewrite length_app. lia.
  - now rewrite app_nth1.
Qed.

(** Buffers are only added: an Np.array reads the same later on. *)
Lemma read_app (h delta : Np.store) (a : Np.ndarray) :
  Np.valid h a -> Np.read (h ++ delta) a = Np.read h a.
Proof. intros [Hb _]. unfold Np.read. now rewrite app_nth1. Qed.

Lemma read_length (h : Np.store) (a : Np.ndarray) :
  Np.valid h a -> List.length (Np.read h a) = Np.size a.
Proof.
  intros [_ Ho]. unfold Np.read. rewrite length_firstn, length_skipn. lia.
Qed.

Lemma view_valid (h : Np.store) (a : Np.ndarray) (b e : Z) :
  Np.valid h a -> Np.valid h (Np.view a b e).
Proof.
  intros [Hb Ho]. split; cbn [Np.view Np.base Np.offset Np.size]; [exact Hb|].
  pose proof (clamp_le (Np.size a) b). pose proof (clamp_le (Np.size a) e). lia.
Qed.

(** A Np.view reads the slice of what its Np.array reads. *)
Lemma read_view (h : Np.store) (a : Np.ndarray) (b e : Z) :
  Np.valid h a -> Np.read h (Np.view a b e) = slice (Np.read h a) b e.
Proof.
  intros Hv. unfold slice. rewrite (read_length h a Hv).
  unfold Np.read. cbn [Np.view Np.base Np.offset Np.size].
  pose proof (clamp_le (Np.size a) b) as Hlo.
  pose proof (clamp_le (Np.size a) e) as Hhi.
  set (lo := clamp (Np.size a) b) in *. set (hi := clamp (Np.size a) e) in *.
  rewrite skipn_firstn_comm, skipn_skipn, firstn_firstn.
  replace (Nat.min (hi - lo) (Np.size a - lo)) with (hi - lo)%nat by lia.
  now rewrite Nat.add_comm.
Qed.

Lemma array_spec (h : Np.store) (l : list Z) :
  Np.valid (fst (Np.array h l)) (snd (Np.array h l)) /\
  Np.read (fst (Np.array h l)) (snd (Np.array h l)) = l /\
  fst (Np.array h l) = h ++ [l].
Proof.
  unfold Np.array, Np.valid, Np.read. cbn [fst snd Np.base Np.offset Np.size].
  rewrite length_app, app_nth2, Nat.sub_diag by lia. cbn [nth skipn List.length].
  repeat split; try lia. apply firstn_all.
Qed.

Lemma set_buffer_last (h : Np.store) (buf buf' : list Z) :
  Np.set_buffer (h ++ [buf]) (List.length h) buf' = h ++ [buf'].
Proof. induction h as [|x h IH]; simpl; [reflexivity|]. now rewrite IH. Qed.

Lemma fill_slice_length (l : list Z) (b e x : Z) :
  List.length (fill_slice l b e x) = List.length l.
Proof.
  unfold fill_slice.
  pose proof (clamp_le (List.length l) b). pose proof (clamp_le (List.length l) e).
  rewrite !length_app, length_firstn, repeat_length, length_skipn. lia.
Qed.

(** The mask is written into a copy: the Np.store gains one buffer, and
    the Np.array returned reads the masked entries. *)
Lemma mask_overlap_spec (h : Np.store) (labels : Np.ndarray)
    (target_len stride sentinel : Z) :
  let masked := _mask_overlap (Np.read h labels) target_len stride sentinel in
  Np._mask_overlap h labels target_len stride sentinel
  = (h ++ [masked],
     {| Np.base := List.length h; Np.offset := 0; Np.size := List.length masked |}).
Proof.
  unfold Np._mask_overlap, Np.deepcopy, Np.array, Np.assign, _mask_overlap.
  cbn [Np.view Np.base Np.offset Np.size Nat.add].
  rewrite app_nth2, Nat.sub_diag by lia. cbn [nth].
  rewrite set_buffer_last, fill_slice_length. reflexivity.
Qed.

Lemma mask_overlap_read (h : Np.store) (labels : Np.ndarray)
    (target_len stride sentinel : Z) :
  let r := Np._mask_overlap h labels target_len stride sentinel in
  Np.valid (fst r) (snd r) /\
  Np.read (fst r) (snd r)
  = _mask_overlap (Np.read h labels) target_len stride sentinel.
Proof.
  cbv zeta. rewrite mask_overlap_spec. cbn [fst snd].
  unfold Np.valid, Np.read. cbn [Np.base Np.offset Np.size].
  rewrite length_app, app_nth2, Nat.sub_diag by lia. cbn [nth skipn List.length].
  repeat split; try lia. apply firstn_all.
Qed.

Lemma dict_get_Forall {V : Type} (P : V -> Prop) (d : dict V) (k : string) (x : V) :
  Forall (fun kv => P (snd kv)) d -> dict_get d k = Some x -> P x.
Proof.
  induction 1 as [|[k' y] d Hy Hd IH]; simpl; [discriminate|].
  destruct (String.eqb k' k); [intros [= <-]; exact Hy | exact IH].
Qed.

Lemma dict_set_Forall {V : Type} (P : V -> Prop) (d : dict V) (k : string) (x : V) :
  Forall (fun kv => P (snd kv)) d -> P x ->
  Forall (fun kv => P (snd kv)) (dict_set d k x).
Proof.
  intros Hd Hx. induction Hd as [|[k' y] d Hy Hd IH]; simpl.
  - repeat constructor. exact Hx.
  - destruct (String.eqb k' k); constructor; auto.
Qed.

Lemma dict_map_ext_Forall {V W : Type} (P : V -> Prop) (f g : V -> W) (d : dict V) :
  Forall (fun kv => P (snd kv)) d -> (forall x, P x -> f x = g x) ->
  dict_map f d = dict_map g d.
Proof.
  intros Hd Hfg. induction Hd as [|[k y] d Hy Hd IH]; [reflexivity|].
  unfold dict_map in *. simpl in *. rewrite IH. f_equal. f_equal. auto.
Qed.

Lemma dict_map_Forall {V W : Type} (P : V -> Prop) (Q : W -> Prop) (f : V -> W)
    (d : dict V) :
  Forall (fun kv => P (snd kv)) d -> (forall x, P x -> Q (f x)) ->
  Forall (fun kv => Q (snd kv)) (dict_map f d).
Proof.
  intros Hd Hf. induction Hd as [|[k y] d Hy Hd IH]; simpl; constructor;
    [apply Hf; exact Hy | exact IH].
Qed.

(** The arrays of a dict are all arrays of the store. *)
Lemma read_window_app (h delta : Np.store) (d : dict Np.ndarray) :
  Forall (fun kv => Np.valid h (snd kv)) d ->
  Np.read_window (h ++ delta) d = Np.read_window h d.
Proof.
  intros Hd. unfold Np.read_window.
  apply dict_map_ext_Forall with (P := Np.valid h); [exact Hd|].
  intros a Ha. now apply read_app.
Qed.

Lemma valid_window_app (h delta : Np.store) (d : dict Np.ndarray) :
  Forall (fun kv => Np.valid h (snd kv)) d ->
  Forall (fun kv => Np.valid (h ++ delta) (snd kv)) d.
Proof.
  intros Hd. eapply Forall_impl; [|exact Hd].
  intros kv Hkv. now apply valid_app.
Qed.

Lemma read_window_views (h : Np.store) (d : dict Np.ndarray) (b e : Z) :
  Forall (fun kv => Np.valid h (snd kv)) d ->
  Np.read_window h (dict_map (fun v => Np.view v b e) d)
  = dict_map (fun v => slice v b e) (Np.read_window h d).
Proof.
  intros Hd. unfold Np.read_window. rewrite !dict_map_map.
  apply dict_map_ext_Forall with (P := Np.valid h); [exact Hd|].
  intros a Ha. now apply read_view.
Qed.

(** One window: the store-level body reads as the value-level one. *)
Lemma window_refines (h : Np.store) (concatenated : dict Np.ndarray)
    (seq_len stride : Z) (mask_stride_overlap : bool) (begin : Z) :
  Forall (fun kv => Np.valid h (snd kv)) concatenated ->
  match Np.window h concatenated seq_len stride mask_stride_overlap begin with
  | Ok (h', data) =>
      (exists delta, h' = h ++ delta) /\
      Forall (fun kv => Np.valid h' (snd kv)) data /\
      window (Np.read_window h concatenated) seq_len stride
        mask_stride_overlap begin
      = Ok (Np.read_window h' data)
  | Raise e =>
      window (Np.read_window h concatenated) seq_len stride
        mask_stride_overlap begin
      = Raise e
  end.
Proof.
  intros Hc. unfold Np.window, window.
  rewrite <- read_window_views by assumption.
  set (data := dict_map (fun v => Np.view v begin (begin + seq_len)) concatenated).
  assert (Hdata : Forall (fun kv => Np.valid h (snd kv)) data).
  { unfold data. eapply dict_map_Forall; [exact Hc|].
    intros a Ha. now apply view_valid. }
  destruct (mask_stride_overlap && negb (stride =? seq_len)).
  2:{ split; [exists []; now rewrite app_nil_r|]. split; [exact Hdata|reflexivity]. }
  assert (Hg : forall k, dict_get (Np.read_window h data) k
                         = option_map (Np.read h) (dict_get data k))
    by (intros k; apply dict_get_map).
  unfold dict_item. rewrite !Hg.
  destruct (dict_get data "input_ids") as [ids|] eqn:Hids;
    cbn [option_map Py.bind]; [|reflexivity].
  set (labels := match dict_get data "labels" with
                 | Some l => l
                 | None => ids
                 end).
  assert (Hlab : Np.valid h labels).
  { unfold labels. destruct (dict_get data "labels") as [l|] eqn:E.
    - exact (dict_get_Forall (Np.valid h) data "labels" l Hdata E).
    - exact (dict_get_Forall (Np.valid h) data "input_ids" ids Hdata Hids). }
  assert (Hread : match option_map (Np.read h) (dict_get data "labels") with
                  | Some l => l
                  | None => Np.read h ids
                  end = Np.read h labels).
  { unfold labels. now destruct (dict_get data "labels"). }
  rewrite Hread.
  destruct (negb (begin =? 0)).
  - pose proof (mask_overlap_spec h labels seq_len stride DEFAULT_IGNORE_INDEX)
      as Hspec.
    destruct (mask_overlap_read h labels seq_len stride DEFAULT_IGNORE_INDEX)
      as [Hv Hr].
    cbv zeta in Hspec.
    destruct (Np._mask_overlap h labels seq_len stride DEFAULT_IGNORE_INDEX)
      as [h' labels'].
    injection Hspec as Hh' _. cbn [fst snd] in Hv, Hr.
    split; [eexists; exact Hh'|]. split.
    + apply dict_set_Forall; [|exact Hv]. rewrite Hh'.
      now apply valid_window_app.
    + unfold Np.read_window at 2. rewrite dict_map_set, Hr.
      fold (Np.read_window h' data). rewrite Hh'.
      now rewrite read_window_app.
  - split; [exists []; now rewrite app_nil_r|]. split.
    + now apply dict_set_Forall.
    + unfold Np.read_window at 2. now rewrite dict_map_set.
Qed.

(** The loop over [begin]. *)
Lemma windows_refine (concatenated : dict Np.ndarray)
    (seq_len stride : Z) (mask_stride_overlap : bool) (begins : list Z) :
  forall h : Np.store,
    Forall (fun kv => Np.valid h (snd kv)) concatenated ->
    let r := Np.windows h concatenated seq_len stride mask_stride_overlap begins in
    (exists delta, fst r = h ++ delta) /\
    Np.read_stream (fst r) (snd r)
    = windows (Np.read_window h concatenated) seq_len stride
        mask_stride_overlap begins.
Proof.
  cbv zeta.
  cut (forall h : Np.store,
         Forall (fun kv => Np.valid h (snd kv)) concatenated ->
         let r := Np.windows h concatenated seq_len stride
                    mask_stride_overlap begins in
         (exists delta, fst r = h ++ delta) /\
         Forall (fun data => Forall (fun kv => Np.valid (fst r) (snd kv)) data)
           (yielded (snd r)) /\
         Np.read_stream (fst r) (snd r)
         = windows (Np.read_window h concatenated) seq_len stride
             mask_stride_overlap begins).
  { intros H h Hc. destruct (H h Hc) as (Hd & _ & Hr). auto. }
  induction begins as [|b begins IH]; intros h Hc; cbn [Np.windows windows].
  - cbn. split; [exists []; now rewrite app_nil_r|]. split; [constructor|reflexivity].
  - pose proof (window_refines h concatenated seq_len stride
                  mask_stride_overlap b Hc) as Hw.
    destruct (Np.window h concatenated seq_len stride mask_stride_overlap b)
      as [[h1 data]|e].
    2:{ rewrite Hw. cbn. split; [exists []; now rewrite app_nil_r|].
        split; [constructor|reflexivity]. }
    destruct Hw as ((d1 & ->) & Hdata & Hval). rewrite Hval.
    specialize (IH (h ++ d1) (valid_window_app h d1 concatenated Hc)).
    cbv zeta in IH.
    destruct (Np.windows (h ++ d1) concatenated seq_len stride
                mask_stride_overlap begins) as [h2 s].
    cbn [fst snd] in *. destruct IH as ((d2 & ->) & Hys & Hrs).
    split; [exists (d1 ++ d2); now rewrite app_assoc|]. split.
    + cbn [stream_cons yielded]. constructor; [|exact Hys].
      now apply valid_window_app.
    + unfold Np.read_stream in *. cbn [stream_cons yielded raised map].
      rewrite read_window_app in Hrs by assumption. rewrite <- Hrs.
      unfold stream_cons. cbn [yielded raised].
      now rewrite (read_window_app (h ++ d1) d2 data Hdata).
Qed.

Lemma concatenate_spec (items : dict (list (list Z))) :
  forall h : Np.store,
    let r := Np.concatenate h items in
    (exists delta, fst r = h ++ delta) /\
    Forall (fun kv => Np.valid (fst r) (snd kv)) (snd r) /\
    Np.read_window (fst r) (snd r) = dict_map (@List.concat Z) items.
Proof.
  induction items as [|[k v] items IH]; intros h; cbn [Np.concatenate].
  - cbn. split; [exists []; now rewrite app_nil_r|]. split; [constructor|reflexivity].
  - destruct (array_spec h (List.concat v)) as (Hv & Hr & Hh).
    destruct (Np.array h (List.concat v)) as [h1 a]. cbn [fst snd] in *. subst h1.
    specialize (IH (h ++ [List.concat v])). cbv zeta in IH.
    destruct (Np.concatenate (h ++ [List.concat v]) items) as [h2 d].
    cbn [fst snd] in *. destruct IH as ((d2 & ->) & Hd & Hrd).
    split; [exists ([List.concat v] ++ d2); now rewrite app_assoc|]. split.
    + constructor; [now apply valid_app | exact Hd].
    + unfold Np.read_window, dict_map in *. cbn [map fst snd].
      rewrite Hrd. now rewrite read_app, Hr.
Qed.

(** The store-level generator reads, window by window, as the
    value-level one, and leaves the buffers it found untouched. *)
Lemma concatenate_and_group_texts_refines (h : Np.store)
    (encoding : dict (list (list Z))) (seq_len : Z) (stride : option Z)
    (drop_remainder mask_stride_overlap : bool) :
  let r := Np.concatenate_and_group_texts h encoding seq_len stride
             drop_remainder mask_stride_overlap in
  (exists delta, fst r = h ++ delta) /\
  Np.read_stream (fst r) (snd r)
  = concatenate_and_group_texts encoding seq_len stride drop_remainder
      mask_stride_overlap.
Proof.
  cbv zeta. unfold Np.concatenate_and_group_texts, concatenate_and_group_texts.
  destruct (concatenate_spec encoding h) as ((d1 & Hh1) & Hc & Hr).
  destruct (Np.concatenate h encoding) as [h1 conc]. cbn [fst snd] in *. subst h1.
  rewrite <- Hr. unfold dict_attr.
  unfold Np.read_window at 1. rewrite dict_get_map.
  destruct (dict_get conc "input_ids") as [ids|] eqn:Hids; cbn [option_map Py.bind].
  2:{ cbn. split; [now exists d1|reflexivity]. }
  rewrite (read_length (h ++ d1) ids
             (dict_get_Forall (Np.valid (h ++ d1)) conc "input_ids" ids Hc Hids)).
  destruct (window_begins (Z.of_nat (Np.size ids)) seq_len stride drop_remainder)
    as [[stride' begins]|e].
  2:{ cbn. split; [now exists d1|reflexivity]. }
  destruct (windows_refine conc seq_len stride' mask_stride_overlap begins
              (h ++ d1) Hc) as ((d2 & Hh2) & Hrs).
  split; [|exact Hrs].
  exists (d1 ++ d2). now rewrite Hh2, app_assoc.
Qed.

(** ** Overlapping windows *)

Lemma Forall2_nth_error_r {A B : Type} (R : A -> B -> Prop) (l : list A)
    (l' : list B) (i : nat) (y : B) :
  Forall2 R l l' -> nth_error l' i = Some y ->
  exists x, nth_error l i = Some x /\ R x y.
Proof.
  intros F. revert i. induction F as [|a b l l' Hab F IH]; intros [|i]; simpl;
    try discriminate.
  - intros [= <-]. eauto.
  - apply IH.
Qed.

(** With a stride that differs from [seq_len] and the mask requested,
    a window gets a [labels] field: the slice of the [labels] of the
    encoding, or of its [input_ids] when it has none, masked after the
    first window; its other fields are the plain slices. *)
Lemma window_overlap (concatenated : dict (list Z)) (tokens : list Z)
    (seq_len stride begin : Z) :
  dict_get concatenated "input_ids" = Some tokens ->
  stride <> seq_len ->
  let base :=
    slice match dict_get concatenated "labels" with
          | Some l => l
          | None => tokens
          end begin (begin + seq_len) in
  exists data,
    window concatenated seq_len stride true begin = Ok data /\
    dict_get data "labels"
    = Some (if negb (begin =? 0)
            then _mask_overlap base seq_len stride DEFAULT_IGNORE_INDEX
            else base) /\
    forall k, k <> "labels" ->
      dict_get data k
      = option_map (fun v => slice v begin (begin + seq_len))
          (dict_get concatenated k).
Proof.
  intros Hids Hne base. unfold window.
  replace (stride =? seq_len) with false by (symmetry; now apply Z.eqb_neq).
  cbn [andb negb]. unfold dict_item.
  rewrite !dict_get_map, Hids. cbn [option_map Py.bind].
  eexists. split; [reflexivity|]. split.
  - rewrite dict_get_set_eq. unfold base.
    now destruct (dict_get concatenated "labels").
  - intros k Hk. rewrite dict_get_set_ne by congruence. apply dict_get_map.
Qed.

(** The masked labels: the sentinel over [seq_len - stride] positions,
    or over all of them when there are fewer, then the labels as they
    were. *)
Lemma mask_overlap_fill (base : list Z) (seq_len stride sentinel : Z) :
  stride <= seq_len ->
  _mask_overlap base seq_len stride sentinel
  = repeat sentinel (Nat.min (Z.to_nat (seq_len - stride)) (List.length base))
    ++ skipn (Z.to_nat (seq_len - stride)) base.
Proof.
  intros Hs. unfold _mask_overlap, fill_slice, clamp.
  replace (0 <? 0) with false by reflexivity.
  replace (seq_len - stride <? 0) with false by (symmetry; apply Z.ltb_ge; lia).
  cbn [Z.to_nat Nat.min firstn app]. rewrite Nat.sub_0_r. cbn [Nat.add].
  f_equal.
  destruct (Nat.le_ge_cases (Z.to_nat (seq_len - stride)) (List.length base))
    as [H|H].
  - now rewrite Nat.min_l by assumption.
  - rewrite Nat.min_r by assumption. now rewrite !skipn_all2 by lia.
Qed.

(** The values of [begin] for a positive stride: the multiples of the
    stride below [total_length - seq_len + stride], the total length
    being cut down first when the remainder is dropped. *)
Lemma window_begins_positive (length seq_len stride : Z)
    (drop_remainder : bool) :
  0 < stride ->
  let total_length :=
    if drop_remainder && negb (length mod stride =? 0)
    then (length - seq_len + stride) / stride * stride
    else length in
  window_begins length seq_len (Some stride) drop_remainder
  = Ok (stride,
        map (fun i => Z.of_nat i * stride)
          (seq 0 (Z.to_nat ((total_length - seq_len + stride + stride - 1)
                            / stride)))).
Proof.
  intros Hs.
  assert (Hz : (stride =? 0) = false) by (apply Z.eqb_neq; lia).
  unfold window_begins, int_or. rewrite Hz. unfold mod_. rewrite Hz.
  destruct drop_remainder; cbn [Py.bind andb].
  - destruct (negb (length mod stride =? 0));
      rewrite range0_positive by lia; reflexivity.
  - rewrite range0_positive by lia. reflexivity.
Qed.

(** A value of [begin] leaves more than [seq_len - stride] tokens. *)
Lemma window_begin_bound (length seq_len stride : Z) (drop_remainder : bool)
    (i : nat) :
  0 < stride < seq_len ->
  0 <= length ->
  let total_length :=
    if drop_remainder && negb (length mod stride =? 0)
    then (length - seq_len + stride) / stride * stride
    else length in
  (i < Z.to_nat ((total_length - seq_len + stride + stride - 1) / stride))%nat ->
  Z.of_nat i * stride < length - seq_len + stride.
Proof.
  intros Hs Hl total_length Hi.
  assert (Ht : total_length <= length).
  { unfold total_length.
    destruct (drop_remainder && negb (length mod stride =? 0)); [|lia].
    pose proof (Z.mul_div_le (length - seq_len + stride) stride ltac:(lia)).
    lia. }
  set (Y := total_length - seq_len + stride) in *.
  pose proof (Z.div_mod (Y + stride - 1) stride ltac:(lia)) as Hdm.
  pose proof (Z.mod_pos_bound (Y + stride - 1) stride ltac:(lia)) as Hm.
  assert (Hq : Z.of_nat i + 1 <= (Y + stride - 1) / stride) by lia.
  assert (Z.of_nat i * stride < Y) by nia.
  lia.
Qed.

(** C6: with [0 < stride < seq_len] and [mask_stride_overlap] set, the
    generator ends without exception and yields one window per multiple
    of the stride below [total_length - seq_len + stride]. Every window
    has more than [seq_len - stride] tokens. In the store the generator
    leaves, the [labels] of the first window reads the plain slice (of
    the [labels] of the encoding, or of its [input_ids] when it has
    none), and the [labels] of every later window reads that slice with
    its first [seq_len - stride] entries replaced by the sentinel
    [-100]; [input_ids], and every field other than [labels], reads the
    plain slice of the concatenated field in every window: the mask
    reaches [labels] only. *)
Theorem overlap_masks_labels_only (h : Np.store)
    (encoding : dict (list (list Z))) (rows : list (list Z))
    (seq_len stride : Z) (drop_remainder : bool) :
  0 < stride < seq_len ->
  dict_get encoding "input_ids" = Some rows ->
  let r := Np.concatenate_and_group_texts h encoding seq_len (Some stride)
             drop_remainder true in
  let tokens := List.concat rows in
  let length := Z.of_nat (List.length tokens) in
  let total_length :=
    if drop_remainder && negb (length mod stride =? 0)
    then (length - seq_len + stride) / stride * stride
    else length in
  let overlap := Z.to_nat (seq_len - stride) in
  raised (snd r) = None /\
  List.length (yielded (snd r))
  = Z.to_nat ((total_length - seq_len + stride + stride - 1) / stride) /\
  forall (i : nat) (data : dict Np.ndarray),
    nth_error (yielded (snd r)) i = Some data ->
    let begin := Z.of_nat i * stride in
    let ids := slice tokens begin (begin + seq_len) in
    let base :=
      slice match dict_get encoding "labels" with
            | Some v => List.concat v
            | None => tokens
            end begin (begin + seq_len) in
    (overlap < List.length ids)%nat /\
    option_map (Np.read (fst r)) (dict_get data "input_ids") = Some ids /\
    (forall k, k <> "labels" ->
       option_map (Np.read (fst r)) (dict_get data k)
       = option_map (fun v => slice (List.concat v) begin (begin + seq_len))
           (dict_get encoding k)) /\
    option_map (Np.read (fst r)) (dict_get data "labels")
    = Some (if (i =? 0)%nat then base
            else repeat DEFAULT_IGNORE_INDEX
                   (Nat.min overlap (List.length base))
                 ++ skipn overlap base) /\
    (dict_get encoding "labels" = None -> i <> 0%nat ->
     option_map (Np.read (fst r)) (dict_get data "labels")
     = Some (repeat DEFAULT_IGNORE_INDEX overlap ++ skipn overlap ids)).
Proof.
  intros Hstride Hrows r tokens length total_length overlap.
  destruct (concatenate_and_group_texts_refines h encoding seq_len (Some stride)
              drop_remainder true) as (_ & Href).
  fold r in Href.
  assert (Hconc : dict_get (dict_map (@List.concat Z) encoding) "input_ids"
                  = Some tokens)
    by (unfold tokens; now rewrite dict_get_map, Hrows).
  unfold concatenate_and_group_texts, dict_attr in Href.
  rewrite Hconc in Href. cbn [Py.bind] in Href.
  pose proof (window_begins_positive length seq_len stride drop_remainder
                ltac:(lia)) as Hb.
  cbv zeta in Hb. fold total_length in Hb. fold length in Href.
  rewrite Hb in Href. clear Hb.
  set (n := Z.to_nat ((total_length - seq_len + stride + stride - 1) / stride))
    in *.
  destruct (windows_all (dict_map (@List.concat Z) encoding) tokens
              seq_len stride true Hconc
              (map (fun i => Z.of_nat i * stride) (seq 0 n)))
    as (ds & E & F).
  rewrite E in Href. unfold Np.read_stream in Href.
  injection Href as Hys Hr.
  assert (Hn : List.length (yielded (snd r)) = n).
  { apply Forall2_length in F. rewrite length_map, length_seq in F.
    rewrite F, <- Hys. now rewrite length_map. }
  split; [exact Hr|]. split; [exact Hn|].
  intros i data Hi begin ids base.
  assert (Hlt : (i < n)%nat)
    by (rewrite <- Hn; apply nth_error_Some; congruence).
  assert (Hi' : nth_error ds i = Some (Np.read_window (fst r) data)).
  { rewrite <- Hys. now apply map_nth_error. }
  destruct (Forall2_nth_error_r _ _ _ i _ F Hi') as (b & Hbi & Hw).
  assert (b = begin).
  { rewrite nth_error_map in Hbi.
    rewrite nth_error_nth' with (d := 0%nat) in Hbi
      by (rewrite length_seq; exact Hlt).
    rewrite seq_nth in Hbi by exact Hlt.
    injection Hbi as <-. reflexivity. }
  subst b.
  destruct (window_overlap (dict_map (@List.concat Z) encoding) tokens
              seq_len stride begin Hconc ltac:(lia))
    as (data' & Hw' & Hlab & Hother).
  assert (data' = Np.read_window (fst r) data) by congruence. subst data'.
  assert (Hg : forall k, option_map (Np.read (fst r)) (dict_get data k)
                         = dict_get (Np.read_window (fst r) data) k)
    by (intros k; symmetry; apply dict_get_map).
  assert (Hbase : slice match dict_get (dict_map (@List.concat Z) encoding)
                                "labels" with
                        | Some l => l
                        | None => tokens
                        end begin (begin + seq_len) = base).
  { unfold base. rewrite dict_get_map.
    now destruct (dict_get encoding "labels"). }
  rewrite Hbase in Hlab.
  assert (Hlen : (overlap < List.length ids)%nat).
  { pose proof (window_begin_bound length seq_len stride drop_remainder i
                  Hstride ltac:(unfold length; lia)) as Hbound.
    cbv zeta in Hbound. fold total_length in Hbound. fold n in Hbound.
    specialize (Hbound Hlt). fold begin in Hbound.
    unfold ids. rewrite slice_from by (unfold begin; lia).
    rewrite length_firstn, length_skipn. unfold overlap, length in *. lia. }
  assert (Hlabels : option_map (Np.read (fst r)) (dict_get data "labels")
                    = Some (if (i =? 0)%nat then base
                            else repeat DEFAULT_IGNORE_INDEX
                                   (Nat.min overlap (List.length base))
                                 ++ skipn overlap base)).
  { rewrite Hg, Hlab. f_equal.
    destruct (Nat.eqb_spec i 0) as [->|Hi0].
    - reflexivity.
    - replace (begin =? 0) with false
        by (symmetry; apply Z.eqb_neq; unfold begin; nia).
      cbn [negb]. apply mask_overlap_fill. lia. }
  split; [exact Hlen|]. split; [|split; [|split]].
  - rewrite Hg, Hother by discriminate. now rewrite Hconc.
  - intros k Hk. rewrite Hg, Hother by exact Hk.
    rewrite dict_get_map. now destruct (dict_get encoding k).
  - exact Hlabels.
  - intros Hnone Hi0. rewrite Hlabels.
    replace (i =? 0)%nat with false by (symmetry; now apply Nat.eqb_neq).
    assert (Hb : base = ids) by (unfold base, ids; now rewrite Hnone).
    rewrite Hb.
    rewrite Nat.min_l by (apply Nat.lt_le_incl; exact Hlen). reflexivity.
Qed.

Lemma overlap_masks_labels_only_witness :
  0 < 2 < 4 /\
  dict_get [("input_ids", [[0; 1; 2; 3; 4; 5]; [6; 7; 8; 9]])] "input_ids"
  = Some [[0; 1; 2; 3; 4; 5]; [6; 7; 8; 9]] /\
  let r := Np.concatenate_and_group_texts []
             [("input_ids", [[0; 1; 2; 3; 4; 5]; [6; 7; 8; 9]])] 4 (Some 2)
             false true in
  let tokens := [0; 1; 2; 3; 4; 5; 6; 7; 8; 9] in
  raised (snd r) = None /\
  List.length (yielded (snd r)) = 4%nat /\
  forall (i : nat) (data : dict Np.ndarray),
    nth_error (yielded (snd r)) i = Some data ->
    let begin := Z.of_nat i * 2 in
    let ids := slice tokens begin (begin + 4) in
    (2 < List.length ids)%nat /\
    option_map (Np.read (fst r)) (dict_get data "input_ids") = Some ids /\
    (forall k, k <> "labels" ->
       option_map (Np.read (fst r)) (dict_get data k)
       = option_map (fun v => slice (List.concat v) begin (begin + 4))
           (dict_get [("input_ids", [[0; 1; 2; 3; 4; 5]; [6; 7; 8; 9]])] k)) /\
    option_map (Np.read (fst r)) (dict_get data "labels")
    = Some (if (i =? 0)%nat then ids
            else repeat DEFAULT_IGNORE_INDEX (Nat.min 2 (List.length ids))
                 ++ skipn 2 ids) /\
    (dict_get [("input_ids", [[0; 1; 2; 3; 4; 5]; [6; 7; 8; 9]])] "labels"
     = None ->
     i <> 0%nat ->
     option_map (Np.read (fst r)) (dict_get data "labels")
     = Some (repeat DEFAULT_IGNORE_INDEX 2 ++ skipn 2 ids)).
Proof.
  split; [lia|]. split; [reflexivity|].
  exact (overlap_masks_labels_only []
           [("input_ids", [[0; 1; 2; 3; 4; 5]; [6; 7; 8; 9]])]
           [[0; 1; 2; 3; 4; 5]; [6; 7; 8; 9]] 4 2 false
           ltac:(lia) eq_refl).
Defined.

(** ** The filter, in closed form *)

Lemma last_nonspace_blank (s : string) :
  last_nonspace s = None <-> blank s = true.
Proof.
  induction s as [|c r IH]; simpl; [tauto|].
  destruct (last_nonspace r) as [x|].
  - split; [discriminate|]. intros H. apply andb_true_iff in H.
    destruct H as [_ H]. apply IH in H. discriminate.
  - destruct (is_space c); simpl.
    + split; intros _; [apply IH|]; reflexivity.
    + split; discriminate.
Qed.

(** A string with a last non-whitespace character is a body, that
    character and a blank tail. *)
Lemma last_nonspace_split (s : string) (c : ascii) :
  last_nonspace s = Some c ->
  exists body trail,
    s = (body ++ String c trail)%string /\ blank trail = true
    /\ is_space c = false.
Proof.
  revert c. induction s as [|a r IH]; simpl; intros c H; [discriminate|].
  destruct (last_nonspace r) as [x|] eqn:E.
  - injection H as ->. destruct (IH c eq_refl) as (body & trail & -> & Ht & Hc).
    exists (String a body), trail. auto.
  - destruct (is_space a) eqn:Ea; [discriminate|]. injection H as ->.
    exists ""%string, r. repeat split; [|assumption].
    now apply last_nonspace_blank.
Qed.


(** The condition of the [continue] looks at the last non-whitespace
    character only: the test on a final newline changes nothing. *)
Lemma lacks_terminator_last_nonspace (d : string) :
  BatchTokenizer.lacks_terminator d
  = match last_nonspace d with
    | Some c => Ok (negb (is_terminator c))
    | None => Raise IndexError
    end.
Proof.
  destruct (last_nonspace d) as [c|] eqn:E.
  - destruct (last_nonspace_split d c E) as (body & trail & -> & Ht & Hc).
    now apply lacks_terminator_last_char.
  - apply lacks_terminator_blank. now apply last_nonspace_blank.
Qed.

(** ** Sentences and words *)

Lemma blank_app (x y : string) : blank (x ++ y) = blank x && blank y.
Proof.
  induction x as [|c x IH]; simpl; [reflexivity|].
  now rewrite IH, andb_assoc.
Qed.

Lemma blank_snoc (cur : string) (c : ascii) :
  blank (snoc cur c) = blank cur && is_space c.
Proof. unfold snoc. rewrite blank_app. simpl. now rewrite andb_true_r. Qed.

Lemma snoc_app (cur : string) (c : ascii) (r : string) :
  (snoc cur c ++ r)%string = (cur ++ String c r)%string.
Proof. unfold snoc. induction cur as [|a cur IH]; simpl; [reflexivity|]. now rewrite IH. Qed.

Lemma append_empty_r (s : string) : (s ++ "")%string = s.
Proof. induction s as [|c s IH]; simpl; [reflexivity|]. now rewrite IH. Qed.

(** A whitespace character ends the word being read. *)
Lemma split_from_app_space (x y : string) (c : ascii) :
  is_space c = true ->
  forall w, split_from w (x ++ String c y) = split_from w x ++ split_from "" y.
Proof.
  intros Hc. induction x as [|a x IH]; intros w; simpl.
  - rewrite Hc. now destruct (str_empty w).
  - destruct (is_space a).
    + destruct (str_empty w); simpl; now rewrite IH.
    + apply IH.
Qed.

(** A string that is not blank has a word. *)
Lemma split_from_not_nil (s : string) :
  forall cur, str_empty cur = false \/ blank s = false -> split_from cur s <> [].
Proof.
  induction s as [|c r IH]; intros cur H; simpl.
  - destruct H as [H|H]; [|discriminate]. now rewrite H.
  - destruct (is_space c) eqn:Ec.
    + destruct (str_empty cur) eqn:Ecur; [|discriminate].
      apply IH. right. destruct H as [H|H]; [discriminate|].
      simpl in H. now rewrite Ec in H.
    + apply IH. left. apply snoc_not_empty.
Qed.

Section Sentences.

Import BatchTokenizer.

(** The pieces of the split hold the words of the string, in order. *)
Lemma re_split_from_words (s : string) :
  forall (a b : bool) (cur : string),
    (b = true -> cur = "") ->
    List.concat (map split (re_split_from a b cur s)) = split (cur ++ s).
Proof.
  induction s as [|c r IH]; intros a b cur Hb; simpl.
  - now rewrite app_nil_r, append_empty_r.
  - destruct (is_space c) eqn:Ec.
    + destruct b.
      * rewrite (Hb eq_refl) in *. rewrite IH by auto. simpl.
        unfold split. simpl. now rewrite Ec.
      * destruct a.
        -- simpl. rewrite IH by auto. simpl. unfold split.
           now rewrite split_from_app_space.
        -- rewrite IH by discriminate. now rewrite snoc_app.
    + rewrite IH by discriminate. now rewrite snoc_app.
Qed.

Lemma split_leading_space (s : string) :
  split (if startswith s " " then s else (" " ++ s)%string) = split s.
Proof. destruct (startswith s " "); reflexivity. Qed.

Lemma concat_split_filter (l : list string) :
  List.concat
    (map split
       (map (fun s => if startswith s " " then s else (" " ++ s)%string)
          (filter (fun s => negb (str_empty s)) l)))
  = List.concat (map split l).
Proof.
  induction l as [|p l IH]; simpl; [reflexivity|].
  destruct p as [|c p]; simpl; [exact IH|].
  rewrite <- IH. f_equal.
  exact (split_leading_space (String c p)).
Qed.

Lemma sentences_of_words (d : string) :
  List.concat (map split (sentences_of d)) = split d.
Proof.
  unfold sentences_of, re_split_sentences. rewrite concat_split_filter.
  now rewrite re_split_from_words by discriminate.
Qed.

(** A piece of the split of a string that is not blank is empty or holds
    a word. *)
Lemma re_split_from_pieces (s : string) :
  forall (a b : bool) (cur : string),
    (a = true -> blank cur = false) ->
    (b = true -> cur = "") ->
    blank cur = false \/ blank s = false \/ b = true ->
    Forall (fun p => p = "" \/ blank p = false) (re_split_from a b cur s).
Proof.
  induction s as [|c r IH]; intros a b cur Ha Hb H; simpl.
  - constructor; [|constructor].
    destruct H as [H|[H|H]]; [now right|discriminate|left; auto].
  - destruct (is_space c) eqn:Ec.
    + destruct b.
      * apply IH; auto; discriminate.
      * destruct a.
        -- constructor; [right; auto|]. apply IH; auto; discriminate.
        -- apply IH; try discriminate.
           rewrite blank_snoc, Ec, andb_true_r.
           destruct H as [H|[H|H]]; [now left| |discriminate].
           right. left. simpl in H. now rewrite Ec in H.
    + apply IH; try discriminate.
      * intros _. now rewrite blank_snoc, Ec, andb_false_r.
      * left. now rewrite blank_snoc, Ec, andb_false_r.
Qed.

(** No sentence of a string that is not blank is blank. *)
Lemma sentences_of_not_blank (d : string) :
  blank d = false ->
  Forall (fun s => blank s = false) (sentences_of d).
Proof.
  intros H. unfold sentences_of, re_split_sentences.
  pose proof (re_split_from_pieces d false false "" ltac:(discriminate)
                ltac:(discriminate) (or_intror (or_introl H))) as Hp.
  apply Forall_map. apply Forall_forall. intros p Hin.
  apply filter_In in Hin. destruct Hin as [Hin Hne].
  rewrite Forall_forall in Hp. specialize (Hp p Hin).
  destruct Hp as [->|Hp]; [discriminate|].
  destruct (startswith p " "); [exact Hp|exact Hp].
Qed.

Lemma word_counts_positive (l : list string) :
  Forall (fun s => blank s = false) l ->
  Forall (fun w => 1 <= w) (word_counts_of l).
Proof.
  induction 1 as [|s l Hs _ IH]; simpl; constructor; [|exact IH].
  pose proof (split_from_not_nil s "" (or_intror Hs)) as Hn.
  unfold split. destruct (split_from "" s); [congruence|]. simpl. lia.
Qed.

Lemma sentences_of_leading_space (d : string) :
  Forall (fun s => startswith s " " = true) (sentences_of d).
Proof.
  unfold sentences_of. apply Forall_map. apply Forall_forall. intros s _.
  destruct (startswith s " ") eqn:E; [exact E|].
  unfold startswith. cbn [append prefix].
  destruct (ascii_dec " " " "); [now destruct s|congruence].
Qed.

End Sentences.

(** ** The record loop, in closed form *)

Lemma replace_from_not_blank (old new s : string) (a : ascii) (new' : string) :
  new = String a new' -> is_space a = false ->
  blank (replace_from old new 0 s) = true -> blank s = true.
Proof.
  intros -> Ha. induction s as [|c s IH]; [reflexivity|].
  cbn [replace_from]. destruct (prefix old (String c s)).
  - cbn [append blank]. rewrite Ha. discriminate.
  - cbn [blank]. intros H. apply andb_true_iff in H as [Hc Hs].
    rewrite Hc. now apply IH.
Qed.

(** The replacements put in quotes and terminators only: they make no
    blank string of one that is not. *)
Lemma normalize_quotes_not_blank (d : string) :
  blank (BatchTokenizer.normalize_quotes d) = true -> blank d = true.
Proof.
  unfold BatchTokenizer.normalize_quotes, replace. intros H.
  repeat (eapply replace_from_not_blank in H; [ | reflexivity | reflexivity ]).
  exact H.
Qed.

Lemma normalize_quotes_last_nonspace (d : string) :
  last_nonspace (BatchTokenizer.normalize_quotes d) = None <-> blank d = true.
Proof.
  rewrite last_nonspace_blank. split.
  - apply normalize_quotes_not_blank.
  - intros H. now rewrite normalize_quotes_blank.
Qed.

Section RecordLoop.

Import BatchTokenizer.

Variable self : t.

(** One iteration of the loop over [orig_batch]. *)
Lemma split_record_cases (u : units) (d : string) :
  split_record self u d
  = match last_nonspace (normalize_quotes d) with
    | None => Raise IndexError
    | Some c =>
        Ok (if is_terminator c
            then units_app u (record_sentences self d)
                   (record_flags (List.length (record_sentences self d)))
                   (record_word_counts self d)
            else u)
    end.
Proof.
  pose proof (lacks_terminator_last_nonspace (normalize_quotes d)) as E.
  destruct (last_nonspace (normalize_quotes d)) as [c|].
  - destruct (is_terminator c); simpl in E.
    + now apply split_record_kept.
    + now apply split_record_skipped.
  - unfold split_record. now rewrite E.
Qed.

Lemma units_app_app (u : units) (a a' : list string) (b b' : list bool)
    (c c' : list Z) :
  units_app (units_app u a b c) a' b' c'
  = units_app u (a ++ a') (b ++ b') (c ++ c').
Proof. unfold units_app. cbn [batch needs_merge wc]. now rewrite !app_assoc. Qed.

(** The whole loop: it raises on the first empty or blank record;
    otherwise it keeps the terminated records and skips the others. *)
Lemma split_records_closed_form (orig_batch : list string) :
  forall u,
    split_records self u orig_batch
    = if existsb blank orig_batch then Raise IndexError
      else Ok (kept_units self u (filter terminated orig_batch)).
Proof.
  induction orig_batch as [|d rest IH]; intros u.
  - unfold kept_units, units_app. simpl. rewrite !app_nil_r. now destruct u.
  - cbn [split_records existsb filter]. rewrite split_record_cases.
    unfold terminated.
    pose proof (normalize_quotes_last_nonspace d) as Hb.
    destruct (last_nonspace (normalize_quotes d)) as [c|].
    + destruct (blank d) eqn:Ed.
      { destruct Hb as [_ Hb]. specialize (Hb eq_refl). discriminate. }
      cbn [Py.bind orb]. rewrite IH.
      destruct (existsb blank rest); [reflexivity|].
      destruct (is_terminator c); [|reflexivity].
      unfold kept_units. rewrite units_app_app. reflexivity.
    + destruct Hb as [Hb _]. rewrite (Hb eq_refl). reflexivity.
Qed.

Lemma existsb_blank_false (l : list string) :
  existsb blank l = false <-> Forall (fun d => blank d = false) l.
Proof.
  induction l as [|d l IH]; simpl.
  - split; auto.
  - rewrite orb_false_iff, IH. split.
    + intros [H1 H2]. now constructor.
    + intros H. inversion H; auto.
Qed.

Lemma terminated_kept (d : string) : terminated d = true -> kept d.
Proof.
  unfold terminated, kept. rewrite lacks_terminator_last_nonspace.
  destruct (last_nonspace (normalize_quotes d)) as [c|]; [|discriminate].
  now intros ->.
Qed.

Lemma filter_terminated_kept (l : list string) :
  Forall kept (filter terminated l).
Proof.
  apply Forall_forall. intros d Hd. apply filter_In in Hd.
  now apply terminated_kept.
Qed.

Lemma filter_terminated_idem (l : list string) :
  filter terminated (filter terminated l) = filter terminated l.
Proof.
  induction l as [|d l IH]; simpl; [reflexivity|].
  destruct (terminated d) eqn:E; simpl; [|exact IH]. now rewrite E, IH.
Qed.

Lemma existsb_blank_terminated (l : list string) :
  existsb blank (filter terminated l) = false.
Proof.
  apply existsb_blank_false. eapply Forall_impl; [|apply filter_terminated_kept].
  intros d Hk. apply kept_not_blank in Hk.
  destruct (blank d) eqn:E; [|reflexivity].
  rewrite normalize_quotes_blank in Hk by assumption. congruence.
Qed.

End RecordLoop.

Section KeptRecords.

Import BatchTokenizer.

Variable self : t.

Lemma record_flags_length (k : nat) :
  (1 <= k)%nat -> List.length (record_flags k) = k.
Proof. intros H. unfold record_flags. simpl. rewrite repeat_length. lia. Qed.

Lemma record_flags_false (k : nat) : filter negb (record_flags k) = [false].
Proof.
  unfold record_flags. simpl. f_equal.
  induction (k - 1)%nat as [|n IH]; simpl; auto.
Qed.

Lemma record_word_counts_positive (d : string) :
  kept d -> Forall (fun w => 1 <= w) (record_word_counts self d).
Proof.
  intros Hk. unfold record_word_counts. apply Forall_app. split.
  - apply word_counts_positive, sentences_of_not_blank.
    now apply kept_not_blank.
  - destruct (_need_to_add_eos self); [|constructor].
    constructor; [lia|constructor].
Qed.

Lemma record_sentences_leading_space (d : string) :
  Forall (fun s => startswith s " " = true \/ s = eos_token (tokenizer self))
    (record_sentences self d).
Proof.
  unfold record_sentences. apply Forall_app. split.
  - eapply Forall_impl; [|apply sentences_of_leading_space]. intros s Hs. now left.
  - destruct (_need_to_add_eos self); [|constructor].
    constructor; [now right|constructor].
Qed.

(** What holds of the lists built from records that are all kept. *)
Lemma kept_units_invariants (records : list string) :
  Forall kept records ->
  let u := kept_units self no_units records in
  List.length (needs_merge u) = List.length (batch u) /\
  List.length (wc u) = List.length (batch u) /\
  hd false (needs_merge u) = false /\
  Forall (fun w => 1 <= w) (wc u) /\
  Forall (fun s => startswith s " " = true \/ s = eos_token (tokenizer self))
    (batch u) /\
  List.length (filter negb (needs_merge u)) = List.length records.
Proof.
  intros Hk. unfold kept_units, units_app, no_units.
  cbn [batch needs_merge wc app].
  induction Hk as [|d rest Hd _ IH]; cbn [map List.concat].
  - repeat split; constructor.
  - destruct IH as (H1 & H2 & _ & H4 & H5 & H6).
    rewrite !length_app, filter_app, length_app, record_flags_false.
    rewrite record_flags_length by now apply record_sentences_kept.
    rewrite record_word_counts_length, H1, H2, H6.
    repeat split.
    + apply Forall_app. split; [now apply record_word_counts_positive|exact H4].
    + apply Forall_app. split; [apply record_sentences_leading_space|exact H5].
Qed.

End KeptRecords.

(** X1: one iteration of the record loop of [__call__] has three
    outcomes, decided by the last non-whitespace character of the record
    after the quote normalisation. Without such a character (the record
    is empty or blank, and the normalisation does not change that) it
    raises [IndexError]; a terminator appends the sentences, the flags
    and the word counts of the record; any other character leaves the
    three lists as they were. *)
Theorem split_record_outcome (self : BatchTokenizer.t)
    (u : BatchTokenizer.units) (d : string) :
  BatchTokenizer.split_record self u d
  = match last_nonspace (BatchTokenizer.normalize_quotes d) with
    | None => Raise IndexError
    | Some c =>
        Ok (if is_terminator c
            then units_app u (record_sentences self d)
                   (record_flags (List.length (record_sentences self d)))
                   (record_word_counts self d)
            else u)
    end
  /\ (last_nonspace (BatchTokenizer.normalize_quotes d) = None
      <-> blank d = true).
Proof.
  split; [apply split_record_cases|apply normalize_quotes_last_nonspace].
Qed.

(** X2: with a tokenizer that keeps the contract [list_tokenizer] (its
    end token is a non-empty string, and on non-empty strings it
    returns, under distinct keys, list-valued fields of one non-empty
    token list per string), [__call__] succeeds on every batch that has
    no empty or blank record; its result is that of the call on the
    terminated records alone, and every field of it holds one sequence
    per terminated record. An empty token list is outside the contract:
    the merge reads the first token of every fragment. *)
Theorem call_without_blank_records (self : BatchTokenizer.t)
    (orig_batch : list string) :
  list_tokenizer (BatchTokenizer.tokenizer self) ->
  Forall (fun d => blank d = false) orig_batch ->
  exists out,
    BatchTokenizer.__call__ self orig_batch = Ok out /\
    BatchTokenizer.__call__ self (filter terminated orig_batch) = Ok out /\
    Forall (fun kv => exists v,
              snd kv = ListSeqs v /\
              List.length v = List.length (filter terminated orig_batch))
      out.
Proof.
  intros Htk Hnb.
  assert (Heq : BatchTokenizer.__call__ self orig_batch
                = BatchTokenizer.__call__ self (filter terminated orig_batch)).
  { unfold BatchTokenizer.__call__.
    rewrite !split_records_closed_form, filter_terminated_idem,
      existsb_blank_terminated.
    apply existsb_blank_false in Hnb. now rewrite Hnb. }
  rewrite Heq.
  rewrite (call_lists self Htk _ (filter_terminated_kept _)).
  eexists. split; [reflexivity|]. split; [reflexivity|].
  set (K := filter terminated orig_batch).
  destruct (proj2 Htk (List.concat (map (record_sentences self) K)))
    as [_ Hit].
  { apply Forall_concat, Forall_map, Forall_forall.
    intros d _. now apply record_sentences_not_empty. }
  unfold dict_map. apply Forall_map.
  eapply Forall_impl; [|exact Hit].
  intros [k fv] (v & Hfv & _). cbn [fst snd] in *. subst fv.
  cbn [merged_value]. eexists. split; [reflexivity|].
  now rewrite length_map, chunks_length, length_map.
Qed.

Lemma call_without_blank_records_witness :
  list_tokenizer char_tokenizer /\
  Forall (fun d => blank d = false) ["Hi."; "no full stop"; "Yes!"] /\
  exists out,
    BatchTokenizer.__call__ char_batch_tokenizer
      ["Hi."; "no full stop"; "Yes!"] = Ok out /\
    BatchTokenizer.__call__ char_batch_tokenizer ["Hi."; "Yes!"] = Ok out /\
    Forall (fun kv => exists v, snd kv = ListSeqs v /\ List.length v = 2%nat)
      out.
Proof.
  split; [exact char_tokenizer_lists|].
  split; [repeat constructor|].
  apply (call_without_blank_records char_batch_tokenizer
           ["Hi."; "no full stop"; "Yes!"]).
  - exact char_tokenizer_lists.
  - repeat constructor.
Defined.

(** X3: splitting a record into sentences loses no word and reorders
    none: the words of the sentences, end to end, are the words of the
    record, and the word counts add up to its number of words. *)
Theorem sentences_keep_the_words (d : string) :
  List.concat (map split (BatchTokenizer.sentences_of d)) = split d /\
  fold_right Z.add 0
    (BatchTokenizer.word_counts_of (BatchTokenizer.sentences_of d))
  = Z.of_nat (List.length (split d)).
Proof.
  pose proof (sentences_of_words d) as H. split; [exact H|].
  rewrite <- H. clear H. unfold BatchTokenizer.word_counts_of.
  induction (BatchTokenizer.sentences_of d) as [|s l IH];
    cbn [map fold_right List.concat]; [reflexivity|].
  rewrite length_app, Nat2Z.inj_add. f_equal. exact IH.
Qed.

(** X4: when the record loop of [__call__] succeeds, the three lists
    it built have the same length, [needs_merge] begins with [False] and
    holds one [False] per terminated record, every word count is at
    least one (a boundary token [wc + eos_token_id + 1] is then at least
    [eos_token_id + 2]), and every unit is the end token or begins with a
    space. *)
Theorem split_records_invariants (self : BatchTokenizer.t)
    (orig_batch : list string) (u : BatchTokenizer.units) :
  BatchTokenizer.split_records self BatchTokenizer.no_units orig_batch = Ok u ->
  List.length (BatchTokenizer.needs_merge u)
  = List.length (BatchTokenizer.batch u) /\
  List.length (BatchTokenizer.wc u) = List.length (BatchTokenizer.batch u) /\
  hd false (BatchTokenizer.needs_merge u) = false /\
  Forall (fun w => 1 <= w) (BatchTokenizer.wc u) /\
  Forall (fun s => startswith s " " = true
                   \/ s = eos_token (BatchTokenizer.tokenizer self))
    (BatchTokenizer.batch u) /\
  List.length (filter negb (BatchTokenizer.needs_merge u))
  = List.length (filter terminated orig_batch).
Proof.
  rewrite split_records_closed_form.
  destruct (existsb blank orig_batch); [discriminate|].
  intros E. injection E as <-.
  apply (kept_units_invariants self (filter terminated orig_batch)).
  apply filter_terminated_kept.
Qed.

Lemma split_records_invariants_witness :
  let u :=
    {| BatchTokenizer.batch := [" Hi."; " How are you?"; "<eos>"; " Yes!"; "<eos>"];
       BatchTokenizer.needs_merge := [false; true; true; false; true];
       BatchTokenizer.wc := [1; 3; 1; 1; 1] |} in
  BatchTokenizer.split_records char_batch_tokenizer BatchTokenizer.no_units
    ["Hi. How are you?"; "no full stop"; "Yes!"] = Ok u /\
  List.length (BatchTokenizer.needs_merge u)
  = List.length (BatchTokenizer.batch u) /\
  List.length (BatchTokenizer.wc u) = List.length (BatchTokenizer.batch u) /\
  hd false (BatchTokenizer.needs_merge u) = false /\
  Forall (fun w => 1 <= w) (BatchTokenizer.wc u) /\
  Forall (fun s => startswith s " " = true \/ s = "<eos>")
    (BatchTokenizer.batch u) /\
  List.length (filter negb (BatchTokenizer.needs_merge u)) = 2%nat.
Proof.
  split; [reflexivity|].
  apply (split_records_invariants char_batch_tokenizer
           ["Hi. How are you?"; "no full stop"; "Yes!"]).
  reflexivity.
Defined.

(** ** Every sentence of a kept record is terminated *)

Lemma ends_with_terminator_snoc (cur : string) (c : ascii) :
  ends_with_terminator (snoc cur c) = is_terminator c.
Proof. unfold ends_with_terminator. now rewrite str_last_snoc. Qed.

Lemma last_nonspace_cons (c : ascii) (r : string) :
  last_nonspace (String c r)
  = match last_nonspace r with
    | Some x => Some x
    | None => if is_space c then None else Some c
    end.
Proof. reflexivity. Qed.

(** A piece is cut behind a terminator, and the last piece is empty or
    ends the string: when the string ends with a terminator, up to
    whitespace, every piece that is not empty ends with one. *)
Lemma re_split_from_terminated (s : string) :
  forall (a b : bool) (cur : string),
    (a = true -> ends_with_terminator cur = true) ->
    (b = true -> cur = "") ->
    match last_nonspace s with
    | Some c => is_terminator c = true
    | None => a = true \/ b = true
    end ->
    Forall (fun p => p = "" \/ ends_with_terminator p = true)
      (re_split_from a b cur s).
Proof.
  induction s as [|c r IH]; intros a b cur Ha Hb G.
  - cbn [re_split_from]. constructor; [|constructor].
    cbn in G. destruct G as [G|G]; [right|left]; auto.
  - cbn [re_split_from]. rewrite last_nonspace_cons in G.
    destruct (is_space c) eqn:Ec.
    + destruct b.
      * apply IH; [discriminate|exact Hb|].
        destruct (last_nonspace r); [exact G|now right].
      * destruct a.
        -- constructor; [right; auto|].
           apply IH; [discriminate|reflexivity|].
           destruct (last_nonspace r); [exact G|now right].
        -- apply IH; [discriminate|discriminate|].
           destruct (last_nonspace r); [exact G|].
           destruct G; discriminate.
    + apply IH; [|discriminate|].
      * intros Ht. now rewrite ends_with_terminator_snoc.
      * destruct (last_nonspace r); [exact G|now left].
Qed.

Lemma ends_with_terminator_prefixed (c : ascii) (s : string) :
  s <> "" ->
  ends_with_terminator (String c s) = ends_with_terminator s.
Proof.
  intros Hs. unfold ends_with_terminator. destruct s; [congruence|].
  reflexivity.
Qed.

(** X5: a record that passes the filter has at least one sentence,
    and each of its sentences ends with [.], [!] or [?]. *)
Theorem sentences_end_with_terminator (d : string) :
  BatchTokenizer.lacks_terminator d = Ok false ->
  BatchTokenizer.sentences_of d <> [] /\
  Forall (fun s => ends_with_terminator s = true)
    (BatchTokenizer.sentences_of d).
Proof.
  intros Hk. split; [now apply sentences_of_kept|].
  rewrite lacks_terminator_last_nonspace in Hk.
  assert (G : match last_nonspace d with
              | Some c => is_terminator c = true
              | None => false = true \/ false = true
              end).
  { destruct (last_nonspace d) as [c|]; [|discriminate].
    injection Hk as Hk. now destruct (is_terminator c). }
  pose proof (re_split_from_terminated d false false ""
                ltac:(discriminate) ltac:(discriminate) G) as Hp.
  unfold BatchTokenizer.sentences_of, re_split_sentences in *.
  rewrite Forall_forall in Hp. apply Forall_forall. intros s Hs.
  apply in_map_iff in Hs. destruct Hs as (p & <- & Hin).
  apply filter_In in Hin. destruct Hin as [Hin Hne].
  destruct (Hp p Hin) as [->|Ht]; [discriminate|].
  destruct (startswith p " "); [exact Ht|].
  cbn [append]. rewrite ends_with_terminator_prefixed; [exact Ht|].
  intros ->. discriminate.
Qed.

Lemma sentences_end_with_terminator_witness :
  BatchTokenizer.lacks_terminator "Hello world. This is a test.  " = Ok false /\
  BatchTokenizer.sentences_of "Hello world. This is a test.  " <> [] /\
  Forall (fun s => ends_with_terminator s = true)
    (BatchTokenizer.sentences_of "Hello world. This is a test.  ").
Proof.
  split; [reflexivity|].
  apply (sentences_end_with_terminator "Hello world. This is a test.  ").
  reflexivity.
Defined.

(** ** Boundary tokens can be told apart and stripped *)

Lemma filter_all {A : Type} (f : A -> bool) (l : list A) :
  Forall (fun x => f x = true) l -> filter f l = l.
Proof. induction 1 as [|x l Hx _ IH]; simpl; [reflexivity|]. now rewrite Hx, IH. Qed.

Lemma filter_concat {A : Type} (f : A -> bool) (l : list (list A)) :
  filter f (List.concat l) = List.concat (map (filter f) l).
Proof.
  induction l as [|x l IH]; simpl; [reflexivity|].
  now rewrite filter_app, IH.
Qed.

Lemma chunks_map {A B : Type} (f : A -> B) (ks : list nat) :
  forall l : list A, chunks ks (map f l) = map (map f) (chunks ks l).
Proof.
  induction ks as [|k ks IH]; intros l; simpl; [reflexivity|].
  now rewrite firstn_map, skipn_map, IH.
Qed.

Lemma chunks_In {A : Type} (ks : list nat) :
  forall (l g : list A) (x : A), In g (chunks ks l) -> In x g -> In x l.
Proof.
  induction ks as [|k ks IH]; intros l g x Hg Hx; simpl in Hg; [contradiction|].
  rewrite <- (firstn_skipn k l). apply in_or_app.
  destruct Hg as [<-|Hg]; [now left|right]. now apply (IH _ g).
Qed.

Lemma map_snd_combine {A B : Type} (a : list A) (b : list B) :
  List.length a = List.length b -> map snd (combine a b) = b.
Proof.
  revert b. induction a as [|x a IH]; intros [|y b] H; simpl in *;
    try discriminate; [reflexivity|]. f_equal. apply IH. lia.
Qed.

(** A boundary token is above [eos_token_id] as soon as the word count
    is not negative. *)
Lemma annotate_strip (eos max : Z) (f : Z * list Z) :
  0 <= fst f ->
  Forall (fun t => t <= eos) (snd f) ->
  filter (fun t => t <=? eos) (annotate eos max f) = snd f.
Proof.
  intros Hw Ht.
  assert (Hf : filter (fun t => t <=? eos) (snd f) = snd f).
  { apply filter_all. eapply Forall_impl; [|exact Ht].
    intros t Hle. now apply Z.leb_le. }
  unfold annotate. destruct (eligible_fragment eos max f); [|exact Hf].
  cbn [filter].
  replace (fst f + eos + 1 <=? eos) with false
    by (symmetry; apply Z.leb_gt; lia).
  exact Hf.
Qed.

Lemma merge_group_strip (eos max : Z) (g : list (Z * list Z)) :
  Forall (fun f => 0 <= fst f /\ Forall (fun t => t <= eos) (snd f)) g ->
  filter (fun t => t <=? eos) (merge_group eos max g)
  = List.concat (map snd g).
Proof.
  intros H. unfold merge_group. rewrite filter_concat, map_map. f_equal.
  induction H as [|f g [Hw Ht] _ IH]; simpl; [reflexivity|].
  now rewrite annotate_strip, IH.
Qed.

(** X6: when no token of the tokenizer exceeds [eos_token_id], the
    boundary tokens that [__call__] inserts can be told from the others:
    dropping the tokens above [eos_token_id] from a merged sequence gives
    back the tokens of the units of its record (the sentences and the
    end token), end to end. *)
Theorem call_boundary_tokens_strip (self : BatchTokenizer.t)
    (orig_batch : list string) :
  list_tokenizer (BatchTokenizer.tokenizer self) ->
  Forall kept orig_batch ->
  let sentences := map (record_sentences self) orig_batch in
  let eos := BatchTokenizer._eos_token_id self in
  Forall (fun kv => forall v, snd kv = ListSeqs v ->
                    Forall (Forall (fun t => t <= eos)) v)
    (tokenize (BatchTokenizer.tokenizer self) (List.concat sentences)) ->
  exists out,
    BatchTokenizer.__call__ self orig_batch = Ok out /\
    Forall2
      (fun kv kv' =>
         fst kv' = fst kv /\
         exists v v_out,
           snd kv = ListSeqs v /\ snd kv' = ListSeqs v_out /\
           map (filter (fun t => t <=? eos)) v_out
           = map (@List.concat Z)
               (chunks (map (@List.length string) sentences) v))
      (tokenize (BatchTokenizer.tokenizer self) (List.concat sentences))
      out.
Proof.
  intros Htk Hk sentences eos Hvocab.
  eexists. split; [now apply call_lists|].
  apply Forall2_dict_map.
  destruct (proj2 Htk (List.concat sentences)) as [_ Hit].
  { unfold sentences. apply Forall_concat, Forall_map, Forall_forall.
    intros d _. now apply record_sentences_not_empty. }
  rewrite Forall_forall in Hit, Hvocab. apply Forall_forall.
  intros [k fv] Hin.
  destruct (Hit _ Hin) as (v & Hfv & Hlen & _).
  specialize (Hvocab _ Hin v Hfv). cbn [fst snd] in *. subst fv.
  split; [reflexivity|]. eexists v, _. split; [reflexivity|].
  split; [reflexivity|].
  set (wcs := List.concat (map (record_word_counts self) orig_batch)).
  set (ks := map (fun d => List.length (record_sentences self d)) orig_batch).
  assert (Hks : map (@List.length string) sentences = ks).
  { unfold sentences, ks. now rewrite map_map. }
  assert (Hwl : List.length wcs = List.length v).
  { rewrite Hlen. unfold wcs, sentences. rewrite !length_concat, !map_map.
    f_equal. apply map_ext. intros d. apply record_word_counts_length. }
  assert (Hw : Forall (fun w => 1 <= w) wcs).
  { unfold wcs. apply Forall_concat, Forall_map.
    eapply Forall_impl; [|exact Hk]. intros d Hd.
    now apply record_word_counts_positive. }
  rewrite Hks, map_map.
  rewrite <- (map_snd_combine wcs v Hwl) at 2.
  rewrite chunks_map, map_map.
  apply map_ext_in. intros g Hg. apply merge_group_strip.
  apply Forall_forall. intros [w toks] Hf.
  apply (chunks_In ks _ g _ Hg) in Hf.
  rewrite Forall_forall in Hw, Hvocab. cbn [fst snd]. split.
  - apply in_combine_l in Hf. specialize (Hw _ Hf). cbn beta in Hw. lia.
  - apply in_combine_r in Hf. exact (Hvocab _ Hf).
Qed.

Lemma call_boundary_tokens_strip_witness :
  list_tokenizer char_tokenizer /\
  Forall kept ["Hello world. This is a test."; "Yes!"] /\
  Forall (fun kv => forall v, snd kv = ListSeqs v ->
                    Forall (Forall (fun t => t <= 256)) v)
    (tokenize char_tokenizer
       [" Hello world."; " This is a test."; "<eos>"; " Yes!"; "<eos>"]) /\
  exists out,
    BatchTokenizer.__call__ char_batch_tokenizer
      ["Hello world. This is a test."; "Yes!"] = Ok out /\
    Forall2
      (fun kv kv' =>
         fst kv' = fst kv /\
         exists v v_out,
           snd kv = ListSeqs v /\ snd kv' = ListSeqs v_out /\
           map (filter (fun t => t <=? 256)) v_out
           = map (@List.concat Z) (chunks [3; 2]%nat v))
      (tokenize char_tokenizer
         [" Hello world."; " This is a test."; "<eos>"; " Yes!"; "<eos>"])
      out.
Proof.
  assert (Hk : Forall kept ["Hello world. This is a test."; "Yes!"])
    by (repeat constructor).
  assert (Hv : Forall (fun kv => forall v, snd kv = ListSeqs v ->
                         Forall (Forall (fun t => t <= 256)) v)
                 (tokenize char_tokenizer
                    [" Hello world."; " This is a test."; "<eos>"; " Yes!";
                     "<eos>"])).
  { repeat constructor. intros v E. cbn in E. injection E as <-.
    repeat constructor; vm_compute; discriminate. }
  split; [exact char_tokenizer_lists|]. split; [exact Hk|].
  split; [exact Hv|].
  exact (call_boundary_tokens_strip char_batch_tokenizer
           ["Hello world. This is a test."; "Yes!"] char_tokenizer_lists Hk Hv).
Defined.

(** ** The merge of a list-valued field that is too short *)

Section ShortField.

Import BatchTokenizer.

Variables (nm : list bool) (wc : list Z) (v : list (list Z)).
Variables eos max : Z.

Let step := list_step nm wc v eos max.

Lemma getitem_index_error {A : Type} (l : list A) (i : nat) :
  index_error_only (getitem l i).
Proof. unfold getitem. now destruct (nth_error l i). Qed.

Lemma eligible_index_error (w : Z) (vi : list Z) :
  index_error_only (eligible w max eos vi).
Proof.
  unfold eligible. destruct (w <? max); [|exact I].
  apply index_error_only_bind; [apply getitem_index_error|]. intros x. exact I.
Qed.

Lemma list_step_index_error (st : merge_state) (i : nat) :
  index_error_only (step st i).
Proof.
  unfold step, list_step. destruct st as [v_out vs].
  apply index_error_only_bind; [apply getitem_index_error|]. intros flag.
  destruct (negb flag);
    (apply index_error_only_bind; [apply getitem_index_error|]; intros w;
     apply index_error_only_bind; [apply getitem_index_error|]; intros vi;
     apply index_error_only_bind; [apply eligible_index_error|]; intros pre;
     exact I).
Qed.

(** An index past the end of the field makes the step raise, if nothing
    raised before [v[i]] is read. *)
Lemma list_step_beyond (st : merge_state) (i : nat) :
  (List.length v <= i)%nat -> step st i = Raise IndexError.
Proof.
  intros Hi. unfold step, list_step. destruct st as [v_out vs].
  destruct (getitem nm i) as [flag|e] eqn:Ef.
  2:{ pose proof (getitem_index_error nm i) as H. rewrite Ef in H.
      simpl in H. now subst e. }
  cbn [Py.bind].
  destruct (negb flag);
    (destruct (getitem wc i) as [w|e] eqn:Ew;
     [|pose proof (getitem_index_error wc i) as H; rewrite Ew in H;
       simpl in H; now subst e];
     cbn [Py.bind]; unfold getitem at 1;
     replace (nth_error v i) with (@None (list Z))
       by (symmetry; now apply nth_error_None);
     reflexivity).
Qed.

Lemma for_each_beyond (indices : list nat) (i : nat) :
  In i indices -> (List.length v <= i)%nat ->
  forall st, for_each step st indices = Raise IndexError.
Proof.
  intros Hin Hi. induction indices as [|j indices IH]; [inversion Hin|].
  intros st. cbn [for_each].
  pose proof (list_step_index_error st j) as He.
  destruct (step st j) as [st'|e] eqn:Es.
  - cbn [Py.bind]. destruct Hin as [->|Hin].
    + rewrite list_step_beyond in Es by assumption. discriminate.
    + now apply IH.
  - simpl in He. now subst e.
Qed.

End ShortField.

(** X7: [_merge_split_encodings] raises [IndexError] when its first
    field is list-valued and has fewer sequences than the batch has
    strings: the list branch has no assertion on the lengths, unlike the
    array branch. *)
Theorem merge_split_encodings_short_list_raises (batch : list string)
    (k : string) (a : list Z) (v : list (list Z)) (rest : BatchEncoding)
    (needs_merge : list bool) (wc : list Z) (eos_token_id max_sentence_len : Z) :
  (List.length (a :: v) < List.length batch)%nat ->
  BatchTokenizer._merge_split_encodings batch ((k, ListSeqs (a :: v)) :: rest)
    needs_merge wc eos_token_id max_sentence_len
  = Raise IndexError.
Proof.
  intros Hlen. unfold BatchTokenizer._merge_split_encodings.
  cbn [BatchTokenizer.merge_fields BatchTokenizer.merge_field].
  rewrite (for_each_beyond needs_merge wc (a :: v) eos_token_id
             max_sentence_len (seq 0 (List.length batch))
             (List.length (a :: v))); [reflexivity| |lia].
  apply in_seq. lia.
Qed.

Lemma merge_split_encodings_short_list_raises_witness :
  (List.length [[32; 72; 105; 46]] < List.length [" Hi."; "<eos>"])%nat /\
  BatchTokenizer._merge_split_encodings [" Hi."; "<eos>"]
    [("input_ids", ListSeqs [[32; 72; 105; 46]])] [false; true] [1; 1] 256 1024
  = Raise IndexError.
Proof.
  split; [simpl; lia|].
  apply (merge_split_encodings_short_list_raises [" Hi."; "<eos>"] "input_ids"
           [32; 72; 105; 46] [] [] [false; true] [1; 1] 256 1024).
  simpl. lia.
Defined.

(** ** Windows: exceptions, sizes, dropping the remainder *)

(** With [stride = seq_len] the mask is off: a window is the plain
    slice of every field. *)
Lemma windows_no_overlap (concatenated : dict (list Z)) (seq_len : Z)
    (mask_stride_overlap : bool) (begins : list Z) :
  windows concatenated seq_len seq_len mask_stride_overlap begins
  = {| yielded :=
         map (fun begin =>
                dict_map (fun v => slice v begin (begin + seq_len)) concatenated)
           begins;
       raised := None |}.
Proof.
  induction begins as [|b begins IH]; [reflexivity|].
  cbn [windows map]. unfold window at 1.
  rewrite Z.eqb_refl, andb_false_r, IH. reflexivity.
Qed.

(** The number of values of [begin] when the remainder is dropped. *)
Lemma drop_remainder_count (L s : nat) :
  (0 < s)%nat ->
  let total :=
    if negb (Z.of_nat L mod Z.of_nat s =? 0)
    then (Z.of_nat L - Z.of_nat s + Z.of_nat s) / Z.of_nat s * Z.of_nat s
    else Z.of_nat L in
  Z.to_nat ((total - Z.of_nat s + Z.of_nat s + Z.of_nat s - 1) / Z.of_nat s)
  = (L / s)%nat.
Proof.
  intros Hs total.
  assert (Ht : total = Z.of_nat (L / s) * Z.of_nat s).
  { unfold total. rewrite Nat2Z.inj_div.
    destruct (Z.of_nat L mod Z.of_nat s =? 0) eqn:E; cbn [negb].
    - apply Z.eqb_eq in E.
      pose proof (Z.div_mod (Z.of_nat L) (Z.of_nat s) ltac:(lia)). lia.
    - f_equal. f_equal. lia. }
  rewrite Ht.
  rewrite <- (Z.div_unique _ _ (Z.of_nat (L / s)) (Z.of_nat s - 1));
    [apply Nat2Z.id | lia | lia].
Qed.

Section DropRemainder.

Variable encoding : dict (list (list Z)).
Variable rows : list (list Z).
Variable s : nat.
Variable stride : option Z.
Variable mask_stride_overlap : bool.

Hypothesis s_pos : (0 < s)%nat.
Hypothesis same_stride : int_or stride (Z.of_nat s) = Z.of_nat s.
Hypothesis has_input_ids : dict_get encoding "input_ids" = Some rows.

Let tokens := List.concat rows.

Lemma drop_remainder_windows :
  concatenate_and_group_texts encoding (Z.of_nat s) stride true
    mask_stride_overlap
  = {| yielded :=
         map (fun i =>
                dict_map (fun v => slice v (Z.of_nat i * Z.of_nat s)
                                     (Z.of_nat i * Z.of_nat s + Z.of_nat s))
                  (dict_map (@List.concat Z) encoding))
           (seq 0 (List.length tokens / s));
       raised := None |}.
Proof.
  unfold concatenate_and_group_texts, dict_attr.
  rewrite dict_get_map, has_input_ids. cbn [option_map Py.bind].
  unfold window_begins. rewrite same_stride. unfold mod_.
  replace (Z.of_nat s =? 0) with false by (symmetry; apply Z.eqb_neq; lia).
  cbn [Py.bind]. rewrite range0_positive by lia. cbn [Py.bind].
  fold tokens. rewrite (drop_remainder_count (List.length tokens) s s_pos).
  rewrite windows_no_overlap, map_map. reflexivity.
Qed.

Lemma drop_remainder_input_ids :
  map (fun data => dict_get data "input_ids")
    (yielded (concatenate_and_group_texts encoding (Z.of_nat s) stride true
                mask_stride_overlap))
  = map Some (map (fun i => firstn s (skipn (i * s) tokens))
                (seq 0 (List.length tokens / s))).
Proof.
  rewrite drop_remainder_windows. cbn [yielded]. rewrite !map_map.
  apply map_ext. intros i.
  rewrite !dict_get_map, has_input_ids. cbn [option_map]. f_equal.
  rewrite slice_from by lia. rewrite Nat2Z.id. fold tokens.
  do 2 f_equal. lia.
Qed.

End DropRemainder.

Lemma drop_remainder_blocks (encoding : dict (list (list Z)))
    (rows : list (list Z)) (s : nat) (stride : option Z)
    (mask_stride_overlap : bool) :
  (0 < s)%nat ->
  int_or stride (Z.of_nat s) = Z.of_nat s ->
  dict_get encoding "input_ids" = Some rows ->
  let tokens := List.concat rows in
  let emitted :=
    concatenate_and_group_texts encoding (Z.of_nat s) stride true
      mask_stride_overlap in
  raised emitted = None /\
  List.length (yielded emitted) = (List.length tokens / s)%nat /\
  exists ws,
    map (fun data => dict_get data "input_ids") (yielded emitted) = map Some ws /\
    Forall (fun w => List.length w = s) ws /\
    List.concat ws = firstn (List.length tokens / s * s) tokens.
Proof.
  intros Hs Hst Hids tokens emitted.
  split; [|split].
  - unfold emitted. now rewrite (drop_remainder_windows encoding rows s).
  - unfold emitted. rewrite (drop_remainder_windows encoding rows s) by assumption.
    cbn [yielded]. now rewrite length_map, length_seq.
  - eexists. split; [|split].
    + exact (drop_remainder_input_ids encoding rows s stride
               mask_stride_overlap Hs Hst Hids).
    + apply Forall_map, Forall_forall. intros i Hi. apply in_seq in Hi.
      rewrite length_firstn, length_skipn. fold tokens in Hi |- *.
      clearbody tokens.
      pose proof (Nat.div_mod_eq (List.length tokens) s) as Hdm.
      assert (Hle : ((i + 1) * s <= List.length tokens / s * s)%nat)
        by (apply Nat.mul_le_mono_r; lia).
      rewrite Nat.mul_add_distr_r in Hle. rewrite (Nat.mul_comm s) in Hdm. lia.
    + fold tokens. now apply concat_blocks.
Qed.

(** X8: with [drop_remainder] set and the stride left to [seq_len]
    (the defaults), for a positive [seq_len],
    [concatenate_and_group_texts] ends without exception and yields
    [floor(L / seq_len)] windows; their [input_ids] have [seq_len]
    tokens each and are, end to end, the first
    [floor(L / seq_len) * seq_len] tokens. *)
Theorem drop_remainder_full_windows (encoding : dict (list (list Z)))
    (rows : list (list Z)) (seq_len : Z) (stride : option Z)
    (mask_stride_overlap : bool) :
  0 < seq_len ->
  int_or stride seq_len = seq_len ->
  dict_get encoding "input_ids" = Some rows ->
  let tokens := List.concat rows in
  let emitted :=
    concatenate_and_group_texts encoding seq_len stride true
      mask_stride_overlap in
  raised emitted = None /\
  Z.of_nat (List.length (yielded emitted))
  = Z.of_nat (List.length tokens) / seq_len /\
  exists ws,
    map (fun data => dict_get data "input_ids") (yielded emitted) = map Some ws /\
    Forall (fun w => Z.of_nat (List.length w) = seq_len) ws /\
    List.concat ws
    = firstn (Z.to_nat (Z.of_nat (List.length tokens) / seq_len * seq_len))
        tokens.
Proof.
  intros Hpos Hst Hids. rewrite <- (Z2Nat.id seq_len) in * by lia.
  set (s := Z.to_nat seq_len) in *.
  assert (Hs : (0 < s)%nat) by lia. clearbody s. clear Hpos.
  destruct (drop_remainder_blocks encoding rows s stride mask_stride_overlap
              Hs Hst Hids) as (Hr & Hn & ws & Hws & Hfull & Hcat).
  cbv zeta. split; [exact Hr|]. split.
  - rewrite Hn. apply Nat2Z.inj_div.
  - exists ws. split; [exact Hws|]. split.
    + eapply Forall_impl; [|exact Hfull]. intros w Hw. simpl in Hw. lia.
    + rewrite Hcat. f_equal.
      now rewrite <- Nat2Z.inj_div, <- Nat2Z.inj_mul, Nat2Z.id.
Qed.

Lemma drop_remainder_full_windows_witness :
  0 < 4 /\
  int_or None 4 = 4 /\
  dict_get [("input_ids", [[0; 1; 2; 3; 4; 5]; [6; 7; 8; 9]])] "input_ids"
  = Some [[0; 1; 2; 3; 4; 5]; [6; 7; 8; 9]] /\
  let emitted :=
    concatenate_and_group_texts
      [("input_ids", [[0; 1; 2; 3; 4; 5]; [6; 7; 8; 9]])] 4 None true true in
  raised emitted = None /\
  Z.of_nat (List.length (yielded emitted)) = 2 /\
  exists ws,
    map (fun data => dict_get data "input_ids") (yielded emitted) = map Some ws /\
    Forall (fun w => Z.of_nat (List.length w) = 4) ws /\
    List.concat ws = [0; 1; 2; 3; 4; 5; 6; 7].
Proof.
  split; [lia|]. split; [reflexivity|]. split; [reflexivity|].
  apply (drop_remainder_full_windows
           [("input_ids", [[0; 1; 2; 3; 4; 5]; [6; 7; 8; 9]])]
           [[0; 1; 2; 3; 4; 5]; [6; 7; 8; 9]] 4 None true);
    [lia|reflexivity|reflexivity].
Defined.

Lemma window_begins_zero (total_length seq_len : Z) (stride : option Z)
    (drop_remainder : bool) :
  int_or stride seq_len = 0 ->
  window_begins total_length seq_len stride drop_remainder
  = Raise (if drop_remainder then ZeroDivisionError else ValueError).
Proof.
  intros Hz. unfold window_begins, mod_, range0. rewrite Hz.
  now destruct drop_remainder.
Qed.

Lemma window_begins_nonzero (total_length seq_len : Z) (stride : option Z)
    (drop_remainder : bool) :
  int_or stride seq_len <> 0 ->
  exists begins,
    window_begins total_length seq_len stride drop_remainder
    = Ok (int_or stride seq_len, begins).
Proof.
  intros Hz. apply Z.eqb_neq in Hz. unfold window_begins, mod_, range0.
  rewrite Hz. destruct drop_remainder; cbn [Py.bind]; rewrite ?Hz;
    cbn [Py.bind]; eexists; reflexivity.
Qed.

(** X9: the exceptions of [concatenate_and_group_texts]:
    [AttributeError] when the encoding has no [input_ids]; otherwise,
    when the stride in force ([stride or seq_len]) is zero,
    [ZeroDivisionError] with [drop_remainder] and [ValueError] without
    it; otherwise none. An exception comes before the first window. *)
Theorem concatenate_and_group_texts_exceptions
    (encoding : dict (list (list Z))) (seq_len : Z) (stride : option Z)
    (drop_remainder mask_stride_overlap : bool) :
  let emitted :=
    concatenate_and_group_texts encoding seq_len stride drop_remainder
      mask_stride_overlap in
  raised emitted
  = match dict_get encoding "input_ids" with
    | None => Some AttributeError
    | Some _ =>
        if int_or stride seq_len =? 0
        then Some (if drop_remainder then ZeroDivisionError else ValueError)
        else None
    end
  /\ (raised emitted <> None -> yielded emitted = []).
Proof.
  cbv zeta. unfold concatenate_and_group_texts, dict_attr.
  rewrite dict_get_map.
  destruct (dict_get encoding "input_ids") as [rows|] eqn:Hids;
    cbn [option_map Py.bind]; [|split; reflexivity].
  destruct (Z.eqb_spec (int_or stride seq_len) 0) as [Hz|Hz].
  - rewrite window_begins_zero by assumption. split; reflexivity.
  - destruct (window_begins_nonzero
                (Z.of_nat (List.length (List.concat rows))) seq_len stride
                drop_remainder Hz) as (begins & ->).
    destruct (windows_all (dict_map (@List.concat Z) encoding)
                (List.concat rows) seq_len (int_or stride seq_len)
                mask_stride_overlap
                ltac:(now rewrite dict_get_map, Hids) begins) as (ds & E & _).
    rewrite E. split; [reflexivity|]. cbn [raised]. congruence.
Qed.

(** ** The size of a window *)

Lemma slice_length_bound {A : Type} (l : list A) (b seq_len : Z) :
  0 <= seq_len ->
  Z.of_nat (List.length (slice l b (b + seq_len))) <= seq_len.
Proof.
  intros H. pose proof (slice_length_le l b seq_len H). lia.
Qed.

Lemma window_fits (concatenated : dict (list Z)) (seq_len stride : Z)
    (mask_stride_overlap : bool) (begin : Z) (data : dict (list Z)) :
  0 <= seq_len ->
  window concatenated seq_len stride mask_stride_overlap begin = Ok data ->
  Forall (fun kv => Z.of_nat (List.length (snd kv)) <= seq_len) data.
Proof.
  intros Hs. unfold window.
  set (sliced := dict_map (fun v => slice v begin (begin + seq_len)) concatenated).
  assert (Hsl : Forall (fun kv => Z.of_nat (List.length (snd kv)) <= seq_len)
                  sliced).
  { unfold sliced.
    apply (dict_map_Forall (fun _ => True)
             (fun v => Z.of_nat (List.length v) <= seq_len)).
    - apply Forall_forall. auto.
    - intros v _. now apply slice_length_bound. }
  destruct (mask_stride_overlap && negb (stride =? seq_len)).
  - unfold dict_item.
    destruct (dict_get sliced "input_ids") as [ids|] eqn:Hids; [|discriminate].
    cbn [Py.bind]. intros E. injection E as <-.
    apply (dict_set_Forall (fun v => Z.of_nat (List.length v) <= seq_len));
      [exact Hsl|].
    assert (Hl : Z.of_nat (List.length
                   match dict_get sliced "labels" with
                   | Some l => l
                   | None => ids
                   end) <= seq_len).
    { destruct (dict_get sliced "labels") as [l|] eqn:Hl.
      - exact (dict_get_Forall (fun v => Z.of_nat (List.length v) <= seq_len)
                 sliced "labels" l Hsl Hl).
      - exact (dict_get_Forall (fun v => Z.of_nat (List.length v) <= seq_len)
                 sliced "input_ids" ids Hsl Hids). }
    destruct (negb (begin =? 0)); [|exact Hl].
    unfold _mask_overlap. now rewrite fill_slice_length.
  - intros E. injection E as <-. exact Hsl.
Qed.

Lemma windows_fit (concatenated : dict (list Z)) (seq_len stride : Z)
    (mask_stride_overlap : bool) (begins : list Z) :
  0 <= seq_len ->
  Forall (fun data =>
            Forall (fun kv => Z.of_nat (List.length (snd kv)) <= seq_len) data)
    (yielded (windows concatenated seq_len stride mask_stride_overlap begins)).
Proof.
  intros Hs. induction begins as [|b begins IH]; cbn [windows]; [constructor|].
  destruct (window concatenated seq_len stride mask_stride_overlap b)
    as [data|e] eqn:E; [|constructor].
  cbn [stream_cons yielded]. constructor; [|exact IH].
  now apply (window_fits concatenated seq_len stride mask_stride_overlap b).
Qed.

(** X10: for [seq_len >= 0], no field of a window that
    [concatenate_and_group_texts] yields, [labels] included, has more
    than [seq_len] entries, whatever the stride and the flags. *)
Theorem windows_fit_seq_len (encoding : dict (list (list Z))) (seq_len : Z)
    (stride : option Z) (drop_remainder mask_stride_overlap : bool) :
  0 <= seq_len ->
  Forall (fun data =>
            Forall (fun kv => Z.of_nat (List.length (snd kv)) <= seq_len) data)
    (yielded (concatenate_and_group_texts encoding seq_len stride
                drop_remainder mask_stride_overlap)).
Proof.
  intros Hs. unfold concatenate_and_group_texts.
  destruct (ids <- dict_attr (dict_map (@List.concat Z) encoding) "input_ids" ;;
            window_begins (Z.of_nat (List.length ids)) seq_len stride
              drop_remainder) as [[stride' begins]|e]; [|constructor].
  now apply windows_fit.
Qed.

Lemma windows_fit_seq_len_witness :
  0 <= 4 /\
  Forall (fun data =>
            Forall (fun kv => Z.of_nat (List.length (snd kv)) <= 4) data)
    (yielded (concatenate_and_group_texts
                [("input_ids", [[0; 1; 2; 3; 4; 5]; [6; 7; 8; 9]]);
                 ("attention_mask", [[1; 1; 1; 1; 1; 1]; [1; 1; 1; 1]])]
                4 (Some 3) false true)).
Proof.
  split; [lia|].
  apply (windows_fit_seq_len
           [("input_ids", [[0; 1; 2; 3; 4; 5]; [6; 7; 8; 9]]);
            ("attention_mask", [[1; 1; 1; 1; 1; 1]; [1; 1; 1; 1]])]
           4 (Some 3) false true).
  lia.
Defined.

(** ** What the generator leaves untouched *)

(** X11: [concatenate_and_group_texts] writes into buffers of its own
    only: the buffers that existed before the call are the same after
    it, and every array of the caller reads the same entries. *)
Theorem concatenate_and_group_texts_writes_fresh (h : Np.store)
    (encoding : dict (list (list Z))) (seq_len : Z) (stride : option Z)
    (drop_remainder mask_stride_overlap : bool) (a : Np.ndarray) :
  Np.valid h a ->
  let r := Np.concatenate_and_group_texts h encoding seq_len stride
             drop_remainder mask_stride_overlap in
  Np.valid (fst r) a /\
  Np.read (fst r) a = Np.read h a /\
  firstn (List.length h) (fst r) = h.
Proof.
  intros Ha r.
  destruct (concatenate_and_group_texts_refines h encoding seq_len stride
              drop_remainder mask_stride_overlap) as ((delta & Hd) & _).
  fold r in Hd. rewrite Hd.
  split; [now apply valid_app|]. split; [now apply read_app|].
  rewrite firstn_app, Nat.sub_diag, firstn_all. cbn [firstn].
  apply app_nil_r.
Qed.

Lemma concatenate_and_group_texts_writes_fresh_witness :
  let h := [[7; 8; 9; 10]] in
  let a := {| Np.base := 0; Np.offset := 1; Np.size := 2 |} in
  Np.valid h a /\
  let r := Np.concatenate_and_group_texts h
             [("input_ids", [[0; 1; 2; 3; 4; 5]; [6; 7; 8; 9]])] 4 (Some 2)
             false true in
  Np.valid (fst r) a /\
  Np.read (fst r) a = [8; 9] /\
  firstn 1 (fst r) = h.
Proof.
  split; [split; simpl; lia|].
  apply (concatenate_and_group_texts_writes_fresh [[7; 8; 9; 10]]
           [("input_ids", [[0; 1; 2; 3; 4; 5]; [6; 7; 8; 9]])] 4 (Some 2)
           false true {| Np.base := 0; Np.offset := 1; Np.size := 2 |}).
  split; simpl; lia.
Defined.

(** ** Stacking *)

(** The first key of [a] that [b] lacks raises. *)
Lemma stack_items_missing (items a b : dict encoded) :
  (forall k, In k (map fst items) -> exists x, dict_get a k = Some x) ->
  Exists (fun k => dict_get b k = None) (map fst items) ->
  stack_items items a b = Raise KeyError.
Proof.
  induction items as [|[k0 z] items IH]; intros Ha Hb; cbn [map fst] in *.
  - inversion Hb.
  - cbn [stack_items]. unfold dict_item.
    destruct (Ha k0 (or_introl eq_refl)) as (x0 & ->). cbn [Py.bind].
    destruct (dict_get b k0) as [y0|] eqn:Ey; [|reflexivity].
    cbn [Py.bind]. rewrite IH; [reflexivity| |].
    + intros k Hk. apply Ha. now right.
    + inversion Hb as [? ? Hn|? ? Hn]; subst; [congruence|exact Hn].
Qed.

(** X12: [_stack_batch_encodings a b] raises [KeyError] when a key of
    [a] is missing from [b]; otherwise its result has the keys of [a],
    in the order of [a] (keys that only [b] has are dropped), and under
    each key the sequences of [a] followed by those of [b]. *)
Theorem stack_batch_encodings_outcome (a b : dict encoded) :
  (Forall (fun k => dict_get b k <> None) (map fst a) ->
   exists r,
     _stack_batch_encodings a b = Ok r /\
     map fst r = map fst a /\
     forall k x y,
       dict_get a k = Some x -> dict_get b k = Some y ->
       dict_get r k = Some (_ensure_batched x ++ _ensure_batched y)) /\
  (Exists (fun k => dict_get b k = None) (map fst a) ->
   _stack_batch_encodings a b = Raise KeyError).
Proof.
  assert (Hin : forall (d : dict encoded) k x,
                  dict_get d k = Some x -> In k (map fst d)).
  { intros d k x. induction d as [|[k' v] d IH]; simpl; [discriminate|].
    destruct (String.eqb_spec k' k); auto. }
  split.
  - intros Hb. unfold _stack_batch_encodings.
    destruct (stack_items_spec a a b) as (r & Er & Kr & Gr).
    { intros k Hk. split; [now apply dict_get_in|].
      rewrite Forall_forall in Hb. specialize (Hb k Hk).
      destruct (dict_get b k) as [y|]; [eauto|congruence]. }
    exists r. split; [exact Er|]. split; [exact Kr|].
    intros k x y Hx Hy. apply Gr; eauto.
  - intros Hb. apply stack_items_missing; [|exact Hb].
    intros k Hk. now apply dict_get_in.
Qed.

(** ** The mask on a list *)

Lemma setitem_app {A : Type} (pre rest : list A) (a x : A) :
  setitem (pre ++ a :: rest) (List.length pre) x = Ok (pre ++ x :: rest).
Proof.
  induction pre as [|p pre IH]; simpl; [reflexivity|]. now rewrite IH.
Qed.

Lemma mask_loop_beyond (l : list Z) (x : Z) (m : nat) :
  forall j, (List.length l <= j)%nat -> mask_loop l x (seq j m) = Ok l.
Proof.
  induction m as [|m IH]; intros j Hj; simpl; [reflexivity|].
  replace (j <? List.length l)%nat with false
    by (symmetry; apply Nat.ltb_ge; lia).
  cbn [Py.bind]. apply IH. lia.
Qed.

(** The loop from index [length pre] on: it replaces the entries it
    finds and goes on, doing nothing, past the end. *)
Lemma mask_loop_from (x : Z) (m : nat) :
  forall (pre rest : list Z),
    mask_loop (pre ++ rest) x (seq (List.length pre) m)
    = Ok (pre ++ repeat x (Nat.min m (List.length rest)) ++ skipn m rest).
Proof.
  induction m as [|m IH]; intros pre rest; [reflexivity|].
  destruct rest as [|a rest].
  - rewrite mask_loop_beyond by (rewrite app_nil_r; lia).
    now destruct m.
  - cbn [seq mask_loop].
    replace (List.length pre <? List.length (pre ++ a :: rest))%nat with true
      by (symmetry; apply Nat.ltb_lt; rewrite length_app; simpl; lia).
    rewrite setitem_app. cbn [Py.bind].
    replace (pre ++ x :: rest) with ((pre ++ [x]) ++ rest)
      by now rewrite <- app_assoc.
    replace (S (List.length pre)) with (List.length (pre ++ [x]))
      by (rewrite length_app; simpl; lia).
    rewrite IH. cbn [List.length Nat.min repeat skipn].
    now rewrite <- app_assoc.
Qed.

(** X13: on a list, [_mask_overlap] never raises; for
    [stride <= target_len] it returns what the array branch returns on
    the same entries (the first [target_len - stride] of them replaced by
    the sentinel, the length kept), and for [stride > target_len] it
    returns the labels as they are. *)
Theorem mask_overlap_list_closed_form (labels : list Z)
    (target_len stride sentinel : Z) :
  _mask_overlap_list labels target_len stride sentinel
  = Ok (if stride <=? target_len
        then _mask_overlap labels target_len stride sentinel
        else labels).
Proof.
  unfold _mask_overlap_list.
  pose proof (mask_loop_from sentinel (Z.to_nat (target_len - stride)) []
                labels) as H.
  cbn [app List.length] in H. rewrite H. clear H. f_equal.
  destruct (stride <=? target_len) eqn:E.
  - apply Z.leb_le in E. unfold _mask_overlap, fill_slice, clamp.
    replace (0 <? 0) with false by reflexivity.
    replace (target_len - stride <? 0) with false
      by (symmetry; apply Z.ltb_ge; lia).
    cbn [Z.to_nat Nat.min firstn app]. rewrite Nat.sub_0_r.
    cbn [Nat.add]. f_equal.
    destruct (Nat.le_ge_cases (Z.to_nat (target_len - stride))
                (List.length labels)) as [H|H].
    + now rewrite Nat.min_l by assumption.
    + rewrite Nat.min_r by assumption.
      now rewrite !skipn_all2 by lia.
  - apply Z.leb_gt in E.
    replace (Z.to_nat (target_len - stride)) with 0%nat by lia.
    reflexivity.
Qed.

(** ** Strided windows: only the last one can be short *)

(** Every value of [begin] but the last is below [X - stride], [X]
    being the stop of the range. *)
Lemma window_count_bound (X st : Z) (i : nat) :
  0 < st ->
  (S i < Z.to_nat ((X + st - 1) / st))%nat ->
  (Z.of_nat i + 1) * st < X.
Proof.
  intros Hst Hi.
  pose proof (Z.div_mod (X + st - 1) st ltac:(lia)) as Hdm.
  pose proof (Z.mod_pos_bound (X + st - 1) st Hst) as Hm.
  assert (Hq : Z.of_nat i + 2 <= (X + st - 1) / st) by lia.
  nia.
Qed.

Section Strided.

Variable encoding : dict (list (list Z)).
Variable rows : list (list Z).
Variable seq_len : Z.
Variable stride : option Z.
Variable mask_stride_overlap : bool.

Hypothesis has_input_ids : dict_get encoding "input_ids" = Some rows.
Hypothesis stride_pos : 0 < int_or stride seq_len.

Let tokens := List.concat rows.
Let st := int_or stride seq_len.
Let n := Z.to_nat ((Z.of_nat (List.length tokens) - seq_len + st + st - 1) / st).
Let emitted :=
  concatenate_and_group_texts encoding seq_len stride false
    mask_stride_overlap.

(** The windows for a positive stride, the remainder kept: one per
    value of [begin], with the plain slice as [input_ids]. *)
Lemma strided_windows :
  exists ds,
    emitted = {| yielded := ds; raised := None |} /\
    Forall2 (fun i data =>
               dict_get data "input_ids"
               = Some (slice tokens (Z.of_nat i * st)
                         (Z.of_nat i * st + seq_len)))
      (seq 0 n) ds.
Proof.
  unfold emitted, concatenate_and_group_texts, dict_attr.
  rewrite dict_get_map, has_input_ids. cbn [option_map Py.bind].
  unfold window_begins. cbn [Py.bind]. fold st. fold tokens.
  rewrite range0_positive by exact stride_pos. cbn [Py.bind]. fold n.
  assert (Hc : dict_get (dict_map (@List.concat Z) encoding) "input_ids"
               = Some tokens) by now rewrite dict_get_map, has_input_ids.
  generalize (seq 0 n). intros l.
  induction l as [|i l (ds & E & F)]; cbn [map windows].
  - exists []. split; [reflexivity|constructor].
  - destruct (window_input_ids _ tokens seq_len st mask_stride_overlap Hc
                (Z.of_nat i * st)) as (data & Hw & Hd).
    rewrite Hw, E. exists (data :: ds). split; [reflexivity|].
    now constructor.
Qed.

Lemma strided_length (ds : list (dict (list Z))) :
  Forall2 (fun i data =>
             dict_get data "input_ids"
             = Some (slice tokens (Z.of_nat i * st)
                       (Z.of_nat i * st + seq_len)))
    (seq 0 n) ds ->
  List.length ds = n.
Proof. intros F. apply Forall2_length in F. now rewrite length_seq in F. Qed.

Lemma strided_but_last_long (ds : list (dict (list Z))) :
  Forall2 (fun i data =>
             dict_get data "input_ids"
             = Some (slice tokens (Z.of_nat i * st)
                       (Z.of_nat i * st + seq_len)))
    (seq 0 n) ds ->
  forall i data,
    nth_error ds i = Some data -> (S i < List.length ds)%nat ->
    long seq_len data.
Proof.
  intros F i data Hi Hlt.
  rewrite (strided_length ds F) in Hlt.
  destruct (Forall2_nth_error_r _ _ _ i data F Hi) as (j & Hj & Hd).
  assert (j = i).
  { pose proof (nth_error_nth (seq 0 n) i 0%nat Hj) as H.
    rewrite seq_nth in H by lia. lia. }
  subst j. exists (slice tokens (Z.of_nat i * st) (Z.of_nat i * st + seq_len)).
  split; [exact Hd|].
  destruct (Z.le_gt_cases seq_len 0) as [Hneg|Hpos]; [lia|].
  pose proof (window_count_bound
                (Z.of_nat (List.length tokens) - seq_len + st) st i stride_pos)
    as Hb.
  fold n in Hb. specialize (Hb Hlt).
  rewrite slice_from by lia.
  rewrite length_firstn, length_skipn. nia.
Qed.

End Strided.

(** ** TokenSeqDataset: what the iteration can raise *)

Lemma stack_items_key_error (items a b : dict encoded) (e : exn) :
  stack_items items a b = Raise e -> e = KeyError.
Proof.
  induction items as [|[k z] items IH]; cbn [stack_items]; [discriminate|].
  unfold dict_item.
  destruct (dict_get a k); cbn [Py.bind]; [|congruence].
  destruct (dict_get b k); cbn [Py.bind]; [|congruence].
  destruct (stack_items items a b) as [r|e']; cbn [Py.bind]; [discriminate|].
  intros E. injection E as <-. now apply IH.
Qed.

(** When only the last slice can be short, the inner loop of
    [__iter__] meets no second short slice. *)
Lemma consume_but_last_long (seq_len : Z) (slices : list (dict (list Z))) :
  (forall i d, nth_error slices i = Some d -> (S i < List.length slices)%nat ->
               long seq_len d) ->
  Forall (fun d => dict_get d "input_ids" <> None) slices ->
  raised (fst (TokenSeqDataset.consume seq_len None slices)) = None.
Proof.
  induction slices as [|x rest IH]; intros Hlong Hids; [reflexivity|].
  inversion Hids as [|? ? Hx Hrest]; subst.
  cbn [TokenSeqDataset.consume]. unfold dict_item.
  destruct (dict_get x "input_ids") as [ids|] eqn:Ex; [|congruence].
  destruct (Z.of_nat (List.length ids) <? seq_len) eqn:Elt.
  - destruct rest as [|y rest]; [reflexivity|].
    destruct (Hlong 0%nat x eq_refl ltac:(simpl; lia)) as (ids' & Hi & Hl).
    apply Z.ltb_lt in Elt. rewrite Ex in Hi. injection Hi as <-. lia.
  - specialize (IH (fun i d Hi Hlt => Hlong (S i) d Hi ltac:(simpl; lia)) Hrest).
    destruct (TokenSeqDataset.consume seq_len None rest) as [s extra].
    exact IH.
Qed.

Lemma iter_docs_raised (seq_len : Z) (stride : option Z)
    (docs : list (dict (list (list Z)))) :
  0 < int_or stride seq_len ->
  forall extra,
    let r := raised (TokenSeqDataset.iter_docs seq_len stride extra docs) in
    r = None \/ r = Some KeyError \/ r = Some AttributeError.
Proof.
  intros Hst. induction docs as [|doc docs IH]; intros extra; [now left|].
  cbn [TokenSeqDataset.iter_docs].
  destruct (match extra with
            | Some e => _stack_batch_encodings (dict_map Flat e)
                          (dict_map Batched doc)
            | None => Ok doc
            end) as [doc'|e] eqn:Es.
  2:{ right. left. destruct extra as [ex|]; [|discriminate].
      apply stack_items_key_error in Es. now subst e. }
  destruct (dict_get doc' "input_ids") as [rows|] eqn:Hids.
  - destruct (strided_windows doc' rows seq_len stride true Hids Hst)
      as (ds & E & F).
    rewrite E. cbn [yielded raised].
    pose proof (consume_but_last_long seq_len ds
                  (strided_but_last_long rows seq_len stride Hst ds F))
      as Hc.
    destruct (TokenSeqDataset.consume seq_len None ds) as [s extra'] eqn:Ec.
    cbn [fst] in Hc. rewrite Hc.
    + cbn [raised]. apply IH.
    + clear -F. induction F as [|i d l ds Hd _ IH]; constructor; [|exact IH].
      congruence.
  - assert (E : concatenate_and_group_texts doc' seq_len stride false true
                = stream_raise AttributeError).
    { unfold concatenate_and_group_texts, dict_attr.
      now rewrite dict_get_map, Hids. }
    rewrite E. cbn. right. right. reflexivity.
Qed.

(** X14: with a positive stride in force,
    [TokenSeqDataset.__iter__] ends normally, or with the [KeyError] of
    stacking a carried slice on a document that lacks one of its fields,
    or with the [AttributeError] of a document without [input_ids]. The
    assertion [extra_tokens is None] never fails: only the last slice of
    a document can be shorter than [seq_len]. *)
Theorem token_seq_dataset_exceptions (self : TokenSeqDataset.t) :
  0 < int_or (TokenSeqDataset.stride self) (TokenSeqDataset.seq_len self) ->
  let r := raised (TokenSeqDataset.__iter__ self) in
  r = None \/ r = Some KeyError \/ r = Some AttributeError.
Proof.
  intros Hst. unfold TokenSeqDataset.__iter__. now apply iter_docs_raised.
Qed.

Lemma token_seq_dataset_exceptions_witness :
  let self :=
    {| TokenSeqDataset.doc_cache :=
         [document [1; 2; 3; 4; 5]; document [6; 7; 8; 9; 10; 11; 12]];
       TokenSeqDataset.seq_len := 8;
       TokenSeqDataset.stride := Some 4 |} in
  0 < int_or (TokenSeqDataset.stride self) (TokenSeqDataset.seq_len self) /\
  let r := raised (TokenSeqDataset.__iter__ self) in
  r = None \/ r = Some KeyError \/ r = Some AttributeError.
Proof.
  split; [reflexivity|].
  apply (token_seq_dataset_exceptions
           {| TokenSeqDataset.doc_cache :=
                [document [1; 2; 3; 4; 5]; document [6; 7; 8; 9; 10; 11; 12]];
              TokenSeqDataset.seq_len := 8;
              TokenSeqDataset.stride := Some 4 |}).
  reflexivity.
Defined.

(** X15: without [drop_remainder], with a positive stride in force
    and [seq_len >= 0], [concatenate_and_group_texts] ends without
    exception, yields [ceil((L - seq_len + stride) / stride)] windows
    (none when that is not positive), and the [input_ids] of every
    window but the last has exactly [seq_len] tokens. *)
Theorem strided_windows_full_but_last (encoding : dict (list (list Z)))
    (rows : list (list Z)) (seq_len : Z) (stride : option Z)
    (mask_stride_overlap : bool) :
  dict_get encoding "input_ids" = Some rows ->
  0 <= seq_len ->
  0 < int_or stride seq_len ->
  let emitted :=
    concatenate_and_group_texts encoding seq_len stride false
      mask_stride_overlap in
  let total_length := Z.of_nat (List.length (List.concat rows)) in
  let st := int_or stride seq_len in
  raised emitted = None /\
  List.length (yielded emitted)
  = Z.to_nat ((total_length - seq_len + st + st - 1) / st) /\
  forall i data,
    nth_error (yielded emitted) i = Some data ->
    (S i < List.length (yielded emitted))%nat ->
    exists ids,
      dict_get data "input_ids" = Some ids /\
      Z.of_nat (List.length ids) = seq_len.
Proof.
  intros Hids Hs Hst. cbv zeta.
  destruct (strided_windows encoding rows seq_len stride mask_stride_overlap
              Hids Hst) as (ds & E & F).
  rewrite E. cbn [yielded raised]. split; [reflexivity|]. split.
  - exact (strided_length rows seq_len stride ds F).
  - intros i data Hi Hlt.
    destruct (strided_but_last_long rows seq_len stride Hst ds F
                i data Hi Hlt) as (ids & Hd & Hl).
    exists ids. split; [exact Hd|].
    destruct (Forall2_nth_error_r _ _ _ i data F Hi) as (j & _ & Hj).
    rewrite Hd in Hj. injection Hj as ->.
    pose proof (slice_length_bound (List.concat rows)
                  (Z.of_nat j * int_or stride seq_len) seq_len Hs).
    lia.
Qed.

Lemma strided_windows_full_but_last_witness :
  dict_get [("input_ids", [[0; 1; 2; 3; 4; 5]; [6; 7; 8; 9; 10]])] "input_ids"
  = Some [[0; 1; 2; 3; 4; 5]; [6; 7; 8; 9; 10]] /\
  0 <= 4 /\
  0 < int_or (Some 3) 4 /\
  let emitted :=
    concatenate_and_group_texts
      [("input_ids", [[0; 1; 2; 3; 4; 5]; [6; 7; 8; 9; 10]])] 4 (Some 3)
      false true in
  raised emitted = None /\
  List.length (yielded emitted) = 4%nat /\
  forall i data,
    nth_error (yielded emitted) i = Some data ->
    (S i < List.length (yielded emitted))%nat ->
    exists ids,
      dict_get data "input_ids" = Some ids /\
      Z.of_nat (List.length ids) = 4.
Proof.
  split; [reflexivity|]. split; [lia|]. split; [reflexivity|].
  apply (strided_windows_full_but_last
           [("input_ids", [[0; 1; 2; 3; 4; 5]; [6; 7; 8; 9; 10]])]
           [[0; 1; 2; 3; 4; 5]; [6; 7; 8; 9; 10]] 4 (Some 3) true);
    [reflexivity|lia|reflexivity].
Defined.

(** ** Overlapping windows lose no token *)

Lemma Forall2_nth_error_l {A B : Type} (R : A -> B -> Prop) (l : list A)
    (l' : list B) (i : nat) (x : A) :
  Forall2 R l l' -> nth_error l i = Some x ->
  exists y, nth_error l' i = Some y /\ R x y.
Proof.
  intros F. revert i. induction F as [|a b l l' Hab _ IH]; intros i Hi.
  - destruct i; discriminate.
  - destruct i as [|i]; simpl in *.
    + injection Hi as <-. eauto.
    + now apply IH.
Qed.

(** The window that holds token [j]: the one at [j // stride], or the
    last one. *)
Lemma cover_index (L seq_len st j : Z) :
  0 < st <= seq_len -> 0 <= j < L -> seq_len - st < L ->
  let n := (L - seq_len + st + st - 1) / st in
  let i := Z.min (j / st) (n - 1) in
  0 <= i < n /\ i * st <= j < i * st + seq_len.
Proof.
  intros Hst Hj HL n i.
  pose proof (Z.div_mod (L - seq_len + st + st - 1) st ltac:(lia)) as Hn.
  pose proof (Z.mod_pos_bound (L - seq_len + st + st - 1) st ltac:(lia)) as Hnm.
  pose proof (Z.div_mod j st ltac:(lia)) as Hq.
  pose proof (Z.mod_pos_bound j st ltac:(lia)) as Hqm.
  fold n in Hn.
  assert (Hn1 : 1 <= n) by nia.
  assert (Hq0 : 0 <= j / st) by (apply Z.div_pos; lia).
  unfold i. destruct (Z.min_spec (j / st) (n - 1)) as [[Hlt ->]|[Hge ->]].
  - split; [lia|]. nia.
  - split; [lia|]. nia.
Qed.

(** X16: without [drop_remainder], when the stride in force is
    positive and at most [seq_len] and there are more than
    [seq_len - stride] tokens, every token is in a window: token [j] is
    entry [j - i * stride] of the [input_ids] of some window [i]. *)
Theorem strided_windows_cover (encoding : dict (list (list Z)))
    (rows : list (list Z)) (seq_len : Z) (stride : option Z)
    (mask_stride_overlap : bool) :
  dict_get encoding "input_ids" = Some rows ->
  0 < int_or stride seq_len <= seq_len ->
  seq_len - int_or stride seq_len < Z.of_nat (List.length (List.concat rows)) ->
  let emitted :=
    concatenate_and_group_texts encoding seq_len stride false
      mask_stride_overlap in
  forall (j : nat) (t : Z),
    nth_error (List.concat rows) j = Some t ->
    exists (i : nat) (data : dict (list Z)) (ids : list Z),
      nth_error (yielded emitted) i = Some data /\
      dict_get data "input_ids" = Some ids /\
      (i * Z.to_nat (int_or stride seq_len) <= j)%nat /\
      nth_error ids (j - i * Z.to_nat (int_or stride seq_len)) = Some t.
Proof.
  intros Hids Hst HL emitted j t Hj.
  destruct (strided_windows encoding rows seq_len stride mask_stride_overlap
              Hids ltac:(lia)) as (ds & E & F).
  unfold emitted. rewrite E. cbn [yielded]. clear E emitted.
  set (tokens := List.concat rows) in *.
  set (st := int_or stride seq_len) in *.
  assert (HjL : (j < List.length tokens)%nat)
    by (apply nth_error_Some; congruence).
  destruct (cover_index (Z.of_nat (List.length tokens)) seq_len st
              (Z.of_nat j) Hst ltac:(lia) HL) as [Hi Hcov].
  set (n := (Z.of_nat (List.length tokens) - seq_len + st + st - 1) / st) in *.
  set (iz := Z.min (Z.of_nat j / st) (n - 1)) in *.
  assert (Hnth : nth_error (seq 0 (Z.to_nat n)) (Z.to_nat iz)
                 = Some (Z.to_nat iz)).
  { rewrite nth_error_nth' with (d := 0%nat) by (rewrite length_seq; lia).
    rewrite seq_nth by lia. reflexivity. }
  destruct (Forall2_nth_error_l _ _ _ _ _ F Hnth) as (data & Hd & Hdata).
  rewrite Z2Nat.id in Hdata by lia.
  exists (Z.to_nat iz), data, (slice tokens (iz * st) (iz * st + seq_len)).
  split; [exact Hd|]. split; [exact Hdata|].
  assert (Hmul : (Z.to_nat iz * Z.to_nat st)%nat = Z.to_nat (iz * st))
    by (rewrite Z2Nat.inj_mul by lia; reflexivity).
  split; [lia|].
  rewrite slice_from by lia.
  rewrite nth_error_firstn.
  replace (j - Z.to_nat iz * Z.to_nat st <? Z.to_nat seq_len)%nat with true
    by (symmetry; apply Nat.ltb_lt; lia).
  rewrite nth_error_skipn.
  replace (Z.to_nat (iz * st) + (j - Z.to_nat iz * Z.to_nat st))%nat with j
    by lia.
  exact Hj.
Qed.

Lemma strided_windows_cover_witness :
  dict_get [("input_ids", [[0; 1; 2; 3; 4; 5]; [6; 7; 8; 9; 10]])] "input_ids"
  = Some [[0; 1; 2; 3; 4; 5]; [6; 7; 8; 9; 10]] /\
  0 < int_or (Some 3) 4 <= 4 /\
  4 - int_or (Some 3) 4 < 11 /\
  let emitted :=
    concatenate_and_group_texts
      [("input_ids", [[0; 1; 2; 3; 4; 5]; [6; 7; 8; 9; 10]])] 4 (Some 3)
      false true in
  forall (j : nat) (t : Z),
    nth_error [0; 1; 2; 3; 4; 5; 6; 7; 8; 9; 10] j = Some t ->
    exists (i : nat) (data : dict (list Z)) (ids : list Z),
      nth_error (yielded emitted) i = Some data /\
      dict_get data "input_ids" = Some ids /\
      (i * 3 <= j)%nat /\
      nth_error ids (j - i * 3) = Some t.
Proof.
  split; [reflexivity|]. split; [simpl; lia|]. split; [simpl; lia|].
  apply (strided_windows_cover
           [("input_ids", [[0; 1; 2; 3; 4; 5]; [6; 7; 8; 9; 10]])]
           [[0; 1; 2; 3; 4; 5]; [6; 7; 8; 9; 10]] 4 (Some 3) true);
    [reflexivity|simpl; lia|simpl; lia].
Defined.

(** ** The first window: labels and input_ids are one array *)

(** The first value of [begin] is [0]. *)
Lemma window_begins_shape (total_length seq_len : Z) (stride : option Z)
    (drop_remainder : bool) (st : Z) (begins : list Z) :
  window_begins total_length seq_len stride drop_remainder = Ok (st, begins) ->
  st = int_or stride seq_len /\ (begins = [] \/ exists bs, begins = 0 :: bs).
Proof.
  unfold window_begins.
  destruct (if drop_remainder
            then
              m <- mod_ total_length (int_or stride seq_len) ;;
              Ok (if negb (m =? 0)
                  then (total_length - seq_len + int_or stride seq_len)
                       / int_or stride seq_len * int_or stride seq_len
                  else total_length)
            else Ok total_length) as [total|e]; cbn [Py.bind]; [|discriminate].
  unfold range0. destruct (int_or stride seq_len =? 0); cbn [Py.bind];
    [discriminate|].
  intros E. injection E as <- <-. split; [reflexivity|].
  destruct (Z.to_nat _) as [|c]; [now left|right].
  cbn [seq map]. eexists. reflexivity.
Qed.

(** The concatenated encoding has the keys of the encoding. *)
Lemma concatenate_keys (items : dict (list (list Z))) (k : string) :
  forall h,
    dict_get (snd (Np.concatenate h items)) k = None
    <-> dict_get items k = None.
Proof.
  induction items as [|[k' v] items IH]; intros h; cbn [Np.concatenate].
  - cbn [snd dict_get]. split; reflexivity.
  - unfold Np.array.
    specialize (IH (h ++ [List.concat v])).
    destruct (Np.concatenate (h ++ [List.concat v]) items) as [h' d].
    cbn [snd dict_get] in *.
    destruct (String.eqb k' k); [|exact IH].
    split; discriminate.
Qed.

(** X17: when the mask applies ([stride] differs from [seq_len]) and
    the encoding has no [labels], the [labels] of the first window is no
    copy: it is the very array that is its [input_ids], the same view of
    the same buffer. *)
Theorem first_window_labels_alias (h : Np.store)
    (encoding : dict (list (list Z))) (seq_len : Z) (stride : option Z)
    (drop_remainder : bool) :
  dict_get encoding "labels" = None ->
  int_or stride seq_len <> seq_len ->
  let r := Np.concatenate_and_group_texts h encoding seq_len stride
             drop_remainder true in
  forall data rest,
    yielded (snd r) = data :: rest ->
    exists ids,
      dict_get data "input_ids" = Some ids /\
      dict_get data "labels" = Some ids.
Proof.
  intros Hlab Hst. cbv zeta. unfold Np.concatenate_and_group_texts.
  pose proof (concatenate_keys encoding "labels" h) as Hk.
  destruct (Np.concatenate h encoding) as [h1 conc]. cbn [snd] in Hk.
  apply Hk in Hlab. clear Hk.
  unfold dict_attr.
  destruct (dict_get conc "input_ids") as [ids|] eqn:Hids; cbn [Py.bind];
    [|intros data rest E; discriminate].
  destruct (window_begins (Z.of_nat (Np.size ids)) seq_len stride drop_remainder)
    as [[st begins]|e] eqn:Eb; [|intros data rest E; discriminate].
  apply window_begins_shape in Eb. destruct Eb as [-> [->|(bs & ->)]];
    [intros data rest E; discriminate|].
  cbn [Np.windows]. unfold Np.window at 1.
  replace (int_or stride seq_len =? seq_len) with false
    by (symmetry; now apply Z.eqb_neq).
  cbn [andb negb]. unfold dict_item.
  rewrite !dict_get_map, Hids, Hlab. cbn [option_map Py.bind].
  replace (0 =? 0) with true by reflexivity. cbn [negb].
  destruct (Np.windows h1 conc seq_len (int_or stride seq_len) true bs)
    as [h2 s].
  cbn [snd stream_cons yielded]. intros data rest E. injection E as <- _.
  exists (Np.view ids 0 (0 + seq_len)). split.
  - rewrite dict_get_set_ne by discriminate.
    now rewrite dict_get_map, Hids.
  - apply dict_get_set_eq.
Qed.

Lemma first_window_labels_alias_witness :
  dict_get [("input_ids", [[0; 1; 2; 3; 4; 5]; [6; 7; 8; 9]])] "labels" = None /\
  int_or (Some 2) 4 <> 4 /\
  let r := Np.concatenate_and_group_texts []
             [("input_ids", [[0; 1; 2; 3; 4; 5]; [6; 7; 8; 9]])] 4 (Some 2)
             false true in
  forall data rest,
    yielded (snd r) = data :: rest ->
    exists ids,
      dict_get data "input_ids" = Some ids /\
      dict_get data "labels" = Some ids.
Proof.
  split; [reflexivity|]. split; [discriminate|].
  apply (first_window_labels_alias []
           [("input_ids", [[0; 1; 2; 3; 4; 5]; [6; 7; 8; 9]])] 4 (Some 2) false);
    [reflexivity|discriminate].
Defined.

(** ** BatchEncodingDataset: one record per row *)

Section Rows.

Import BatchEncodingDataset.

(** Row [i], when every field has it. *)
Lemma record_at_row (items : dict (list (list Z))) (i : nat) :
  Forall (fun kv => (i < List.length (snd kv))%nat) items ->
  record_at items i = Ok (row_of items i).
Proof.
  induction 1 as [|[k v] items Hv _ IH]; [reflexivity|].
  cbn [record_at snd] in *. unfold getitem.
  destruct (nth_error v i) as [x|] eqn:E.
  - cbn [Py.bind]. rewrite IH. cbn [Py.bind]. unfold row_of. cbn [dict_map map fst snd].
    now rewrite (nth_error_nth _ _ _ E).
  - apply nth_error_None in E. lia.
Qed.

Lemma record_at_short (items : dict (list (list Z))) (i : nat) :
  Exists (fun kv => (List.length (snd kv) <= i)%nat) items ->
  record_at items i = Raise IndexError.
Proof.
  induction items as [|[k v] items IH]; intros H; [inversion H|].
  cbn [record_at]. unfold getitem.
  destruct (nth_error v i) as [x|] eqn:E; [|reflexivity].
  cbn [Py.bind]. rewrite IH; [reflexivity|].
  inversion H as [? ? Hs|? ? Hs]; subst; [|exact Hs].
  cbn [snd] in Hs. apply nth_error_None in Hs. congruence.
Qed.

Lemma records_rows (encoding : dict (list (list Z))) (n : nat) :
  Forall (fun kv => (n <= List.length (snd kv))%nat) encoding ->
  forall j m, (j + m <= n)%nat ->
    records encoding (seq j m)
    = {| yielded := map (fun i => Row (row_of encoding i)) (seq j m);
         raised := None |}.
Proof.
  intros Hn j m. revert j. induction m as [|m IH]; intros j Hj; [reflexivity|].
  cbn [seq records map]. rewrite record_at_row.
  - rewrite IH by lia. reflexivity.
  - eapply Forall_impl; [|exact Hn]. intros kv Hkv. simpl in Hkv. lia.
Qed.

Lemma nth_seq_all {A : Type} (v : list A) (d : A) :
  map (fun i => nth i v d) (seq 0 (List.length v)) = v.
Proof.
  induction v as [|x v IH]; [reflexivity|].
  cbn [List.length seq map nth]. f_equal.
  rewrite <- seq_shift, map_map. exact IH.
Qed.

(** The rows of a batch, read along one field, are the sequences of
    that field. *)
Lemma rows_of_field (encoding : dict (list (list Z))) (k : string)
    (v : list (list Z)) :
  rectangular encoding ->
  dict_get encoding k = Some v ->
  map (fun r => dict_get r k) (rows_of encoding) = map Some v.
Proof.
  intros Hr Hk. unfold rows_of, row_of. rewrite map_map.
  pose proof (dict_get_Forall
                (fun v => List.length v = batch_size encoding) encoding k v
                Hr Hk) as Hlen.
  cbn beta in Hlen. rewrite <- Hlen.
  erewrite map_ext by (intros i; rewrite dict_get_map, Hk; reflexivity).
  cbn [option_map]. rewrite <- (map_map (fun i => nth i v []) Some).
  now rewrite nth_seq_all.
Qed.

Lemma iter_batches_rows (batches : list (dict (list (list Z)))) :
  Forall rectangular batches ->
  iter_batches false batches
  = {| yielded := map Row (List.concat (map rows_of batches)); raised := None |}.
Proof.
  induction 1 as [|e batches He _ IH]; [reflexivity|].
  cbn [iter_batches]. rewrite (records_rows e (batch_size e)).
  - cbn [raised yielded]. rewrite IH. cbn [yielded raised map List.concat].
    rewrite map_app. unfold rows_of at 2. now rewrite map_map.
  - eapply Forall_impl; [|exact He]. intros kv Hkv. simpl in Hkv. lia.
  - lia.
Qed.

End Rows.

(** X18: with [return_batches] off, on a cache whose batches have as
    many sequences in every field, [BatchEncodingDataset.__iter__] ends
    without exception and yields, batch after batch, one record per row;
    read field by field, the records of a batch give back the sequences
    of the batch, in order. *)
Theorem batch_encoding_dataset_rows (self : BatchEncodingDataset.t) :
  BatchEncodingDataset.return_batches self = false ->
  Forall rectangular (BatchEncodingDataset.cache self) ->
  BatchEncodingDataset.__iter__ self
  = {| yielded :=
         map BatchEncodingDataset.Row
           (List.concat (map rows_of (BatchEncodingDataset.cache self)));
       raised := None |}
  /\ Forall (fun encoding =>
               forall k v, dict_get encoding k = Some v ->
                 map (fun r => dict_get r k) (rows_of encoding) = map Some v)
       (BatchEncodingDataset.cache self).
Proof.
  intros Hrb Hrect. unfold BatchEncodingDataset.__iter__. rewrite Hrb.
  split; [now apply iter_batches_rows|].
  eapply Forall_impl; [|exact Hrect].
  intros e He k v Hk. now apply rows_of_field.
Qed.

Lemma batch_encoding_dataset_rows_witness :
  let self :=
    {| BatchEncodingDataset.cache :=
         [[("input_ids", [[1; 2]; [3]]); ("attention_mask", [[1; 1]; [1]])];
          [("input_ids", [[4; 5; 6]]); ("attention_mask", [[1; 1; 1]])]];
       BatchEncodingDataset.return_batches := false |} in
  BatchEncodingDataset.return_batches self = false /\
  Forall rectangular (BatchEncodingDataset.cache self) /\
  BatchEncodingDataset.__iter__ self
  = {| yielded :=
         [BatchEncodingDataset.Row [("input_ids", [1; 2]); ("attention_mask", [1; 1])];
          BatchEncodingDataset.Row [("input_ids", [3]); ("attention_mask", [1])];
          BatchEncodingDataset.Row
            [("input_ids", [4; 5; 6]); ("attention_mask", [1; 1; 1])]];
       raised := None |}
  /\ Forall (fun encoding =>
               forall k v, dict_get encoding k = Some v ->
                 map (fun r => dict_get r k) (rows_of encoding) = map Some v)
       (BatchEncodingDataset.cache self).
Proof.
  split; [reflexivity|]. split; [repeat constructor|].
  apply (batch_encoding_dataset_rows
           {| BatchEncodingDataset.cache :=
                [[("input_ids", [[1; 2]; [3]]); ("attention_mask", [[1; 1]; [1]])];
                 [("input_ids", [[4; 5; 6]]); ("attention_mask", [[1; 1; 1]])]];
              BatchEncodingDataset.return_batches := false |});
    [reflexivity|repeat constructor].
Defined.

Section RaggedRows.

Import BatchEncodingDataset.

(** The shortest field: no field is shorter, and some field is that
    short when the first is longer. *)
Lemma fold_min_bounds (items : dict (list (list Z))) (n : nat) :
  let m := fold_right (fun kv m => Nat.min (List.length (snd kv)) m) n items in
  (m <= n)%nat /\
  Forall (fun kv => (m <= List.length (snd kv))%nat) items /\
  ((m < n)%nat -> Exists (fun kv => (List.length (snd kv) <= m)%nat) items).
Proof.
  induction items as [|[k v] items (H1 & H2 & H3)]; cbn [fold_right snd].
  - repeat split; [lia|constructor|lia].
  - set (m := fold_right _ n items) in *. repeat split.
    + lia.
    + constructor; [cbn [snd]; lia|].
      eapply Forall_impl; [|exact H2]. intros kv Hkv. simpl in Hkv. lia.
    + intros Hlt.
      destruct (Nat.le_gt_cases (List.length v) m) as [Hv|Hv].
      * left. cbn [snd]. lia.
      * right. rewrite Nat.min_r in * by lia.
        eapply Exists_impl; [|apply H3; lia]. intros kv Hkv. exact Hkv.
Qed.

Lemma records_ragged (encoding : dict (list (list Z))) (r : nat) :
  Exists (fun kv => (List.length (snd kv) <= shortest encoding)%nat) encoding ->
  Forall (fun kv => (shortest encoding <= List.length (snd kv))%nat) encoding ->
  forall k j, (j + k = shortest encoding)%nat ->
    records encoding (seq j (k + S r))
    = {| yielded := map (fun i => Row (row_of encoding i)) (seq j k);
         raised := Some IndexError |}.
Proof.
  intros Hex Hall. induction k as [|k IH]; intros j Hj.
  - cbn [Nat.add seq records]. rewrite record_at_short; [reflexivity|].
    eapply Exists_impl; [|exact Hex]. intros kv Hkv. simpl in *. lia.
  - cbn [Nat.add seq records map]. rewrite record_at_row.
    + rewrite IH by lia. reflexivity.
    + eapply Forall_impl; [|exact Hall]. intros kv Hkv. simpl in *. lia.
Qed.

Lemma iter_batches_app_rows (pre rest : list (dict (list (list Z)))) :
  Forall rectangular pre ->
  iter_batches false (pre ++ rest)
  = {| yielded := map Row (List.concat (map rows_of pre))
                  ++ yielded (iter_batches false rest);
       raised := raised (iter_batches false rest) |}.
Proof.
  induction 1 as [|e pre He _ IH]; cbn [app].
  - now destruct (iter_batches false rest).
  - cbn [iter_batches]. rewrite (records_rows e (batch_size e)).
    + cbn [raised yielded]. rewrite IH. cbn [yielded raised map List.concat].
      rewrite map_app, <- app_assoc. unfold rows_of at 2. now rewrite map_map.
    + eapply Forall_impl; [|exact He]. intros kv Hkv. simpl in Hkv. lia.
    + lia.
Qed.

End RaggedRows.

(** X19: a batch in which some field has fewer sequences than the
    first field stops the iteration: after the records of the batches
    before it, the rows that all its fields have are yielded, then
    [IndexError] is raised and the batches after it are not read. *)
Theorem batch_encoding_dataset_ragged (pre post : list (dict (list (list Z))))
    (encoding : dict (list (list Z))) :
  Forall rectangular pre ->
  (shortest encoding < BatchEncodingDataset.batch_size encoding)%nat ->
  BatchEncodingDataset.__iter__
    {| BatchEncodingDataset.cache := pre ++ encoding :: post;
       BatchEncodingDataset.return_batches := false |}
  = {| yielded :=
         map BatchEncodingDataset.Row
           (List.concat (map rows_of pre)
            ++ map (row_of encoding) (seq 0 (shortest encoding)));
       raised := Some IndexError |}.
Proof.
  intros Hpre Hlt. unfold BatchEncodingDataset.__iter__.
  cbn [BatchEncodingDataset.cache BatchEncodingDataset.return_batches].
  rewrite iter_batches_app_rows by assumption.
  destruct (fold_min_bounds encoding (BatchEncodingDataset.batch_size encoding))
    as (Hle & Hall & Hex).
  fold (shortest encoding) in Hle, Hall, Hex.
  assert (Hs : BatchEncodingDataset.records encoding
                 (seq 0 (BatchEncodingDataset.batch_size encoding))
               = {| yielded :=
                      map (fun i => BatchEncodingDataset.Row (row_of encoding i))
                        (seq 0 (shortest encoding));
                    raised := Some IndexError |}).
  { replace (BatchEncodingDataset.batch_size encoding)
      with (shortest encoding
            + S (BatchEncodingDataset.batch_size encoding
                 - shortest encoding - 1))%nat by lia.
    apply (records_ragged encoding _ (Hex Hlt) Hall). lia. }
  cbn [BatchEncodingDataset.iter_batches]. rewrite Hs.
  cbn [raised yielded]. now rewrite map_app, map_map.
Qed.

Lemma batch_encoding_dataset_ragged_witness :
  let encoding :=
    [("input_ids", [[4; 5]; [6]; [7]]); ("attention_mask", [[1; 1]])] in
  Forall rectangular [[("input_ids", [[1; 2]; [3]])]] /\
  (shortest encoding < BatchEncodingDataset.batch_size encoding)%nat /\
  BatchEncodingDataset.__iter__
    {| BatchEncodingDataset.cache :=
         [[("input_ids", [[1; 2]; [3]])]] ++ encoding :: [[("input_ids", [[8]])]];
       BatchEncodingDataset.return_batches := false |}
  = {| yielded :=
         [BatchEncodingDataset.Row [("input_ids", [1; 2])];
          BatchEncodingDataset.Row [("input_ids", [3])];
          BatchEncodingDataset.Row [("input_ids", [4; 5]); ("attention_mask", [1; 1])]];
       raised := Some IndexError |}.
Proof.
  split; [repeat constructor|]. split; [vm_compute; lia|].
  apply (batch_encoding_dataset_ragged [[("input_ids", [[1; 2]; [3]])]]
           [[("input_ids", [[8]])]]
           [("input_ids", [[4; 5]; [6]; [7]]); ("attention_mask", [[1; 1]])]);
    [repeat constructor|vm_compute; lia].
Defined.

(** ** CausalLmDataset: construction, iteration, shards *)

Section CausalExamples.

Import CausalLmDataset.

Variables PRNGKey Axis Prob Mask NamedArray : Type.
Variable split : PRNGKey -> PRNGKey * PRNGKey.
Variable forgetful_causal_mask : Axis -> Prob -> PRNGKey -> Mask.
Variable positive : Prob -> bool.
Variable named : list Z -> Axis -> result NamedArray.

Let iterate := __iter__ split forgetful_causal_mask positive named.

(** Without forgetful masking the key is not looked at. *)
Lemma examples_plain (self : t PRNGKey Axis Prob) (k : option PRNGKey)
    (windows : list (list Z)) :
  positive (fcm_prob self) = false ->
  examples split forgetful_causal_mask positive named self k windows
  = {| yielded :=
         map (fun a => LmExample_causal Mask NamedArray a (ignore_index self))
           (yielded (named_windows named (QPos self) windows));
       raised := raised (named_windows named (QPos self) windows) |}.
Proof.
  intros Hp. induction windows as [|w windows IH]; [reflexivity|].
  cbn [examples named_windows]. unfold _create_lm_example at 1.
  destruct (named w (QPos self)) as [a|e]; cbn [Py.bind]; [|reflexivity].
  rewrite Hp, IH. reflexivity.
Qed.

(** What [__init__] accepts: the fields as given, and a key when the
    probability is positive. *)
Lemma init_fields (ds : list (list Z)) (q kp : Axis) (p : Prob)
    (k : option PRNGKey) (ig : option Z) (self : t PRNGKey Axis Prob) :
  __init__ PRNGKey Axis Prob positive ds q kp p k ig = Ok self ->
  self = {| dataset := ds; QPos := q; KPos := kp; fcm_prob := p; key := k;
            ignore_index := ig |}
  /\ (positive p = true -> exists root, k = Some root).
Proof.
  unfold __init__. destruct (positive p), k as [root|]; intros E;
    try discriminate; injection E as <-; split; try reflexivity;
    try discriminate; eauto.
Qed.

(** With a key whenever the probability is positive, the iteration
    follows [hax.named]: an example per named array, and its exception. *)
Lemma iterate_named (self : t PRNGKey Axis Prob) :
  (positive (fcm_prob self) = true -> exists root, key self = Some root) ->
  raised (iterate self)
  = raised (named_windows named (QPos self) (dataset self)) /\
  map tokens (yielded (iterate self))
  = yielded (named_windows named (QPos self) (dataset self)) /\
  Forall (fun ex => ignore_id ex = ignore_index self) (yielded (iterate self)) /\
  (positive (fcm_prob self) = false ->
   Forall (fun ex => attn_mask ex = Causal) (yielded (iterate self))).
Proof.
  intros Hk. unfold iterate, __iter__.
  destruct (positive (fcm_prob self)) eqn:Hp.
  - destruct (Hk eq_refl) as (root & Hroot). rewrite Hroot.
    rewrite (examples_key PRNGKey Axis Prob Mask NamedArray split
               forgetful_causal_mask positive named self root root
               (dataset self) Hp Hroot).
    cbn [raised yielded]. rewrite map_map. cbn [tokens].
    repeat split; [apply map_id| |discriminate].
    apply Forall_map, Forall_forall. reflexivity.
  - rewrite examples_plain by assumption. cbn [raised yielded].
    rewrite map_map. unfold LmExample_causal. cbn [tokens].
    repeat split; [apply map_id| |intros _];
      apply Forall_map, Forall_forall; reflexivity.
Qed.

End CausalExamples.




